(** * The MCQ Battle: quiz session core

    A shallow embedding of the WebSocket server of the repository
    (apps/ws-server/src/index.ts with its types.ts and the Prisma schema)
    and the properties of its quiz engine, connection registry, rate
    limiter and rating updater.

    Conventions of the embedding.
    - JavaScript numbers that hold integers (user ids, indices, scores,
      ratings, millisecond clocks) are [Z].
    - The process-wide [Map]s and [Set]s of the server are [gmap]s and
      [gset]s; a socket object is named by its [connectionId].
    - Redis is a finite map from keys to entries with an absolute expiry
      time; every read goes through the expiry test.
    - The relational store is a record of tables; unique indexes are
      enforced by the insert operations.
    - A handler receives an environment [Env] with the readings it takes
      from outside (clock, random numbers, store availability) and is a
      state transformer on [World].  Everything the server emits is
      appended to logs kept in the world (newest entry first).
    - A handler runs without interruption, except [handleSubmitAnswer],
      which is also given [await] by [await] so that concurrent
      submissions can be interleaved.
    - Redis answers every command; the relational store may fail, call
      by call, as the environment says. *)

From Stdlib Require Import ZArith Lia.
From stdpp Require Import base tactics option list sorting gmap fin_maps fin_sets strings pretty.

#[local] Open Scope Z_scope.

(** ** Configuration constants (index.ts, [CONFIG]) *)

Module CONFIG.
Definition QUESTION_TIME_LIMIT : Z := 10000.
Definition QUIZ_START_DELAY : Z := 5000.
Definition NEXT_QUESTION_DELAY : Z := 3000.
Definition QUESTIONS_PER_QUIZ : Z := 10.
Definition REDIS_TTL : Z := 600.
Definition MAX_CONNECTIONS_PER_USER : Z := 3.
Definition RATE_LIMIT_WINDOW : Z := 1000.
Definition RATE_LIMIT_MAX : Z := 10.
End CONFIG.

(** ** Wire protocol (types.ts) *)

Record QuizQuestion := {
  q_id : Z;
  q_text : string;
  q_options : list string;
  correctIdx : Z
}.

Record Standing := {
  st_userId : Z;
  st_userName : string;
  st_score : Z;
  st_newRating : Z
}.

(** Inbound messages accepted by [WebSocketMessageSchema]. *)
Inductive WebSocketMessage :=
| MJoin (roomId : string)
| MStartQuiz (roomId : string)
| MSubmitAnswer (roomId : string) (questionIndex choiceIdx : Z)
| MLeaveRoom (roomId : string).

(** What [JSON.parse] followed by [WebSocketMessageSchema.parse] makes of a
    text frame: a [SyntaxError], a schema error, or a message. *)
Inductive Decoded :=
| DSyntaxError
| DSchemaError
| DMessage (m : WebSocketMessage).

(** Outbound frames. *)
Inductive Frame :=
| FError (code : Z) (message : string)
| FConnected (connectionId : string) (userId : Z)
| FJoinedRoom (roomId : string)
| FParticipantJoined (userId : Z) (userName : string)
| FParticipantLeft (userId : Z)
| FQuizStarting (roomId : string) (startDelay questionCount : Z)
| FNextQuestion (questionIndex : Z) (question : QuizQuestion) (startedAt expiresAt : Z)
| FEndQuestion (questionIndex correctIdx : Z) (winnerUserId : option Z)
| FQuizFinished (standings : list Standing).

(** [WebSocketError]: the only exception the handlers raise on purpose. *)
Inductive Outcome (A : Type) :=
| Ok (a : A)
| Throw (code : Z) (message : string).
Arguments Ok {A} a.
Arguments Throw {A} code message.

#[global] Instance QuizQuestion_eq_dec : EqDecision QuizQuestion.
Proof. solve_decision. Defined.
#[global] Instance Standing_eq_dec : EqDecision Standing.
Proof. solve_decision. Defined.
#[global] Instance Frame_eq_dec : EqDecision Frame.
Proof. solve_decision. Defined.

(** ** Sockets *)

Inductive ReadyState := CONNECTING | OPEN | CLOSING | CLOSED.

#[global] Instance ReadyState_eq_dec : EqDecision ReadyState.
Proof. solve_decision. Defined.

(** [WebSocketWithUser]: the fields the server decorates a socket with.
    [userId] is [None] until the connection handler has attached it. *)
Record WebSocketWithUser := {
  userId : option Z;
  currentRoom : option string;
  readyState : ReadyState
}.

(** JavaScript truthiness of [ws.userId]: [undefined] and [0] are falsy. *)
Definition truthy_id (u : option Z) : option Z :=
  match u with
  | Some 0 => None
  | _ => u
  end.

(** ** Redis *)

(** The keys the server uses, with the template string of each:
    - [room:${roomId}:currentQuestion]
    - [room:${roomId}:startTime]
    - [room:${roomId}:participants]
    - [room:${roomId}:q:${questionIndex}:answered:${userId}]
    - [room:${roomId}:q:${questionIndex}:firstUser]
    - [room:${roomId}:q:${questionIndex}:expired] *)
Inductive RKey :=
| KCurrentQuestion (roomId : string)
| KStartTime (roomId : string)
| KParticipants (roomId : string)
| KAnswered (roomId : string) (questionIndex userId : Z)
| KFirstUser (roomId : string) (questionIndex : Z)
| KExpired (roomId : string) (questionIndex : Z).

#[global] Instance RKey_eq_dec : EqDecision RKey.
Proof. solve_decision. Defined.

Definition RKey_encode (k : RKey) : nat * string * Z * Z :=
  match k with
  | KCurrentQuestion r => (0%nat, r, 0, 0)
  | KStartTime r => (1%nat, r, 0, 0)
  | KParticipants r => (2%nat, r, 0, 0)
  | KAnswered r i u => (3%nat, r, i, u)
  | KFirstUser r i => (4%nat, r, i, 0)
  | KExpired r i => (5%nat, r, i, 0)
  end.

Definition RKey_decode (t : nat * string * Z * Z) : RKey :=
  match t with
  | (0%nat, r, _, _) => KCurrentQuestion r
  | (1%nat, r, _, _) => KStartTime r
  | (2%nat, r, _, _) => KParticipants r
  | (3%nat, r, i, u) => KAnswered r i u
  | (4%nat, r, i, _) => KFirstUser r i
  | (_, r, i, _) => KExpired r i
  end.

#[global] Instance RKey_countable : Countable RKey.
Proof.
  refine (inj_countable' RKey_encode RKey_decode _).
  intros []; reflexivity.
Defined.

Inductive RVal :=
| RString (s : string)
| RSet (members : gset string).

(** An entry and the instant (in ms) at which it expires, if it has one. *)
Record REntry := {
  rval : RVal;
  rexpire : option Z
}.

Definition live (now : Z) (e : REntry) : bool :=
  match rexpire e with
  | None => true
  | Some t => bool_decide (now < t)
  end.

Definition redis_lookup (now : Z) (k : RKey) (r : gmap RKey REntry) : option REntry :=
  match r !! k with
  | Some e => if live now e then Some e else None
  | None => None
  end.

(** GET *)
Definition redis_get (now : Z) (k : RKey) (r : gmap RKey REntry) : option string :=
  match redis_lookup now k r with
  | Some {| rval := RString s |} => Some s
  | _ => None
  end.

(** EXISTS *)
Definition redis_exists (now : Z) (k : RKey) (r : gmap RKey REntry) : bool :=
  match redis_lookup now k r with
  | Some _ => true
  | None => false
  end.

(** SET key value EX seconds *)
Definition redis_set_ex (now : Z) (k : RKey) (v : string) (seconds : Z)
    (r : gmap RKey REntry) : gmap RKey REntry :=
  <[k := {| rval := RString v; rexpire := Some (now + seconds * 1000) |}]> r.

(** SET key value (no expiry) *)
Definition redis_set (k : RKey) (v : string) (r : gmap RKey REntry) : gmap RKey REntry :=
  <[k := {| rval := RString v; rexpire := None |}]> r.

(** SET key value EX seconds NX: the reply is truthy iff the key was set. *)
Definition redis_set_nx (now : Z) (k : RKey) (v : string) (seconds : Z)
    (r : gmap RKey REntry) : bool * gmap RKey REntry :=
  if redis_exists now k r then (false, r)
  else (true, redis_set_ex now k v seconds r).

(** EXPIRE *)
Definition redis_expire (now : Z) (k : RKey) (seconds : Z)
    (r : gmap RKey REntry) : gmap RKey REntry :=
  match redis_lookup now k r with
  | Some e => <[k := {| rval := rval e; rexpire := Some (now + seconds * 1000) |}]> r
  | None => r
  end.

(** SADD (a key holding a string is left alone: WRONGTYPE) *)
Definition redis_sadd (now : Z) (k : RKey) (member : string)
    (r : gmap RKey REntry) : gmap RKey REntry :=
  match redis_lookup now k r with
  | Some {| rval := RSet s; rexpire := t |} =>
      <[k := {| rval := RSet ({[member]} ∪ s); rexpire := t |}]> r
  | Some _ => r
  | None => <[k := {| rval := RSet {[member]}; rexpire := None |}]> r
  end.

(** SREM (a set that becomes empty is removed) *)
Definition redis_srem (now : Z) (k : RKey) (member : string)
    (r : gmap RKey REntry) : gmap RKey REntry :=
  match redis_lookup now k r with
  | Some {| rval := RSet s; rexpire := t |} =>
      if decide (s ∖ {[member]} = ∅) then delete k r
      else <[k := {| rval := RSet (s ∖ {[member]}); rexpire := t |}]> r
  | _ => r
  end.

(** SISMEMBER *)
Definition redis_sismember (now : Z) (k : RKey) (member : string)
    (r : gmap RKey REntry) : bool :=
  match redis_lookup now k r with
  | Some {| rval := RSet s |} => bool_decide (member ∈ s)
  | _ => false
  end.

(** DEL key [key ...] *)
Definition redis_del (ks : list RKey) (r : gmap RKey REntry) : gmap RKey REntry :=
  foldr delete r ks.

(** ** Relational store (Prisma schema) *)

Record User := {
  user_name : option string
}.

Record Room := {
  room_name : string;
  hostId : Z;
  isActive : bool;
  maxPlayers : Z
}.

Record RoomParticipant := {
  rp_roomId : string;
  rp_userId : Z;
  score : Z
}.

Record AnswerClaim := {
  ac_roomId : string;
  ac_questionIndex : Z;
  ac_userId : Z;
  txHash : string
}.

(** Tables with a single-column primary key are maps; the others are the
    list of their rows in insertion order. *)
Record Database := {
  users : gmap Z User;
  rooms : gmap string Room;
  roomParticipants : list RoomParticipant;
  questions : list QuizQuestion;
  answerClaims : list AnswerClaim;
  playerRatings : gmap Z Z
}.

(** The places where the server calls the store.  The environment tells
    for each of them whether the call fails with a driver error during
    the current handler run. *)
Inductive DbCall :=
| JoinTx
| JoinUserLookup
| StartRoomLookup
| StartQuestionCount
| StartQuestionFind
| ClaimTx
| LeaveTx
| StandingsFind
| RatingTx (userId : Z).

(** ** Timers *)

(** The closures handed to [setTimeout]. *)
Inductive Callback :=
| CbConnectionCleanup (connectionId : string)
| CbFirstQuestion (roomId : string)
| CbQuestionExpiry (roomId : string) (questionIndex : Z)
| CbAdvance (roomId : string) (questionIndex : Z).

(** A pending [NodeJS.Timeout]. *)
Record Timeout := {
  due : Z;
  callback : Callback
}.

(** [RoomTimer]; [timer] is the handle of the pending timeout. *)
Record RoomTimer := {
  timer : nat;
  rt_questionIndex : Z;
  rt_roomId : string
}.

(** ** Rate limiting entries *)

Record RateLimit := {
  count : Z;
  resetTime : Z
}.

(** ** What the server emits *)

Inductive WireEvent :=
| WSend (connectionId : string) (f : Frame)
| WClose (connectionId : string) (code : option Z) (reason : string).

(** ** The state of the process and of its two stores *)

Record World := {
  sockets : gmap string WebSocketWithUser;
  roomSockets : gmap string (gset string);
  questionsCache : gmap string (list QuizQuestion * Z);
  timers : gmap string RoomTimer;
  userConnections : gmap Z (gset string);
  connectionCleanup : gmap string nat;
  rateLimitMap : gmap Z RateLimit;
  timeouts : gmap nat Timeout;
  nextTimeout : nat;
  spawned : list (string * string);
  redis : gmap RKey REntry;
  db : Database;
  wire : list WireEvent;
  broadcasts : list (string * Frame);
  logs : list string
}.

(** [spawned]: the sockets for which [cleanupConnection] has started
    [handleLeaveRoom(ws)] without awaiting it.
    [wire]: frames written to and close frames sent on single sockets.
    [broadcasts]: the calls of [broadcastToRoom]. [logs]: [console.error]. *)

Record Env := {
  now : Z;
  db_fails : DbCall -> bool;
  random_skip : Z -> Z;
  random_desc : bool
}.

(** [random_skip n] is the reading [Math.floor(Math.random() * n)];
    [random_desc] is the reading [Math.random() < 0.5] negated. *)

Definition with_sockets x (w : World) : World :=
  Build_World x (roomSockets w) (questionsCache w) (timers w) (userConnections w)
    (connectionCleanup w) (rateLimitMap w) (timeouts w) (nextTimeout w) (spawned w)
    (redis w) (db w) (wire w) (broadcasts w) (logs w).
Definition with_roomSockets x (w : World) : World :=
  Build_World (sockets w) x (questionsCache w) (timers w) (userConnections w)
    (connectionCleanup w) (rateLimitMap w) (timeouts w) (nextTimeout w) (spawned w)
    (redis w) (db w) (wire w) (broadcasts w) (logs w).
Definition with_questionsCache x (w : World) : World :=
  Build_World (sockets w) (roomSockets w) x (timers w) (userConnections w)
    (connectionCleanup w) (rateLimitMap w) (timeouts w) (nextTimeout w) (spawned w)
    (redis w) (db w) (wire w) (broadcasts w) (logs w).
Definition with_timers x (w : World) : World :=
  Build_World (sockets w) (roomSockets w) (questionsCache w) x (userConnections w)
    (connectionCleanup w) (rateLimitMap w) (timeouts w) (nextTimeout w) (spawned w)
    (redis w) (db w) (wire w) (broadcasts w) (logs w).
Definition with_userConnections x (w : World) : World :=
  Build_World (sockets w) (roomSockets w) (questionsCache w) (timers w) x
    (connectionCleanup w) (rateLimitMap w) (timeouts w) (nextTimeout w) (spawned w)
    (redis w) (db w) (wire w) (broadcasts w) (logs w).
Definition with_connectionCleanup x (w : World) : World :=
  Build_World (sockets w) (roomSockets w) (questionsCache w) (timers w) (userConnections w)
    x (rateLimitMap w) (timeouts w) (nextTimeout w) (spawned w)
    (redis w) (db w) (wire w) (broadcasts w) (logs w).
Definition with_rateLimitMap x (w : World) : World :=
  Build_World (sockets w) (roomSockets w) (questionsCache w) (timers w) (userConnections w)
    (connectionCleanup w) x (timeouts w) (nextTimeout w) (spawned w)
    (redis w) (db w) (wire w) (broadcasts w) (logs w).
Definition with_timeouts x (w : World) : World :=
  Build_World (sockets w) (roomSockets w) (questionsCache w) (timers w) (userConnections w)
    (connectionCleanup w) (rateLimitMap w) x (nextTimeout w) (spawned w)
    (redis w) (db w) (wire w) (broadcasts w) (logs w).
Definition with_nextTimeout x (w : World) : World :=
  Build_World (sockets w) (roomSockets w) (questionsCache w) (timers w) (userConnections w)
    (connectionCleanup w) (rateLimitMap w) (timeouts w) x (spawned w)
    (redis w) (db w) (wire w) (broadcasts w) (logs w).
Definition with_spawned x (w : World) : World :=
  Build_World (sockets w) (roomSockets w) (questionsCache w) (timers w) (userConnections w)
    (connectionCleanup w) (rateLimitMap w) (timeouts w) (nextTimeout w) x
    (redis w) (db w) (wire w) (broadcasts w) (logs w).
Definition with_redis x (w : World) : World :=
  Build_World (sockets w) (roomSockets w) (questionsCache w) (timers w) (userConnections w)
    (connectionCleanup w) (rateLimitMap w) (timeouts w) (nextTimeout w) (spawned w)
    x (db w) (wire w) (broadcasts w) (logs w).
Definition with_db x (w : World) : World :=
  Build_World (sockets w) (roomSockets w) (questionsCache w) (timers w) (userConnections w)
    (connectionCleanup w) (rateLimitMap w) (timeouts w) (nextTimeout w) (spawned w)
    (redis w) x (wire w) (broadcasts w) (logs w).
Definition with_wire x (w : World) : World :=
  Build_World (sockets w) (roomSockets w) (questionsCache w) (timers w) (userConnections w)
    (connectionCleanup w) (rateLimitMap w) (timeouts w) (nextTimeout w) (spawned w)
    (redis w) (db w) x (broadcasts w) (logs w).
Definition with_broadcasts x (w : World) : World :=
  Build_World (sockets w) (roomSockets w) (questionsCache w) (timers w) (userConnections w)
    (connectionCleanup w) (rateLimitMap w) (timeouts w) (nextTimeout w) (spawned w)
    (redis w) (db w) (wire w) x (logs w).
Definition with_logs x (w : World) : World :=
  Build_World (sockets w) (roomSockets w) (questionsCache w) (timers w) (userConnections w)
    (connectionCleanup w) (rateLimitMap w) (timeouts w) (nextTimeout w) (spawned w)
    (redis w) (db w) (wire w) (broadcasts w) x.

Definition with_users x (d : Database) : Database :=
  Build_Database x (rooms d) (roomParticipants d) (questions d) (answerClaims d) (playerRatings d).
Definition with_roomParticipants x (d : Database) : Database :=
  Build_Database (users d) (rooms d) x (questions d) (answerClaims d) (playerRatings d).
Definition with_answerClaims x (d : Database) : Database :=
  Build_Database (users d) (rooms d) (roomParticipants d) (questions d) x (playerRatings d).
Definition with_playerRatings x (d : Database) : Database :=
  Build_Database (users d) (rooms d) (roomParticipants d) (questions d) (answerClaims d) x.

(** ** Handlers as state transformers that may throw a [WebSocketError] *)

Definition M (A : Type) : Type := World -> Outcome A * World.

Definition ret {A} (a : A) : M A := λ w, (Ok a, w).
Definition throw {A} (code : Z) (message : string) : M A := λ w, (Throw code message, w).
Definition bind {A B} (m : M A) (k : A -> M B) : M B :=
  λ w, match m w with
       | (Ok a, w') => k a w'
       | (Throw code message, w') => (Throw code message, w')
       end.
Definition modify (f : World -> World) : M unit := λ w, (Ok tt, f w).
Definition read {A} (f : World -> A) : M A := λ w, (Ok (f w), w).

Notation "'let*' x ':=' m 'in' k" := (bind m (λ x, k))
  (at level 10, x name, m at level 100, k at level 200).
Notation "m ';;' k" := (bind m (λ _, k))
  (at level 100, k at level 200, right associativity).

Definition console_error (message : string) (w : World) : World :=
  with_logs (message :: logs w) w.

(** ** Sending *)

Definition is_open (c : string) (w : World) : bool :=
  match sockets w !! c with
  | Some ws => bool_decide (readyState ws = OPEN)
  | None => false
  end.

(** [sendResponse]: the frame is written only when the socket is open. *)
Definition sendResponse (c : string) (f : Frame) (w : World) : World :=
  if is_open c w then with_wire (WSend c f :: wire w) w else w.

Definition sendError (c : string) (code : Z) (message : string) (w : World) : World :=
  sendResponse c (FError code message) w.

Definition set_readyState (s : ReadyState) (ws : WebSocketWithUser) : WebSocketWithUser :=
  {| userId := userId ws; currentRoom := currentRoom ws; readyState := s |}.
Definition set_currentRoom (r : option string) (ws : WebSocketWithUser) : WebSocketWithUser :=
  {| userId := userId ws; currentRoom := r; readyState := readyState ws |}.

(** [ws.close(code, reason)]: the closing handshake starts. *)
Definition ws_close (c : string) (code : option Z) (reason : string) (w : World) : World :=
  with_wire (WClose c code reason :: wire w)
    (with_sockets (alter (set_readyState CLOSING) c (sockets w)) w).

(** ** Timeouts *)

Definition setTimeout (now : Z) (cb : Callback) (delay : Z) (w : World) : nat * World :=
  let h := nextTimeout w in
  (h, with_nextTimeout (S h)
        (with_timeouts (<[h := {| due := now + delay; callback := cb |}]> (timeouts w)) w)).

Definition clearTimeout (h : nat) (w : World) : World :=
  with_timeouts (delete h (timeouts w)) w.

(** ** Rate limiting ([checkRateLimit]) *)

Definition checkRateLimit (now : Z) (userId : Z) (m : gmap Z RateLimit)
    : bool * gmap Z RateLimit :=
  match m !! userId with
  | Some userLimit =>
      if decide (now > resetTime userLimit) then
        (true, <[userId := {| count := 1; resetTime := now + CONFIG.RATE_LIMIT_WINDOW |}]> m)
      else if decide (count userLimit >= CONFIG.RATE_LIMIT_MAX) then
        (false, m)
      else
        (true, <[userId := {| count := count userLimit + 1;
                              resetTime := resetTime userLimit |}]> m)
  | None =>
      (true, <[userId := {| count := 1; resetTime := now + CONFIG.RATE_LIMIT_WINDOW |}]> m)
  end.

(** ** Connection registry *)

(** JavaScript truthiness of a string that may be [undefined]. *)
Definition truthy_str (s : option string) : option string :=
  match s with
  | Some "" => None
  | _ => s
  end.

(** The synchronous prefix of [handleLeaveRoom(ws, payload?)]: the room
    that will be left, if the call does anything at all. *)
Definition leave_target (c : string) (payload : option string) (w : World) : option string :=
  match sockets w !! c with
  | Some ws =>
      let roomId :=
        match truthy_str payload with
        | Some r => Some r
        | None => truthy_str (currentRoom ws)
        end in
      match roomId, truthy_id (userId ws) with
      | Some r, Some _ => Some r
      | _, _ => None
      end
  | None => None
  end.

(** [cleanupConnection(ws)].  The call [handleLeaveRoom(ws)] is started and
    not awaited: its room is fixed now, its effects come with a later
    turn of the event loop ([spawned]). *)
Definition cleanupConnection (c : string) (w : World) : World :=
  let w1 :=
    match connectionCleanup w !! c with
    | Some h => with_connectionCleanup (delete c (connectionCleanup w)) (clearTimeout h w)
    | None => w
    end in
  match sockets w1 !! c with
  | None => w1
  | Some ws =>
      let w2 :=
        match truthy_str (currentRoom ws) with
        | Some _ =>
            match leave_target c None w1 with
            | Some r => with_spawned (spawned w1 ++ [(c, r)]) w1
            | None => w1
            end
        | None => w1
        end in
      let w3 :=
        match truthy_id (userId ws) with
        | Some u =>
            match userConnections w2 !! u with
            | Some userConns =>
                let userConns' := userConns ∖ {[c]} in
                if decide (size userConns' = 0%nat)
                then with_userConnections (delete u (userConnections w2)) w2
                else with_userConnections (<[u := userConns']> (userConnections w2)) w2
            | None => w2
            end
        | None => w2
        end in
      if bool_decide (readyState ws = OPEN) then ws_close c None "" w3 else w3
  end.

(** The result of the handshake's authentication ([verifySessionToken]). *)
Inductive Handshake :=
| NoToken
| BadToken
| Session (sub : Z).

(** [wss.on('connection')] for a socket that received [connectionId = c]. *)
Definition on_connection (env : Env) (c : string) (h : Handshake) (w : World) : World :=
  let w0 := with_sockets
              (<[c := {| userId := None; currentRoom := None; readyState := OPEN |}]> (sockets w)) w in
  match h with
  | NoToken =>
      ws_close c (Some 1008) "Missing token" (sendError c 401 "Missing authentication token" w0)
  | BadToken =>
      ws_close c (Some 1008) "Invalid token" (sendError c 401 "Invalid or expired token" w0)
  | Session uid =>
      let userConns := default ∅ (userConnections w0 !! uid) in
      if decide (Z.of_nat (size userConns) >= CONFIG.MAX_CONNECTIONS_PER_USER) then
        ws_close c (Some 1008) "Connection limit exceeded"
          (sendError c 429 "Too many connections for this user" w0)
      else
        let w1 := with_sockets
                    (<[c := {| userId := Some uid; currentRoom := None; readyState := OPEN |}]>
                       (sockets w0)) w0 in
        let w2 := with_userConnections (<[uid := {[c]} ∪ userConns]> (userConnections w1)) w1 in
        let '(cleanupTimeout, w3) :=
          setTimeout (now env) (CbConnectionCleanup c) (CONFIG.REDIS_TTL * 1000) w2 in
        let w4 := with_connectionCleanup (<[c := cleanupTimeout]> (connectionCleanup w3)) w3 in
        sendResponse c (FConnected c uid) w4
  end.

(** ** Fan-out ([broadcastToRoom]) *)

Definition broadcastToRoom (roomId : string) (f : Frame) (w : World) : World :=
  let w0 := with_broadcasts ((roomId, f) :: broadcasts w) w in
  match roomSockets w0 !! roomId with
  | None => w0
  | Some socks =>
      if decide (size socks = 0%nat) then w0
      else
        let members := elements socks in
        let alive := filter (λ c, is_open c w0 = true) members in
        let deadSockets := filter (λ c, is_open c w0 ≠ true) members in
        let w1 := with_wire (rev ((λ c, WSend c f) <$> alive) ++ wire w0) w0 in
        foldl (λ w c,
                 cleanupConnection c
                   (with_roomSockets (alter (λ s, s ∖ {[c]}) roomId (roomSockets w)) w))
              w1 deadSockets
  end.

(** ** Store operations *)

(** Stable insertion sort: what an ORDER BY returns, rows that compare
    equal staying in table order. *)
Fixpoint insert_by {A} (le : A -> A -> bool) (x : A) (l : list A) : list A :=
  match l with
  | [] => [x]
  | y :: l' => if le x y then x :: l else y :: insert_by le x l'
  end.

Definition sort_by {A} (le : A -> A -> bool) (l : list A) : list A :=
  foldr (insert_by le) [] l.

Definition is_participant_row (roomId : string) (userId : Z) (p : RoomParticipant) : bool :=
  bool_decide (rp_roomId p = roomId ∧ rp_userId p = userId).

(** [roomParticipant.findMany({ where: { roomId } })] *)
Definition room_participants (roomId : string) (d : Database) : list RoomParticipant :=
  filter (λ p, rp_roomId p = roomId) (roomParticipants d).

(** [roomParticipant.findFirst({ where: { userId } })] *)
Definition participant_findFirst (userId : Z) (d : Database) : option RoomParticipant :=
  head (filter (λ p, rp_userId p = userId) (roomParticipants d)).

(** [roomParticipant.upsert] on the unique key [(roomId, userId)] with
    [update: {}]. *)
Definition participant_upsert (roomId : string) (userId : Z) (d : Database) : Database :=
  if existsb (is_participant_row roomId userId) (roomParticipants d) then d
  else with_roomParticipants
         (roomParticipants d ++ [{| rp_roomId := roomId; rp_userId := userId; score := 0 |}]) d.

(** [roomParticipant.deleteMany({ where: { roomId, userId } })] *)
Definition participant_deleteMany (roomId : string) (userId : Z) (d : Database) : Database :=
  with_roomParticipants
    (filter (λ p, is_participant_row roomId userId p = false) (roomParticipants d)) d.

(** [roomParticipant.update] with [score: { increment: 1 }] on the unique
    key; [None] when the record to update does not exist. *)
Fixpoint increment_score (roomId : string) (userId : Z) (rows : list RoomParticipant)
    : option (list RoomParticipant) :=
  match rows with
  | [] => None
  | p :: rows' =>
      if is_participant_row roomId userId p
      then Some ({| rp_roomId := rp_roomId p; rp_userId := rp_userId p; score := score p + 1 |}
                 :: rows')
      else cons p <$> increment_score roomId userId rows'
  end.

Definition is_claim_row (roomId : string) (questionIndex : Z) (a : AnswerClaim) : bool :=
  bool_decide (ac_roomId a = roomId ∧ ac_questionIndex a = questionIndex).

(** [answerClaim.create]; [None] on a violation of the unique index on
    [(roomId, questionIndex)]. *)
Definition answerClaim_create (a : AnswerClaim) (d : Database) : option Database :=
  if existsb (is_claim_row (ac_roomId a) (ac_questionIndex a)) (answerClaims d) then None
  else Some (with_answerClaims (answerClaims d ++ [a]) d).

(** [question.findMany({ take, skip, orderBy: { id } })] *)
Definition question_findMany (take_ skip : Z) (desc : bool) (d : Database) : list QuizQuestion :=
  let le a b := if desc then bool_decide (q_id b ≤ q_id a) else bool_decide (q_id a ≤ q_id b) in
  take (Z.to_nat take_) (drop (Z.to_nat skip) (sort_by le (questions d))).

(** [x.name || 'Anonymous'] *)
Definition display_name (u : option User) : string :=
  match u with
  | Some {| user_name := name |} => default "Anonymous" (truthy_str name)
  | None => "Anonymous"
  end.

(** ** Keys of the [timers] map *)

Definition timerKey_start (roomId : string) : string := roomId +:+ ":start".
Definition timerKey_question (roomId : string) (i : Z) : string :=
  roomId +:+ ":" +:+ pretty i.
Definition timerKey_next (roomId : string) (i : Z) : string :=
  roomId +:+ ":next-" +:+ pretty i.

(** ** Room cleanup ([cleanupRoomData]) *)

Definition keysToDelete (roomId : string) : list RKey :=
  [KCurrentQuestion roomId; KParticipants roomId; KStartTime roomId]
  ++ flat_map (λ i, [KFirstUser roomId i; KExpired roomId i])
       (seqZ 0 CONFIG.QUESTIONS_PER_QUIZ).

Definition cleanupRoomData (roomId : string) (w : World) : World :=
  let w1 := with_questionsCache (delete roomId (questionsCache w)) w in
  let timerKeys :=
    filter (λ key, String.prefix (roomId +:+ ":") key = true)
           (fst <$> map_to_list (timers w1)) in
  let w2 :=
    foldl (λ w key,
             match timers w !! key with
             | Some roomTimer => with_timers (delete key (timers w)) (clearTimeout (timer roomTimer) w)
             | None => w
             end) w1 timerKeys in
  with_redis (redis_del (keysToDelete roomId) (redis w2)) w2.

(** ** Leaving ([handleLeaveRoom]) *)

Definition ws_userId (c : string) (w : World) : Z :=
  default 0 (sockets w !! c ≫= userId).

(** The part of [handleLeaveRoom] after its synchronous prefix. *)
Definition leaveRoom_body (env : Env) (c : string) (roomId : string) (w : World) : World :=
  if db_fails env LeaveTx then console_error "Error leaving room" w
  else
    let uid := ws_userId c w in
    let w1 := with_db (participant_deleteMany roomId uid (db w)) w in
    let w2 := with_redis (redis_srem (now env) (KParticipants roomId) (pretty uid) (redis w1)) w1 in
    let w3 :=
      match roomSockets w2 !! roomId with
      | Some roomWs =>
          let roomWs' := roomWs ∖ {[c]} in
          if decide (size roomWs' = 0%nat)
          then cleanupRoomData roomId (with_roomSockets (delete roomId (roomSockets w2)) w2)
          else with_roomSockets (<[roomId := roomWs']> (roomSockets w2)) w2
      | None => w2
      end in
    let w4 := with_sockets (alter (set_currentRoom None) c (sockets w3)) w3 in
    broadcastToRoom roomId (FParticipantLeft uid) w4.

Definition handleLeaveRoom (env : Env) (c : string) (payload : option string) (w : World) : World :=
  match leave_target c payload w with
  | Some roomId => leaveRoom_body env c roomId w
  | None => w
  end.

(** ** Joining ([handleJoinRoom]) *)

(** The body of the transaction of [handleJoinRoom]. *)
Definition join_transaction (c : string) (roomId : string) : M unit := λ w,
  let uid := ws_userId c w in
  match rooms (db w) !! roomId with
  | Some {| isActive := true; maxPlayers := maxPlayers_ |} =>
      if decide (Z.of_nat (length (room_participants roomId (db w))) >= maxPlayers_) then
        (Throw 400 "Room is full", w)
      else
        match participant_findFirst uid (db w) with
        | Some existing =>
            if decide (rp_roomId existing ≠ roomId) then
              (Throw 400 ("Already in Room: "
                          +:+ default "" (room_name <$> rooms (db w) !! rp_roomId existing)
                          +:+ " (ID: " +:+ rp_roomId existing +:+ ")"), w)
            else (Ok tt, with_db (participant_upsert roomId uid (db w)) w)
        | None => (Ok tt, with_db (participant_upsert roomId uid (db w)) w)
        end
  | _ => (Throw 404 "Room not found or inactive", w)
  end.

Definition handleJoinRoom (env : Env) (c : string) (roomId : string) : M unit :=
  if decide (roomId = "" ∨ (50 < String.length roomId)%nat) then
    throw 400 "Invalid room ID"
  else if db_fails env JoinTx then
    modify (console_error "Error joining room") ;; throw 500 "Failed to join room"
  else
    join_transaction c roomId ;;
    let* uid := read (ws_userId c) in
    let key := KParticipants roomId in
    modify (λ w, with_redis (redis_sadd (now env) key (pretty uid) (redis w)) w) ;;
    modify (λ w, with_redis (redis_expire (now env) key CONFIG.REDIS_TTL (redis w)) w) ;;
    modify (λ w, with_roomSockets
                   (<[roomId := {[c]} ∪ default ∅ (roomSockets w !! roomId)]> (roomSockets w)) w) ;;
    modify (λ w, with_sockets (alter (set_currentRoom (Some roomId)) c (sockets w)) w) ;;
    if db_fails env JoinUserLookup then
      modify (console_error "Error joining room") ;; throw 500 "Failed to join room"
    else
      let* user := read (λ w, users (db w) !! uid) in
      modify (broadcastToRoom roomId (FParticipantJoined uid (display_name user))) ;;
      modify (sendResponse c (FJoinedRoom roomId)).

(** ** Starting a quiz ([handleStartQuiz]) *)

Definition handleStartQuiz (env : Env) (c : string) (roomId : string) : M unit :=
  if decide (roomId = "") then
    throw 400 "Invalid room ID"
  else if db_fails env StartRoomLookup then
    modify (console_error "Error starting quiz") ;; throw 500 "Failed to start quiz"
  else
    let* room := read (λ w, rooms (db w) !! roomId) in
    let* uid := read (ws_userId c) in
    if bool_decide (hostId <$> room = Some uid) then
      let* currentQuestion := read (λ w, redis_get (now env) (KCurrentQuestion roomId) (redis w)) in
      match currentQuestion with
      | Some _ => throw 409 "Quiz already in progress"
      | None =>
          if db_fails env StartQuestionCount then
            modify (console_error "Error starting quiz") ;; throw 500 "Failed to start quiz"
          else
            let* questionCount := read (λ w, Z.of_nat (length (questions (db w)))) in
            if decide (questionCount < CONFIG.QUESTIONS_PER_QUIZ) then
              throw 500 "Not enough questions available"
            else
              let skip := Z.max 0 (random_skip env (questionCount - CONFIG.QUESTIONS_PER_QUIZ)) in
              if db_fails env StartQuestionFind then
                modify (console_error "Error starting quiz") ;; throw 500 "Failed to start quiz"
              else
                let* qs := read (λ w, question_findMany CONFIG.QUESTIONS_PER_QUIZ skip
                                        (random_desc env) (db w)) in
                modify (λ w, with_questionsCache (<[roomId := (qs, now env)]> (questionsCache w)) w) ;;
                modify (λ w, with_redis
                               (redis_expire (now env) (KStartTime roomId) CONFIG.REDIS_TTL
                                  (redis_set (KStartTime roomId) (pretty (now env))
                                     (redis_expire (now env) (KCurrentQuestion roomId) CONFIG.REDIS_TTL
                                        (redis_set (KCurrentQuestion roomId) "-1" (redis w))))) w) ;;
                modify (broadcastToRoom roomId
                          (FQuizStarting roomId CONFIG.QUIZ_START_DELAY CONFIG.QUESTIONS_PER_QUIZ)) ;;
                let* startTimer := (λ w, let '(h, w') := setTimeout (now env) (CbFirstQuestion roomId)
                                                           CONFIG.QUIZ_START_DELAY w in (Ok h, w')) in
                modify (λ w, with_timers
                               (<[timerKey_start roomId :=
                                    {| timer := startTimer; rt_questionIndex := -1;
                                       rt_roomId := roomId |}]> (timers w)) w)
      end
    else
      throw 403 "Only room host can start quiz".

(** ** The question cycle *)

(** [questions[questionIndex]] *)
Definition nth_question (qs : list QuizQuestion) (i : Z) : option QuizQuestion :=
  if decide (0 ≤ i) then qs !! Z.to_nat i else None.

Definition cached_question (roomId : string) (i : Z) (w : World) : option QuizQuestion :=
  questionsCache w !! roomId ≫= λ questionData, nth_question questionData.1 i.

Definition set_timer (key : string) (h : nat) (questionIndex : Z) (roomId : string)
    (w : World) : World :=
  with_timers (<[key := {| timer := h; rt_questionIndex := questionIndex;
                           rt_roomId := roomId |}]> (timers w)) w.

(** [handleNextQuestion] *)
Definition handleNextQuestion (env : Env) (roomId : string) (questionIndex : Z)
    (w : World) : World :=
  match cached_question roomId questionIndex w with
  | None => console_error "Question not found for room" w
  | Some question =>
      let w1 := with_redis (redis_set_ex (now env) (KCurrentQuestion roomId)
                              (pretty questionIndex) CONFIG.REDIS_TTL (redis w)) w in
      let startedAt := now env in
      let expiresAt := startedAt + CONFIG.QUESTION_TIME_LIMIT in
      let w2 := broadcastToRoom roomId
                  (FNextQuestion questionIndex question startedAt expiresAt) w1 in
      let '(h, w3) := setTimeout (now env) (CbQuestionExpiry roomId questionIndex)
                        CONFIG.QUESTION_TIME_LIMIT w2 in
      set_timer (timerKey_question roomId questionIndex) h questionIndex roomId w3
  end.

(** [handleQuestionExpiry] *)
Definition handleQuestionExpiry (env : Env) (roomId : string) (questionIndex : Z)
    (w : World) : World :=
  match cached_question roomId questionIndex w with
  | None => w
  | Some question =>
      if redis_exists (now env) (KFirstUser roomId questionIndex) (redis w) then w
      else
        let w1 := with_redis (redis_set_ex (now env) (KExpired roomId questionIndex) "1"
                                CONFIG.REDIS_TTL (redis w)) w in
        let w2 := broadcastToRoom roomId
                    (FEndQuestion questionIndex (correctIdx question) None) w1 in
        let '(h, w3) := setTimeout (now env) (CbAdvance roomId questionIndex)
                          CONFIG.NEXT_QUESTION_DELAY w2 in
        set_timer (timerKey_next roomId questionIndex) h (questionIndex + 1) roomId w3
  end.

(** ** Final standings ([handleQuizFinished]) *)

(** [currentRating?.rating || 1200] *)
Definition rating_or_default (currentRating : option Z) : Z :=
  match currentRating with
  | None | Some 0 => 1200
  | Some r => r
  end.

(** The rating transaction of one participant: find, add, upsert. *)
Definition rating_transaction (p : RoomParticipant) (d : Database) : Z * Database :=
  let currentRating := playerRatings d !! rp_userId p in
  let newRating := rating_or_default currentRating + score p * 10 in
  (newRating, with_playerRatings (<[rp_userId p := newRating]> (playerRatings d)) d).

(** The callback mapped over the participants; [None] is a rejected
    promise ([p.user] is [null] only if the foreign key is broken). *)
Definition standing_for (env : Env) (p : RoomParticipant) (user : option User)
    (w : World) : option Standing * World :=
  let mk newRating :=
    (λ u, {| st_userId := rp_userId p; st_userName := display_name (Some u);
             st_score := score p; st_newRating := newRating |}) <$> user in
  if db_fails env (RatingTx (rp_userId p)) then
    (mk (1200 + score p * 10), console_error "Error updating rating for user" w)
  else
    let '(newRating, d') := rating_transaction p (db w) in
    match user with
    | Some _ => (mk newRating, with_db d' w)
    | None => (None, console_error "Error updating rating for user" (with_db d' w))
    end.

Fixpoint compute_standings (env : Env) (ps : list (RoomParticipant * option User))
    (w : World) : option (list Standing) * World :=
  match ps with
  | [] => (Some [], w)
  | (p, user) :: ps' =>
      let '(s, w1) := standing_for env p user w in
      let '(rest, w2) := compute_standings env ps' w1 in
      (match s, rest with
       | Some s, Some rest => Some (s :: rest)
       | _, _ => None
       end, w2)
  end.

(** [roomParticipant.findMany({ where: { roomId }, include: { user: true },
    orderBy: { score: 'desc' } })] *)
Definition standings_query (roomId : string) (d : Database)
    : list (RoomParticipant * option User) :=
  (λ p, (p, users d !! rp_userId p))
    <$> sort_by (λ a b, bool_decide (score b ≤ score a)) (room_participants roomId d).

Definition handleQuizFinished (env : Env) (roomId : string) (w : World) : World :=
  if db_fails env StandingsFind then
    cleanupRoomData roomId (console_error "Error finishing quiz" w)
  else
    let participants := standings_query roomId (db w) in
    let '(standings, w1) := compute_standings env participants w in
    match standings with
    | Some standings =>
        cleanupRoomData roomId (broadcastToRoom roomId (FQuizFinished standings) w1)
    | None => cleanupRoomData roomId (console_error "Error finishing quiz" w1)
    end.

(** ** Answers ([handleSubmitAnswer]) *)

Record SubmitPayload := {
  sp_roomId : string;
  sp_questionIndex : Z;
  sp_choiceIdx : Z
}.

(** The [return] statements of the handler, in source order. *)
Inductive ReturnPoint :=
| RetDuplicate      (* hasAnswered: duplicate submission *)
| RetRace           (* SET NX on the answered key lost *)
| RetIncorrect      (* wrong choice *)
| RetLostClaim      (* SET NX on the winner key lost *)
| RetCompleted.     (* end of the handler: the claim was recorded *)

(** A run of the handler between two [await]s.  Each state holds the
    reply of the operation that was issued last; Redis serves one
    connection in order, so an operation takes effect when it is issued. *)
Inductive SubmitTask :=
| AwaitSismember (isParticipant : bool)
| AwaitPipeline (currentQuestion hasAnswered : option string) (hasWinner isExpired : bool)
| AwaitSetAnswered (setResult : bool)
| AwaitClaim (question : QuizQuestion) (claimResult : bool)
| AwaitTransaction (question : QuizQuestion) (committed : bool)
| Returned (at_ : ReturnPoint)
| Thrown (code : Z) (message : string).

(** The transaction of a winning claim: insert the [AnswerClaim], add one
    to the participant's score; [None] is a rollback. *)
Definition claim_transaction (env : Env) (roomId : string) (questionIndex userId : Z)
    (d : Database) : option Database :=
  if db_fails env ClaimTx then None
  else
    let claim := {| ac_roomId := roomId; ac_questionIndex := questionIndex;
                    ac_userId := userId;
                    txHash := "claim_" +:+ roomId +:+ "_" +:+ pretty questionIndex
                              +:+ "_" +:+ pretty userId +:+ "_" +:+ pretty (now env) |} in
    d1 ← answerClaim_create claim d;
    rows ← increment_score roomId userId (roomParticipants d1);
    Some (with_roomParticipants rows d1).

(** From the arrival of the message to the first [await]. *)
Definition submit_begin (env : Env) (c : string) (p : SubmitPayload) (w : World)
    : SubmitTask * World :=
  let roomId := sp_roomId p in
  let questionIndex := sp_questionIndex p in
  let choiceIdx := sp_choiceIdx p in
  if decide (roomId = "") then (Thrown 400 "Invalid room ID", w)
  else if decide (questionIndex < 0 ∨ questionIndex >= CONFIG.QUESTIONS_PER_QUIZ) then
    (Thrown 400 "Invalid question index", w)
  else if decide (choiceIdx < 0 ∨ choiceIdx > 3) then
    (Thrown 400 "Invalid choice index", w)
  else if decide (sockets w !! c ≫= currentRoom ≠ Some roomId) then
    (Thrown 403 "Not in this room", w)
  else
    (AwaitSismember (redis_sismember (now env) (KParticipants roomId)
                       (pretty (ws_userId c w)) (redis w)), w).

(** From the reply held in the task to the next [await] or to the end. *)
Definition submit_resume (env : Env) (c : string) (p : SubmitPayload) (t : SubmitTask)
    (w : World) : SubmitTask * World :=
  let roomId := sp_roomId p in
  let questionIndex := sp_questionIndex p in
  let choiceIdx := sp_choiceIdx p in
  let uid := ws_userId c w in
  match t with
  | AwaitSismember isParticipant =>
      if isParticipant then
        (AwaitPipeline
           (redis_get (now env) (KCurrentQuestion roomId) (redis w))
           (redis_get (now env) (KAnswered roomId questionIndex uid) (redis w))
           (redis_exists (now env) (KFirstUser roomId questionIndex) (redis w))
           (redis_exists (now env) (KExpired roomId questionIndex) (redis w)), w)
      else (Thrown 403 "Not a participant in this room", w)
  | AwaitPipeline currentQuestion hasAnswered hasWinner isExpired =>
      if decide (currentQuestion ≠ Some (pretty questionIndex)) then
        (Thrown 409 "Question no longer active", w)
      else if isExpired then
        (Thrown 410 "Question has expired", w)
      else
        match truthy_str hasAnswered with
        | Some _ => (Returned RetDuplicate, w)
        | None =>
            let '(setResult, r) :=
              redis_set_nx (now env) (KAnswered roomId questionIndex uid) "1"
                CONFIG.REDIS_TTL (redis w) in
            (AwaitSetAnswered setResult, with_redis r w)
        end
  | AwaitSetAnswered setResult =>
      if setResult then
        match cached_question roomId questionIndex w with
        | None => (Thrown 500 "Question not found", w)
        | Some currentQuestionObj =>
            if decide (correctIdx currentQuestionObj ≠ choiceIdx) then
              (Returned RetIncorrect, w)
            else
              let '(claimResult, r) :=
                redis_set_nx (now env) (KFirstUser roomId questionIndex) (pretty uid)
                  CONFIG.REDIS_TTL (redis w) in
              (AwaitClaim currentQuestionObj claimResult, with_redis r w)
        end
      else (Returned RetRace, w)
  | AwaitClaim currentQuestionObj claimResult =>
      if claimResult then
        match claim_transaction env roomId questionIndex uid (db w) with
        | Some d => (AwaitTransaction currentQuestionObj true, with_db d w)
        | None => (AwaitTransaction currentQuestionObj false, w)
        end
      else (Returned RetLostClaim, w)
  | AwaitTransaction currentQuestionObj committed =>
      let w1 := if committed then w
                else console_error "Database error recording answer" w in
      let timerKey := timerKey_question roomId questionIndex in
      let w2 := match timers w1 !! timerKey with
                | Some roomTimer =>
                    with_timers (delete timerKey (timers w1)) (clearTimeout (timer roomTimer) w1)
                | None => w1
                end in
      let w3 := broadcastToRoom roomId
                  (FEndQuestion questionIndex (correctIdx currentQuestionObj) (Some uid)) w2 in
      let '(nextTimer, w4) := setTimeout (now env) (CbAdvance roomId questionIndex)
                                CONFIG.NEXT_QUESTION_DELAY w3 in
      (Returned RetCompleted,
       set_timer (timerKey_next roomId questionIndex) nextTimer (questionIndex + 1) roomId w4)
  | Returned _ | Thrown _ _ => (t, w)
  end.

Fixpoint submit_run (n : nat) (env : Env) (c : string) (p : SubmitPayload)
    (tw : SubmitTask * World) : SubmitTask * World :=
  match n with
  | O => tw
  | S n' => submit_run n' env c p (submit_resume env c p tw.1 tw.2)
  end.

(** The handler run without interruption: the five [await]s in a row. *)
Definition handleSubmitAnswer (env : Env) (c : string) (p : SubmitPayload) : M unit := λ w,
  match submit_run 5 env c p (submit_begin env c p w) with
  | (Thrown code message, w') => (Throw code message, w')
  | (_, w') => (Ok tt, w')
  end.

(** ** Periodic sweep ([cleanupStaleData]) *)

Definition cleanupStaleData (env : Env) (w : World) : World :=
  let staleThreshold := 30 * 60 * 1000 in
  let w1 := with_questionsCache
              (filter (λ kv, ¬ (now env - kv.2.2 > staleThreshold)) (questionsCache w)) w in
  let w2 := with_rateLimitMap
              (filter (λ kv, ¬ (now env > resetTime kv.2 + 60000)) (rateLimitMap w1)) w1 in
  with_userConnections
    (filter (λ kv, size kv.2 ≠ 0%nat) (userConnections w2)) w2.

(** ** Dispatch *)

Definition handleMessage (env : Env) (c : string) (message : WebSocketMessage) : M unit := λ w,
  match truthy_id (sockets w !! c ≫= userId) with
  | None => (Throw 401 "User not authenticated", w)
  | Some _ =>
      match message with
      | MJoin roomId => handleJoinRoom env c roomId w
      | MStartQuiz roomId => handleStartQuiz env c roomId w
      | MSubmitAnswer roomId questionIndex choiceIdx =>
          handleSubmitAnswer env c
            {| sp_roomId := roomId; sp_questionIndex := questionIndex;
               sp_choiceIdx := choiceIdx |} w
      | MLeaveRoom roomId => (Ok tt, handleLeaveRoom env c (Some roomId) w)
      end
  end.

(** The closures of the timers. *)
Definition run_callback (env : Env) (cb : Callback) (w : World) : World :=
  match cb with
  | CbConnectionCleanup c => cleanupConnection c w
  | CbFirstQuestion roomId => handleNextQuestion env roomId 0 w
  | CbQuestionExpiry roomId questionIndex => handleQuestionExpiry env roomId questionIndex w
  | CbAdvance roomId questionIndex =>
      if decide (questionIndex < CONFIG.QUESTIONS_PER_QUIZ - 1)
      then handleNextQuestion env roomId (questionIndex + 1) w
      else handleQuizFinished env roomId w
  end.

(** A pending timeout fires, not before it is due. *)
Definition fire_timeout (env : Env) (h : nat) (w : World) : World :=
  match timeouts w !! h with
  | Some t =>
      if decide (due t ≤ now env)
      then run_callback env (callback t) (with_timeouts (delete h (timeouts w)) w)
      else w
  | None => w
  end.

(** The ['close'] event: the socket is closed; the handler is registered
    on attached sockets only. *)
Definition on_close (c : string) (w : World) : World :=
  let w1 := with_sockets (alter (set_readyState CLOSED) c (sockets w)) w in
  match sockets w !! c ≫= userId with
  | Some _ => cleanupConnection c w1
  | None => w1
  end.

(** The ['error'] event of an attached socket. *)
Definition on_error (c : string) (w : World) : World :=
  match sockets w !! c ≫= userId with
  | Some _ => cleanupConnection c w
  | None => w
  end.

(** What the event loop delivers to the server. *)
Inductive Input :=
| InConnection (connectionId : string) (h : Handshake)
| InMessage (connectionId : string) (data : string)
| InClose (connectionId : string)
| InError (connectionId : string)
| InTimeout (handle : nat)
| InSpawnedLeave
| InSweep.

Section Server.

(** [JSON.parse] and the zod schema are libraries: their composition is
    a parameter of the message handler. *)
Variable parse : string -> Decoded.

(** [ws.on('message')] of an attached socket. *)
Definition on_message (env : Env) (c : string) (data : string) (w : World) : World :=
  match sockets w !! c ≫= userId with
  | None => w
  | Some uid =>
      let '(admitted, m) := checkRateLimit (now env) uid (rateLimitMap w) in
      let w1 := with_rateLimitMap m w in
      if admitted then
        if decide (1024 < String.length data)%nat then
          sendError c 413 "Message too large" w1
        else
          match parse data with
          | DSyntaxError => sendError c 400 "Invalid JSON format" w1
          | DSchemaError =>
              sendError c 500 "Internal server error"
                (console_error "Unexpected error handling message" w1)
          | DMessage message =>
              match handleMessage env c message w1 with
              | (Ok _, w2) => w2
              | (Throw code msg, w2) => sendError c code msg w2
              end
          end
      else sendError c 429 "Rate limit exceeded" w1
  end.

Definition dispatch (env : Env) (i : Input) (w : World) : World :=
  match i with
  | InConnection c h => on_connection env c h w
  | InMessage c data => on_message env c data w
  | InClose c => on_close c w
| InError c => on_error c w
  | InTimeout h => fire_timeout env h w
  | InSpawnedLeave =>
      match spawned w with
      | (c, roomId) :: rest => leaveRoom_body env c roomId (with_spawned rest w)
      | [] => w
      end
  | InSweep => cleanupStaleData env w
  end.

(** A run of the server: the inputs with the environment of each. *)
Definition run (w : World) (trace : list (Env * Input)) : World :=
  foldl (λ w ei, dispatch ei.1 ei.2 w) w trace.

End Server.

(** The server at start-up, over a given store. *)
Definition initial (d : Database) : World :=
  {| sockets := ∅; roomSockets := ∅; questionsCache := ∅; timers := ∅;
     userConnections := ∅; connectionCleanup := ∅; rateLimitMap := ∅;
     timeouts := ∅; nextTimeout := 0; spawned := []; redis := ∅; db := d;
     wire := []; broadcasts := []; logs := [] |}.

(** * Properties of the server *)

(** ** Definitions used by the statements *)

(** The replies of [checkRateLimit] to the frames that user [uid] sends
    at the times [ts]. *)
Fixpoint rate_run (uid : Z) (ts : list Z) (m : gmap Z RateLimit) : list bool :=
  match ts with
  | [] => []
  | t :: ts' =>
      let '(admitted, m') := checkRateLimit t uid m in
      admitted :: rate_run uid ts' m'
  end.

(** No user holds more than [MAX_CONNECTIONS_PER_USER] entries of the
    connection registry. *)
Definition conn_bound (w : World) : Prop :=
  ∀ u conns, userConnections w !! u = Some conns →
             Z.of_nat (size conns) ≤ CONFIG.MAX_CONNECTIONS_PER_USER.

(** The registry of [w'] is included in the one of [w], user by user. *)
Definition registry_le (m' m : gmap Z (gset string)) : Prop :=
  ∀ u conns', m' !! u = Some conns' → ∃ conns, m !! u = Some conns ∧ conns' ⊆ conns.

Definition is_rate_error (e : WireEvent) : bool :=
  match e with
  | WSend _ (FError 429 "Rate limit exceeded") => true
  | _ => false
  end.

(** ** A small installation for the examples *)

Definition example_question (i : Z) : QuizQuestion :=
  {| q_id := i; q_text := "q"; q_options := ["a"; "b"; "c"; "d"]; correctIdx := 2 |}.

Definition example_db : Database :=
  {| users := list_to_map [(1, {| user_name := Some "U1" |});
                           (2, {| user_name := Some "U2" |});
                           (3, {| user_name := None |})];
     rooms := {[ "R" := {| room_name := "Room"; hostId := 1; isActive := true;
                           maxPlayers := 4 |} ]};
     roomParticipants := [];
     questions := example_question <$> seqZ 1 12;
     answerClaims := [];
     playerRatings := ∅ |}.

(** An environment in which the store answers and the random numbers
    are zero. *)
Definition at_time (t : Z) : Env :=
  {| now := t; db_fails := λ _, false; random_skip := λ _, 0; random_desc := false |}.

Fixpoint text_of_length (n : nat) : string :=
  match n with
  | O => ""
  | S n' => String (Ascii.ascii_of_nat 97) (text_of_length n')
  end.

(** A decoder for the frames of the examples. *)
Definition example_parse (s : string) : Decoded :=
  match s with
  | "join" => DMessage (MJoin "R")
  | "start" => DMessage (MStartQuiz "R")
  | "wrong0" => DMessage (MSubmitAnswer "R" 0 0)
  | "right0" => DMessage (MSubmitAnswer "R" 0 2)
  | "leave" => DMessage (MLeaveRoom "R")
  | _ => DSyntaxError
  end.

(** Three connections of user 1. *)
Definition three_connections : list (Env * Input) :=
  [ (at_time 0, InConnection "c1" (Session 1));
    (at_time 1, InConnection "c2" (Session 1));
    (at_time 2, InConnection "c3" (Session 1)) ].

(** Twenty frames on one connection: one at time 0, nine at time 1000,
    ten at time 1001. *)
Definition burst : list (Env * Input) :=
  (at_time 0, InConnection "c1" (Session 1))
  :: (at_time 0, InMessage "c1" "leave")
  :: replicate 9 (at_time 1000, InMessage "c1" "leave")
  ++ replicate 10 (at_time 1001, InMessage "c1" "leave").

(** Two connections of user 1; ten frames on the first, then the first
    frame of the second. *)
Definition shared_counter : list (Env * Input) :=
  (at_time 0, InConnection "c1" (Session 1))
  :: (at_time 0, InConnection "c2" (Session 1))
  :: replicate 10 (at_time 10, InMessage "c1" "leave").

Definition is_frame (ei : Env * Input) : bool :=
  match ei.2 with
  | InMessage _ _ => true
  | _ => false
  end.

(** The frames written to socket [c], newest first. *)
Definition frames_to (c : string) (l : list WireEvent) : list Frame :=
  omap (λ e, match e with
             | WSend c' f => if decide (c' = c) then Some f else None
             | WClose _ _ _ => None
             end) l.

(** The standing of participant [p] computed over the store [d]. *)
Definition standing_of (d : Database) (p : RoomParticipant) : Standing :=
  {| st_userId := rp_userId p;
     st_userName := display_name (users d !! rp_userId p);
     st_score := score p;
     st_newRating := rating_or_default (playerRatings d !! rp_userId p) + score p * 10 |}.

Definition by_score_desc (a b : RoomParticipant) : bool :=
  bool_decide (score b ≤ score a).

(** The ratings after the transactions of the participants [ps]. *)
Definition ratings_after (d : Database) (ps : list RoomParticipant) (m : gmap Z Z) : gmap Z Z :=
  foldl (λ m p, <[rp_userId p := st_newRating (standing_of d p)]> m) m ps.

(** A store in which user 2 joined room R before user 1, both have
    score 1, and user 1 has a stored rating of 1000. *)
Definition tie_db : Database :=
  {| users := users example_db;
     rooms := rooms example_db;
     roomParticipants := [ {| rp_roomId := "R"; rp_userId := 2; score := 1 |};
                           {| rp_roomId := "R"; rp_userId := 1; score := 1 |} ];
     questions := questions example_db;
     answerClaims := [];
     playerRatings := {[ 1 := 1000; 2 := 1300 ]} |}.

(** User 1 connects and joins room R. *)
Definition joined_once : list (Env * Input) :=
  [ (at_time 0, InConnection "c1" (Session 1));
    (at_time 10, InMessage "c1" "join") ].

(** The checks that a submission passes before it writes anything: the
    payload is well formed, the socket is in the room, its user is in the
    Redis set of participants, the question is the current one and its
    expired flag is not set. *)
Definition active (env : Env) (c : string) (p : SubmitPayload) (w : World) : Prop :=
  sp_roomId p ≠ ""
  ∧ 0 ≤ sp_questionIndex p < CONFIG.QUESTIONS_PER_QUIZ
  ∧ 0 ≤ sp_choiceIdx p ≤ 3
  ∧ sockets w !! c ≫= currentRoom = Some (sp_roomId p)
  ∧ redis_sismember (now env) (KParticipants (sp_roomId p)) (pretty (ws_userId c w)) (redis w)
    = true
  ∧ redis_get (now env) (KCurrentQuestion (sp_roomId p)) (redis w)
    = Some (pretty (sp_questionIndex p))
  ∧ redis_exists (now env) (KExpired (sp_roomId p) (sp_questionIndex p)) (redis w) = false.

(** User [uid] is in the answered set of question [i] of the room at time [t]. *)
Definition answered (t : Z) (roomId : string) (i uid : Z) (w : World) : bool :=
  redis_exists t (KAnswered roomId i uid) (redis w).

(** Question [i] of the room has a first-correct winner at time [t]. *)
Definition has_winner (t : Z) (roomId : string) (i : Z) (w : World) : bool :=
  redis_exists t (KFirstUser roomId i) (redis w).

(** The score of the participant row of [(roomId, uid)], if there is one. *)
Definition score_of (roomId : string) (uid : Z) (w : World) : option Z :=
  score <$> head (filter (λ p, is_participant_row roomId uid p = true)
                         (roomParticipants (db w))).

Definition mk_submit (roomId : string) (i choice : Z) : SubmitPayload :=
  {| sp_roomId := roomId; sp_questionIndex := i; sp_choiceIdx := choice |}.

(** Users 1, 2, 3 connect and join room R, the host (user 1) starts the
    quiz, and the start timer (handle 3) fires at time 5020: question 0
    is asked with [startedAt = 5020] and [expiresAt = 15020]. *)
Definition quiz_started : list (Env * Input) :=
  [ (at_time 0, InConnection "c1" (Session 1));
    (at_time 1, InConnection "c2" (Session 2));
    (at_time 2, InConnection "c3" (Session 3));
    (at_time 10, InMessage "c1" "join");
    (at_time 11, InMessage "c2" "join");
    (at_time 12, InMessage "c3" "join");
    (at_time 20, InMessage "c1" "start");
    (at_time 5020, InTimeout 3%nat) ].

Definition asking_0 : World := run example_parse (initial example_db) quiz_started.

(** An environment in which the transaction of a winning claim fails. *)
Definition claim_fails_at (t : Z) : Env :=
  {| now := t;
     db_fails := λ call, match call with ClaimTx => true | _ => false end;
     random_skip := λ _, 0; random_desc := false |}.

Definition is_quizFinished (b : string * Frame) : bool :=
  match b.2 with
  | FQuizFinished _ => true
  | _ => false
  end.

(** The expiry instants announced in the [nextQuestion] broadcasts of
    question [i] of the room. *)
Definition announced_expiry (roomId : string) (i : Z) (w : World) : list Z :=
  omap (λ b, match b with
             | (r, FNextQuestion j _ _ expiresAt) =>
                 if decide (r = roomId ∧ j = i) then Some expiresAt else None
             | _ => None
             end) (broadcasts w).

(** ** Interleaved runs of the answer handler *)

(** A run of [handleSubmitAnswer] that is suspended at an [await] or has
    ended, with the socket and the payload it was started for. *)
Record Running := {
  rn_conn : string;
  rn_payload : SubmitPayload;
  rn_state : SubmitTask
}.

(** A turn of the event loop: a [submitAnswer] message arrives and its
    handler runs to its first [await]; a suspended handler (the [k]-th
    that arrived) resumes and runs to its next [await] or to its end; or
    the expiry handler of a question runs. *)
Inductive Turn :=
| Arrive (env : Env) (c : string) (p : SubmitPayload)
| Resume (env : Env) (k : nat)
| Expire (env : Env) (roomId : string) (i : Z).


Definition play (s : World * list Running) (t : Turn) : World * list Running :=
  let '(w, pool) := s in
  match t with
  | Arrive env c p =>
      let '(st, w') := submit_begin env c p w in
      (w', pool ++ [{| rn_conn := c; rn_payload := p; rn_state := st |}])
  | Resume env k =>
      match pool !! k with
      | Some rn =>
          let '(st, w') := submit_resume env (rn_conn rn) (rn_payload rn) (rn_state rn) w in
          (w', <[k := {| rn_conn := rn_conn rn; rn_payload := rn_payload rn;
                         rn_state := st |}]> pool)
      | None => (w, pool)
      end
  | Expire env roomId i => (handleQuestionExpiry env roomId i w, pool)
  end.

Definition play_all (s : World * list Running) (ts : list Turn) : World * list Running :=
  foldl play s ts.













(** Users 2 and 3 both send the right choice for question 0; their
    handlers take turns at every [await]. *)
Definition two_right_answers : list Turn :=
  [ Arrive (at_time 6000) "c2" (mk_submit "R" 0 2);
    Arrive (at_time 6001) "c3" (mk_submit "R" 0 2);
    Resume (at_time 6002) 0; Resume (at_time 6003) 1;
    Resume (at_time 6004) 1; Resume (at_time 6005) 0;
    Resume (at_time 6006) 0; Resume (at_time 6007) 1;
    Resume (at_time 6008) 1; Resume (at_time 6009) 0;
    Resume (at_time 6010) 0; Resume (at_time 6011) 1 ].

(** Questions 1 to 9 of the quiz that [quiz_started] began, each asked
    by the advance timer of the question before and ended by its own
    expiry timer: question [j] is asked at [9500 + 13000 * (j - 1)] by
    the timeout with handle [2 j + 3] and expires ten seconds later by
    the timeout with handle [2 j + 4]. *)
Definition rounds_1_to_9 : list (Env * Input) :=
  flat_map (λ j, [ (at_time (9500 + 13000 * (j - 1)), InTimeout (Z.to_nat (2 * j + 3)));
                   (at_time (19500 + 13000 * (j - 1)), InTimeout (Z.to_nat (2 * j + 4))) ])
           (seqZ 1 9).

(** A whole quiz in room R: user 3 answers question 0 wrongly, user 2
    wins it, the other questions expire, and the last advance timer
    (handle 23) finishes the quiz at 126500. *)
Definition first_quiz : list (Env * Input) :=
  quiz_started
  ++ [ (at_time 6000, InMessage "c3" "wrong0");
       (at_time 6500, InMessage "c2" "right0") ]
  ++ rounds_1_to_9
  ++ [ (at_time 126500, InTimeout 23%nat) ].

(** User 3 joins again, the host starts a second quiz, and its question
    0 is asked at 132500 (start timer: handle 24). *)
Definition second_quiz : list (Env * Input) :=
  first_quiz
  ++ [ (at_time 127000, InMessage "c3" "join");
       (at_time 127500, InMessage "c1" "start");
       (at_time 132500, InTimeout 24%nat) ].

(** ** Runs of the answer handler that read the expired flag *)

(** The run has read the state of its question and found the expired
    flag set. *)
Definition saw_expired (st : SubmitTask) : bool :=
  match st with
  | AwaitPipeline _ _ _ true => true
  | _ => false
  end.

(** The run has found the expired flag set and waits to resume, or has
    resumed and thrown: 410 when its question was the current one, 409
    otherwise. *)
Definition refused_as_expired (st : SubmitTask) : bool :=
  match st with
  | AwaitPipeline _ _ _ true => true
  | Thrown 409 "Question no longer active" => true
  | Thrown 410 "Question has expired" => true
  | _ => false
  end.

Definition is_resume_of (k : nat) (t : Turn) : bool :=
  match t with
  | Resume _ j => bool_decide (j = k)
  | _ => false
  end.

(** The schedule without the turns in which run [k] resumes. *)
Definition without_run (k : nat) (turns : list Turn) : list Turn :=
  filter (λ t, is_resume_of k t = false) turns.

(** User 3 sends the right choice for question 0 at 15019; the handler
    reads the state of the question (no expired flag yet) and is
    suspended; the expiry handler runs at 15020; the handler of the
    submission then resumes four times, to its end. *)
Definition answer_across_expiry : list Turn :=
  [ Arrive (at_time 15019) "c3" (mk_submit "R" 0 2);
    Resume (at_time 15019) 0;
    Expire (at_time 15020) "R" 0;
    Resume (at_time 15021) 0; Resume (at_time 15022) 0;
    Resume (at_time 15023) 0; Resume (at_time 15024) 0 ].

(** The run has issued its first write (the SET NX on the answered
    key), or has ended; if it has thrown, then with code 500. *)
Definition past_first_write (st : SubmitTask) : bool :=
  match st with
  | AwaitSetAnswered _ | AwaitClaim _ _ | AwaitTransaction _ _ | Returned _ => true
  | Thrown 500 _ => true
  | _ => false
  end.

(** The standing of participant [p] when the rating transactions fail
    as the environment says: the fallback of the handler is
    [1200 + score * 10]. *)
Definition standing_under (env : Env) (d : Database) (p : RoomParticipant) : Standing :=
  if db_fails env (RatingTx (rp_userId p))
  then {| st_userId := rp_userId p;
          st_userName := display_name (users d !! rp_userId p);
          st_score := score p;
          st_newRating := 1200 + score p * 10 |}
  else standing_of d p.

(** An environment in which the rating transaction of user 1 fails. *)
Definition rating_fails_for_1 : Env :=
  {| now := 0;
     db_fails := λ call, match call with RatingTx 1 => true | _ => false end;
     random_skip := λ _, 0; random_desc := false |}.

(** ** Relations between the worlds before and after a handler *)

(** Every run of the handler [m] relates the world it starts in to the
    world it ends in by [R]. *)
Definition M_rel {A} (R : World → World → Prop) (m : M A) : Prop :=
  ∀ w, R w (m w).2.

(** The stores, the question cache, the room timers and the logs of
    [w'] are those of [w]. *)
Definition same_core (w w' : World) : Prop :=
  redis w' = redis w ∧ db w' = db w ∧ questionsCache w' = questionsCache w
  ∧ timers w' = timers w ∧ logs w' = logs w ∧ rateLimitMap w' = rateLimitMap w
  ∧ nextTimeout w' = nextTimeout w.

(** The connection registry of [w'] is included in the one of [w]. *)
Definition registry_shrinks (w w' : World) : Prop :=
  registry_le (userConnections w') (userConnections w).

(** The relational store of [w'] is the one of [w]. *)
Definition same_db (w w' : World) : Prop := db w' = db w.

(** The sockets of [w'] belong to the users they belong to in [w]. *)
Definition same_users (w w' : World) : Prop :=
  ∀ c, sockets w' !! c ≫= userId = sockets w !! c ≫= userId.

(** The broadcasts of [w] are still there in [w']. *)
Definition broadcasts_grow (w w' : World) : Prop :=
  ∃ l, broadcasts w' = l ++ broadcasts w.


(** A store in which room R takes two players and has two: users 2 and 1. *)
Definition full_db : Database :=
  {| users := users example_db;
     rooms := {[ "R" := {| room_name := "Room"; hostId := 1; isActive := true;
                           maxPlayers := 2 |} ]};
     roomParticipants := roomParticipants tie_db;
     questions := questions example_db;
     answerClaims := [];
     playerRatings := ∅ |}.

(** ** The writes of the server to the relational store *)

(** The four transactions of the server, each with the checks the
    server makes before it commits: the join of [handleJoinRoom], the
    leave of [handleLeaveRoom], the winning claim of
    [handleSubmitAnswer] and the rating update of [handleQuizFinished]. *)
Inductive db_op (d : Database) : Database → Prop :=
| db_join roomId uid room :
    rooms d !! roomId = Some room →
    isActive room = true →
    Z.of_nat (length (room_participants roomId d)) < maxPlayers room →
    (∀ p, participant_findFirst uid d = Some p → rp_roomId p = roomId) →
    db_op d (participant_upsert roomId uid d)
| db_leave roomId uid :
    db_op d (participant_deleteMany roomId uid d)
| db_claim env roomId i uid d' :
    claim_transaction env roomId i uid d = Some d' →
    db_op d d'
| db_rating p :
    db_op d (rating_transaction p d).2.

(** The store [d'] is reached from [d] by transactions of the server. *)
Definition db_evolves : Database → Database → Prop := rtc db_op.

(** A handler keeps the property [I] of the world. *)
Definition keeps (I : World → Prop) (w w' : World) : Prop := I w → I w'.

(** The counter of every entry of the rate map is between 1 and
    [RATE_LIMIT_MAX]. *)
Definition rate_entries_ok (w : World) : Prop :=
  ∀ u e, rateLimitMap w !! u = Some e → 1 ≤ count e ≤ CONFIG.RATE_LIMIT_MAX.

(** The connection registry holds no empty set. *)
Definition no_empty_registry (w : World) : Prop :=
  ∀ u conns, userConnections w !! u = Some conns → conns ≠ ∅.

(** The participant rows of user [uid], in all rooms. *)
Definition rows_of_user (uid : Z) (d : Database) : list RoomParticipant :=
  filter (λ p, rp_userId p = uid) (roomParticipants d).



(** The [AnswerClaim] rows of user [uid] in the room. *)
Definition claims_of (roomId : string) (uid : Z) (d : Database) : list AnswerClaim :=
  filter (λ a, ac_roomId a = roomId ∧ ac_userId a = uid) (answerClaims d).

(** Every score is backed by as many claim rows of its user in its room. *)
Definition scores_backed_by_claims (d : Database) : Prop :=
  ∀ p, p ∈ roomParticipants d →
    score p ≤ Z.of_nat (length (claims_of (rp_roomId p) (rp_userId p) d)).

(** The state of a connection after its cleanup: no cleanup timeout, a
    socket that is not open, and no entry in the registry of its user. *)
Definition settled (c : string) (ws : WebSocketWithUser) (w : World) : Prop :=
  connectionCleanup w !! c = None
  ∧ (∃ ws', sockets w !! c = Some ws' ∧ currentRoom ws' = currentRoom ws
            ∧ userId ws' = userId ws ∧ readyState ws' ≠ OPEN)
  ∧ (∀ u s, truthy_id (userId ws) = Some u → userConnections w !! u = Some s →
            (c ∉ s) ∧ s ≠ ∅).

(** ** Relations kept by every step of a handler *)

Section M_rel.
Context (R : World → World → Prop) `{!PreOrder R}.

Lemma M_rel_ret {A} (a : A) : M_rel R (ret a).
Proof. intros w. reflexivity. Qed.

Lemma M_rel_throw {A} code msg : M_rel R (@throw A code msg).
Proof. intros w. reflexivity. Qed.

Lemma M_rel_read {A} (f : World → A) : M_rel R (read f).
Proof. intros w. reflexivity. Qed.

Lemma M_rel_modify f : (∀ w, R w (f w)) → M_rel R (modify f).
Proof. intros Hf w. apply Hf. Qed.

Lemma M_rel_bind {A B} (m : M A) (k : A → M B) :
  M_rel R m → (∀ a, M_rel R (k a)) → M_rel R (bind m k).
Proof.
  intros Hm Hk w. unfold bind. specialize (Hm w).
  destruct (m w) as [[a|code msg] w']; cbn in *; [|done].
  etrans; [exact Hm|apply Hk].
Qed.
End M_rel.

(** ** What fan-out and connection cleanup leave alone *)

#[global] Instance same_core_preorder : PreOrder same_core.
Proof.
  split.
  - intros w. by repeat split.
  - intros w1 w2 w3 (?&?&?&?&?&?&?) (?&?&?&?&?&?&?). repeat split; congruence.
Qed.

Lemma cleanupConnection_core c w : same_core w (cleanupConnection c w).
Proof.
  unfold cleanupConnection, same_core, ws_close, clearTimeout.
  repeat case_match; cbn; done.
Qed.

Lemma cleanupConnection_broadcasts c w :
  broadcasts (cleanupConnection c w) = broadcasts w.
Proof.
  unfold cleanupConnection, ws_close, clearTimeout.
  repeat case_match; cbn; done.
Qed.

Lemma broadcastToRoom_core roomId f w : same_core w (broadcastToRoom roomId f w).
Proof.
  unfold broadcastToRoom. cbn [roomSockets with_broadcasts].
  destruct (roomSockets w !! roomId) as [socks|]; [|by repeat split].
  case_decide; [by repeat split|].
  match goal with |- same_core _ (foldl ?f ?w1 ?l) =>
    assert (Hfold : ∀ xs w0, same_core w0 (foldl f w0 xs)) end.
  { intros xs. induction xs as [|c xs IH]; intros w0; cbn [foldl]; [reflexivity|].
    etrans; [|apply IH]. etrans; [|apply cleanupConnection_core]. by repeat split. }
  etrans; [|apply Hfold]. by repeat split.
Qed.

Lemma broadcastToRoom_broadcasts roomId f w :
  broadcasts (broadcastToRoom roomId f w) = (roomId, f) :: broadcasts w.
Proof.
  unfold broadcastToRoom. cbn [roomSockets with_broadcasts].
  destruct (roomSockets w !! roomId) as [socks|]; [|done].
  case_decide; [done|].
  match goal with |- broadcasts (foldl ?f ?w1 ?l) = _ =>
    assert (Hfold : ∀ xs w0, broadcasts (foldl f w0 xs) = broadcasts w0) end.
  { intros xs. induction xs as [|c xs IH]; intros w0; cbn [foldl]; [done|].
    rewrite IH. by rewrite cleanupConnection_broadcasts. }
  by rewrite Hfold.
Qed.

Lemma broadcastToRoom_redis roomId f w : redis (broadcastToRoom roomId f w) = redis w.
Proof. apply broadcastToRoom_core. Qed.
Lemma broadcastToRoom_db roomId f w : db (broadcastToRoom roomId f w) = db w.
Proof. apply broadcastToRoom_core. Qed.
Lemma broadcastToRoom_questionsCache roomId f w :
  questionsCache (broadcastToRoom roomId f w) = questionsCache w.
Proof. apply broadcastToRoom_core. Qed.
Lemma broadcastToRoom_timers roomId f w : timers (broadcastToRoom roomId f w) = timers w.
Proof. apply broadcastToRoom_core. Qed.
Lemma broadcastToRoom_logs roomId f w : logs (broadcastToRoom roomId f w) = logs w.
Proof. apply broadcastToRoom_core. Qed.
Lemma broadcastToRoom_nextTimeout roomId f w :
  nextTimeout (broadcastToRoom roomId f w) = nextTimeout w.
Proof. apply broadcastToRoom_core. Qed.



(** [cleanupRoomData] touches the question cache, the timers with their
    timeouts, and Redis. *)
Lemma cleanupRoomData_db roomId w : db (cleanupRoomData roomId w) = db w.
Proof.
  unfold cleanupRoomData. cbn [db with_redis].
  match goal with |- db (foldl ?f ?w1 ?l) = _ =>
    assert (Hfold : ∀ xs w0, db (foldl f w0 xs) = db w0) end.
  { intros xs. induction xs as [|k xs IH]; intros w0; cbn [foldl]; [done|].
    rewrite IH. by case_match. }
  by rewrite Hfold.
Qed.

Lemma cleanupRoomData_broadcasts roomId w :
  broadcasts (cleanupRoomData roomId w) = broadcasts w.
Proof.
  unfold cleanupRoomData. cbn [broadcasts with_redis].
  match goal with |- broadcasts (foldl ?f ?w1 ?l) = _ =>
    assert (Hfold : ∀ xs w0, broadcasts (foldl f w0 xs) = broadcasts w0) end.
  { intros xs. induction xs as [|k xs IH]; intros w0; cbn [foldl]; [done|].
    rewrite IH. by case_match. }
  by rewrite Hfold.
Qed.

(** ** Redis operations *)

Lemma redis_lookup_insert_ne t k k' e (r : gmap RKey REntry) :
  k ≠ k' → redis_lookup t k' (<[k := e]> r) = redis_lookup t k' r.
Proof. intros Hne. unfold redis_lookup. by rewrite lookup_insert_ne. Qed.

Lemma redis_lookup_insert_eq t k e (r : gmap RKey REntry) :
  redis_lookup t k (<[k := e]> r) = if live t e then Some e else None.
Proof. unfold redis_lookup. by rewrite lookup_insert_eq. Qed.

Lemma redis_exists_set_ex_eq now t k v s r :
  t < now + s * 1000 → redis_exists t k (redis_set_ex now k v s r) = true.
Proof.
  intros Ht. unfold redis_exists, redis_set_ex. rewrite redis_lookup_insert_eq.
  unfold live. cbn. by rewrite bool_decide_eq_true_2.
Qed.

Lemma redis_get_set_ex_eq now t k v s r :
  t < now + s * 1000 → redis_get t k (redis_set_ex now k v s r) = Some v.
Proof.
  intros Ht. unfold redis_get, redis_set_ex. rewrite redis_lookup_insert_eq.
  unfold live. cbn. by rewrite bool_decide_eq_true_2.
Qed.

Lemma redis_exists_set_ex_ne now t k k' v s r :
  k ≠ k' → redis_exists t k' (redis_set_ex now k v s r) = redis_exists t k' r.
Proof. intros Hne. unfold redis_exists, redis_set_ex. by rewrite redis_lookup_insert_ne. Qed.

Lemma redis_get_set_ex_ne now t k k' v s r :
  k ≠ k' → redis_get t k' (redis_set_ex now k v s r) = redis_get t k' r.
Proof. intros Hne. unfold redis_get, redis_set_ex. by rewrite redis_lookup_insert_ne. Qed.

Lemma redis_sismember_set_ex_ne now t k k' v s x r :
  k ≠ k' → redis_sismember t k' x (redis_set_ex now k v s r) = redis_sismember t k' x r.
Proof. intros Hne. unfold redis_sismember, redis_set_ex. by rewrite redis_lookup_insert_ne. Qed.

(** SET NX succeeds exactly when the key is not live. *)
Lemma redis_set_nx_taken now k v s r :
  redis_exists now k r = true → redis_set_nx now k v s r = (false, r).
Proof. intros H. unfold redis_set_nx. by rewrite H. Qed.

Lemma redis_set_nx_free now k v s r :
  redis_exists now k r = false →
  redis_set_nx now k v s r = (true, redis_set_ex now k v s r).
Proof. intros H. unfold redis_set_nx. by rewrite H. Qed.

(** [truthy_str (GET k)] implies [EXISTS k]. *)
Lemma redis_get_exists t k r s : redis_get t k r = Some s → redis_exists t k r = true.
Proof. unfold redis_get, redis_exists. by destruct (redis_lookup t k r). Qed.


(** SET NX never makes a key disappear, at any instant. *)
Lemma redis_set_nx_exists_mono now t k k' v s r :
  0 ≤ s →
  redis_exists t k r = true → redis_exists t k (redis_set_nx now k' v s r).2 = true.
Proof.
  intros Hs Hex. unfold redis_set_nx.
  destruct (redis_exists now k' r) eqn:Hnow; [done|]. cbn [snd].
  destruct (decide (k' = k)) as [->|Hne]; [|by rewrite redis_exists_set_ex_ne].
  apply redis_exists_set_ex_eq.
  unfold redis_exists, redis_lookup, live in Hex, Hnow.
  destruct (r !! k) as [[val [x|]]|]; cbn in *; [|done..].
  rewrite !bool_decide_decide in *. repeat case_decide; try done; lia.
Qed.


(** ** Rate limiting *)

Section RateLimit.

Lemma rate_run_in_window uid rest : ∀ m e,
  m !! uid = Some e →
  Forall (λ t, t ≤ resetTime e) rest →
  rate_run uid rest m =
    (λ j : nat, bool_decide (count e + Z.of_nat j < CONFIG.RATE_LIMIT_MAX)) <$> seq 0 (length rest).
Proof.
  induction rest as [|t rest IH]; intros m e Hm Hall; [done|].
  apply Forall_cons in Hall as [Ht Hall].
  cbn [rate_run length seq fmap list_fmap]. unfold checkRateLimit. rewrite Hm.
  rewrite decide_False by lia.
  rewrite <- fmap_S_seq, <- list_fmap_compose.
  destruct (decide (count e >= CONFIG.RATE_LIMIT_MAX)) as [Hfull|Hroom].
  - rewrite (IH m e Hm Hall). f_equal.
    + symmetry. apply bool_decide_eq_false. lia.
    + apply list_fmap_ext. intros _ j _. cbn. apply bool_decide_ext. lia.
  - erewrite IH; [|apply lookup_insert_eq|exact Hall]. cbn [count resetTime]. f_equal.
    + symmetry. apply bool_decide_eq_true. lia.
    + apply list_fmap_ext. intros _ j _. cbn. apply bool_decide_ext. lia.
Qed.

Lemma rate_run_window_opens uid m T rest :
  (∀ e, m !! uid = Some e → T > resetTime e) →
  Forall (λ t, t ≤ T + CONFIG.RATE_LIMIT_WINDOW) rest →
  rate_run uid (T :: rest) m =
    (λ k : nat, bool_decide (k < 10)%nat) <$> seq 0 (S (length rest)).
Proof.
  intros Hopen Hall.
  cbn [rate_run]. unfold checkRateLimit.
  set (e1 := {| count := 1; resetTime := T + CONFIG.RATE_LIMIT_WINDOW |}).
  assert (Hrest : rate_run uid rest (<[uid := e1]> m) =
                  (λ k : nat, bool_decide (S k < 10)%nat) <$> seq 0 (length rest)).
  { erewrite rate_run_in_window; [|apply lookup_insert_eq|exact Hall].
    apply list_fmap_ext. intros _ j _. cbn. apply bool_decide_ext.
    unfold CONFIG.RATE_LIMIT_MAX. lia. }
  cbn [seq fmap list_fmap]. rewrite <- fmap_S_seq, <- list_fmap_compose.
  destruct (m !! uid) as [e|] eqn:Hm.
  - rewrite decide_True by (apply Hopen; reflexivity). by rewrite Hrest.
  - by rewrite Hrest.
Qed.

End RateLimit.

(** ** The connection registry only shrinks outside the handshake *)

#[global] Instance registry_le_preorder : PreOrder (flip registry_le).
Proof.
  split.
  - intros m u conns Hu. eauto.
  - intros m1 m2 m3 H12 H23 u conns Hu. cbn in *.
    destruct (H23 _ _ Hu) as (conns2 & Hu2 & Hsub2).
    destruct (H12 _ _ Hu2) as (conns1 & Hu1 & Hsub1).
    exists conns1. split; [done|set_solver].
Qed.

#[global] Instance registry_shrinks_preorder : PreOrder registry_shrinks.
Proof.
  split.
  - intros w. unfold registry_shrinks. apply (reflexivity (R := flip registry_le)).
  - intros w1 w2 w3 H12 H23. unfold registry_shrinks in *.
    exact (transitivity (R := flip registry_le) H12 H23).
Qed.

Lemma registry_shrinks_eq w w' :
  userConnections w' = userConnections w → registry_shrinks w w'.
Proof. intros Heq. unfold registry_shrinks. rewrite Heq. intros u conns Hu. eauto. Qed.

Lemma conn_bound_shrinks w w' : registry_shrinks w w' → conn_bound w → conn_bound w'.
Proof.
  intros Hle Hb u conns' Hu. destruct (Hle _ _ Hu) as (conns & Hu' & Hsub).
  specialize (Hb _ _ Hu'). apply subseteq_size in Hsub. lia.
Qed.

Lemma sendResponse_userConnections c f w :
  userConnections (sendResponse c f w) = userConnections w.
Proof. unfold sendResponse. by case_match. Qed.

Lemma sendError_userConnections c code msg w :
  userConnections (sendError c code msg w) = userConnections w.
Proof. apply sendResponse_userConnections. Qed.

Lemma cleanupConnection_shrinks c w : registry_shrinks w (cleanupConnection c w).
Proof.
  unfold cleanupConnection.
  set (w1 := match connectionCleanup w !! c with Some _ => _ | None => _ end).
  assert (H1 : userConnections w1 = userConnections w) by (subst w1; by case_match).
  destruct (sockets w1 !! c) as [ws|]; [|by apply registry_shrinks_eq].
  set (w2 := match truthy_str (currentRoom ws) with Some _ => _ | None => _ end).
  assert (H2 : userConnections w2 = userConnections w1).
  { subst w2. repeat case_match; done. }
  set (w3 := match truthy_id (userId ws) with Some _ => _ | None => _ end).
  assert (H3 : registry_shrinks w w3).
  { subst w3. unfold registry_shrinks. rewrite <- H1, <- H2.
    destruct (truthy_id (userId ws)) as [u|]; [|by intros ???; eauto].
    destruct (userConnections w2 !! u) as [userConns|] eqn:Hu; [|by intros ???; eauto].
    case_decide; cbn; intros u' conns' Hu'.
    - apply lookup_delete_Some in Hu' as [_ Hu']. eauto.
    - destruct (decide (u = u')) as [->|Hne].
      + rewrite lookup_insert_eq in Hu'. apply (inj Some) in Hu'. subst conns'.
        exists userConns. split; [done|].
        intros x Hx. by apply elem_of_difference in Hx as [? _].
      + rewrite lookup_insert_ne in Hu' by done. eauto. }
  case_match; [|done]. etrans; [exact H3|]. by apply registry_shrinks_eq.
Qed.

Lemma broadcastToRoom_shrinks roomId f w : registry_shrinks w (broadcastToRoom roomId f w).
Proof.
  unfold broadcastToRoom. cbn [roomSockets with_broadcasts].
  destruct (roomSockets w !! roomId) as [socks|]; [|by apply registry_shrinks_eq].
  case_decide; [by apply registry_shrinks_eq|].
  match goal with |- registry_shrinks _ (foldl ?f ?w1 ?l) =>
    assert (Hfold : ∀ xs w0, registry_shrinks w0 (foldl f w0 xs)) end.
  { intros xs. induction xs as [|c xs IH]; intros w0; cbn [foldl]; [reflexivity|].
    etrans; [|apply IH]. etrans; [|apply cleanupConnection_shrinks].
    by apply registry_shrinks_eq. }
  etrans; [|apply Hfold]. by apply registry_shrinks_eq.
Qed.

Lemma cleanupRoomData_userConnections roomId w :
  userConnections (cleanupRoomData roomId w) = userConnections w.
Proof.
  unfold cleanupRoomData. cbn [userConnections with_redis].
  match goal with |- userConnections (foldl ?f ?w1 ?l) = _ =>
    assert (Hfold : ∀ xs w0, userConnections (foldl f w0 xs) = userConnections w0) end.
  { intros xs. induction xs as [|k xs IH]; intros w0; cbn [foldl]; [done|].
    rewrite IH. by case_match. }
  by rewrite Hfold.
Qed.

Lemma leaveRoom_body_shrinks env c roomId w : registry_shrinks w (leaveRoom_body env c roomId w).
Proof.
  unfold leaveRoom_body. case_match; [by apply registry_shrinks_eq|].
  etrans; [|apply broadcastToRoom_shrinks]. apply registry_shrinks_eq.
  cbn [userConnections with_sockets].
  destruct (roomSockets _ !! roomId); [|done].
  case_decide; [|done]. by rewrite cleanupRoomData_userConnections.
Qed.

Lemma handleLeaveRoom_shrinks env c payload w :
  registry_shrinks w (handleLeaveRoom env c payload w).
Proof.
  unfold handleLeaveRoom. case_match; [apply leaveRoom_body_shrinks|reflexivity].
Qed.

Ltac shrink_step :=
  first
    [ apply M_rel_bind; [apply _| |intros ?]
    | apply M_rel_throw; apply _
    | apply M_rel_read; apply _
    | apply M_rel_ret; apply _
    | apply M_rel_modify; intros ?;
      first [ apply broadcastToRoom_shrinks
            | apply registry_shrinks_eq; first [apply sendResponse_userConnections | reflexivity] ] ].

Lemma join_transaction_shrinks c roomId : M_rel registry_shrinks (join_transaction c roomId).
Proof.
  intros w. unfold join_transaction.
  repeat case_match; by apply registry_shrinks_eq.
Qed.

Lemma handleJoinRoom_shrinks env c roomId : M_rel registry_shrinks (handleJoinRoom env c roomId).
Proof.
  unfold handleJoinRoom.
  repeat first [ case_decide | case_match | apply join_transaction_shrinks | shrink_step ].
Qed.

Lemma handleStartQuiz_shrinks env c roomId : M_rel registry_shrinks (handleStartQuiz env c roomId).
Proof.
  unfold handleStartQuiz.
  repeat first [ case_decide | case_match | shrink_step ].
Qed.

Lemma submit_begin_shrinks env c p w : registry_shrinks w (submit_begin env c p w).2.
Proof. unfold submit_begin. repeat case_decide; reflexivity. Qed.

Lemma submit_resume_shrinks env c p t w : registry_shrinks w (submit_resume env c p t w).2.
Proof.
  destruct t;
    try (unfold submit_resume; repeat first [case_decide | case_match]; simplify_eq;
         try reflexivity; by apply registry_shrinks_eq).
  unfold submit_resume, setTimeout. cbn [snd].
  etrans; [|apply registry_shrinks_eq;
            cbn [userConnections set_timer with_timers with_nextTimeout with_timeouts];
            reflexivity].
  etrans; [|apply broadcastToRoom_shrinks].
  apply registry_shrinks_eq. destruct committed; by case_match.
Qed.

Lemma handleSubmitAnswer_shrinks env c p : M_rel registry_shrinks (handleSubmitAnswer env c p).
Proof.
  intros w. unfold handleSubmitAnswer.
  assert (Hrun : ∀ n tw, registry_shrinks tw.2 (submit_run n env c p tw).2).
  { induction n as [|n IH]; intros tw; cbn [submit_run]; [reflexivity|].
    etrans; [|apply IH]. apply submit_resume_shrinks. }
  specialize (Hrun 5%nat (submit_begin env c p w)).
  pose proof (submit_begin_shrinks env c p w) as Hbegin.
  destruct (submit_run 5 env c p (submit_begin env c p w)) as [t w'].
  assert (registry_shrinks w w') by (etrans; [exact Hbegin|exact Hrun]).
  by destruct t.
Qed.

Lemma handleMessage_shrinks env c m : M_rel registry_shrinks (handleMessage env c m).
Proof.
  intros w. unfold handleMessage. case_match; [|reflexivity].
  destruct m.
  - apply handleJoinRoom_shrinks.
  - apply handleStartQuiz_shrinks.
  - apply handleSubmitAnswer_shrinks.
  - apply handleLeaveRoom_shrinks.
Qed.

Lemma handleNextQuestion_shrinks env roomId i w :
  registry_shrinks w (handleNextQuestion env roomId i w).
Proof.
  unfold handleNextQuestion, setTimeout. case_match; [|by apply registry_shrinks_eq].
  etrans; [|apply registry_shrinks_eq;
            cbn [userConnections set_timer with_timers with_nextTimeout with_timeouts];
            reflexivity].
  etrans; [|apply broadcastToRoom_shrinks]. by apply registry_shrinks_eq.
Qed.

Lemma handleQuestionExpiry_shrinks env roomId i w :
  registry_shrinks w (handleQuestionExpiry env roomId i w).
Proof.
  unfold handleQuestionExpiry, setTimeout. case_match; [|reflexivity].
  case_match; [reflexivity|].
  etrans; [|apply registry_shrinks_eq;
            cbn [userConnections set_timer with_timers with_nextTimeout with_timeouts];
            reflexivity].
  etrans; [|apply broadcastToRoom_shrinks]. by apply registry_shrinks_eq.
Qed.

Lemma compute_standings_userConnections env ps : ∀ w,
  userConnections (compute_standings env ps w).2 = userConnections w.
Proof.
  induction ps as [|[p user] ps IH]; intros w; cbn [compute_standings]; [done|].
  destruct (standing_for env p user w) as [s w1] eqn:Hs.
  specialize (IH w1). destruct (compute_standings env ps w1) as [rest w2].
  cbn [snd] in *. rewrite IH.
  unfold standing_for in Hs. repeat case_match; simplify_eq; reflexivity.
Qed.

Lemma handleQuizFinished_shrinks env roomId w :
  registry_shrinks w (handleQuizFinished env roomId w).
Proof.
  unfold handleQuizFinished. case_match.
  { apply registry_shrinks_eq. by rewrite cleanupRoomData_userConnections. }
  pose proof (compute_standings_userConnections env (standings_query roomId (db w)) w) as Hc.
  destruct (compute_standings env _ w) as [standings w1]. cbn [snd] in Hc.
  destruct standings.
  - etrans; [|apply registry_shrinks_eq; by rewrite cleanupRoomData_userConnections].
    etrans; [|apply broadcastToRoom_shrinks]. by apply registry_shrinks_eq.
  - apply registry_shrinks_eq. by rewrite cleanupRoomData_userConnections.
Qed.

Lemma cleanupStaleData_shrinks env w : registry_shrinks w (cleanupStaleData env w).
Proof.
  unfold cleanupStaleData, registry_shrinks. cbn.
  intros u conns Hu. apply map_lookup_filter_Some in Hu as [Hu _]. eauto.
Qed.

Lemma run_callback_shrinks env cb w : registry_shrinks w (run_callback env cb w).
Proof.
  destruct cb; cbn [run_callback].
  - apply cleanupConnection_shrinks.
  - apply handleNextQuestion_shrinks.
  - apply handleQuestionExpiry_shrinks.
  - case_decide; [apply handleNextQuestion_shrinks|apply handleQuizFinished_shrinks].
Qed.

(** The handshake is the only place where the registry grows, and it
    checks the cap first. *)
Lemma on_connection_bound env c h w : conn_bound w → conn_bound (on_connection env c h w).
Proof.
  intros Hb. unfold on_connection.
  assert (Hrej : ∀ code reason ecode emsg,
             conn_bound (ws_close c code reason (sendError c ecode emsg
               (with_sockets (<[c := {| userId := None; currentRoom := None;
                                        readyState := OPEN |}]> (sockets w)) w)))).
  { intros code reason ecode emsg u conns Hu. apply (Hb u conns).
    unfold ws_close, sendError in Hu. cbn [userConnections with_wire with_sockets] in Hu.
    by rewrite sendResponse_userConnections in Hu. }
  destruct h as [| |uid]; [apply Hrej..|].
  cbn [userConnections with_sockets].
  case_decide as Hfull; [apply Hrej|].
  unfold setTimeout. cbn beta iota zeta.
  intros u conns Hu. rewrite sendResponse_userConnections in Hu.
  cbn [userConnections with_connectionCleanup with_nextTimeout with_timeouts
       with_userConnections with_sockets] in Hu.
  destruct (decide (uid = u)) as [->|Hne].
  - rewrite lookup_insert_eq in Hu. apply (inj Some) in Hu. subst conns.
    pose proof (size_union_alt ({[c]} : gset string) (default ∅ (userConnections w !! u))) as Hsz.
    assert (size (default ∅ (userConnections w !! u) ∖ {[c]}) ≤
            size (default ∅ (userConnections w !! u)))%nat
      by (apply subseteq_size; intros x Hx; by apply elem_of_difference in Hx as [? _]).
    rewrite size_singleton in Hsz. unfold CONFIG.MAX_CONNECTIONS_PER_USER in *. lia.
  - rewrite lookup_insert_ne in Hu by done. by apply (Hb u conns).
Qed.

Lemma on_close_shrinks c w : registry_shrinks w (on_close c w).
Proof.
  unfold on_close. case_match; [|by apply registry_shrinks_eq].
  etrans; [|apply cleanupConnection_shrinks]. by apply registry_shrinks_eq.
Qed.

Lemma on_error_shrinks c w : registry_shrinks w (on_error c w).
Proof.
  unfold on_error. case_match; [apply cleanupConnection_shrinks|reflexivity].
Qed.

Lemma fire_timeout_shrinks env h w : registry_shrinks w (fire_timeout env h w).
Proof.
  unfold fire_timeout. case_match; [|reflexivity]. case_decide; [|reflexivity].
  etrans; [|apply run_callback_shrinks]. by apply registry_shrinks_eq.
Qed.

Lemma on_message_shrinks parse env c data w : registry_shrinks w (on_message parse env c data w).
Proof.
  unfold on_message. case_match; [|reflexivity].
  destruct (checkRateLimit _ _ _) as [admitted m].
  destruct admitted; [|by apply registry_shrinks_eq; rewrite sendError_userConnections].
  case_decide; [by apply registry_shrinks_eq; rewrite sendError_userConnections|].
  destruct (parse data) as [| |message].
  1,2: by apply registry_shrinks_eq; rewrite sendError_userConnections.
  pose proof (handleMessage_shrinks env c message (with_rateLimitMap m w)) as Hm.
  destruct (handleMessage env c message _) as [[[]|code msg] w2]; cbn [snd] in Hm.
  - exact Hm.
  - etrans; [exact Hm|]. by apply registry_shrinks_eq; rewrite sendError_userConnections.
Qed.

Lemma dispatch_bound parse env i w : conn_bound w → conn_bound (dispatch parse env i w).
Proof.
  intros Hb. destruct i; cbn [dispatch].
  - by apply on_connection_bound.
  - eapply conn_bound_shrinks; [apply on_message_shrinks|done].
  - eapply conn_bound_shrinks; [apply on_close_shrinks|done].
  - eapply conn_bound_shrinks; [apply on_error_shrinks|done].
  - eapply conn_bound_shrinks; [apply fire_timeout_shrinks|done].
  - destruct (spawned w) as [|[c roomId] rest]; [done|].
    eapply conn_bound_shrinks; [apply leaveRoom_body_shrinks|done].
  - eapply conn_bound_shrinks; [apply cleanupStaleData_shrinks|done].
Qed.

Lemma run_bound parse trace : ∀ w, conn_bound w → conn_bound (run parse w trace).
Proof.
  induction trace as [|[env i] trace IH]; intros w Hb; [done|].
  apply IH. by apply dispatch_bound.
Qed.

Lemma on_connection_rejected env c uid conns w :
  userConnections w !! uid = Some conns →
  Z.of_nat (size conns) >= CONFIG.MAX_CONNECTIONS_PER_USER →
  let w' := on_connection env c (Session uid) w in
  userConnections w' = userConnections w
  ∧ sockets w' !! c = Some {| userId := None; currentRoom := None; readyState := CLOSING |}
  ∧ wire w' = WClose c (Some 1008) "Connection limit exceeded"
              :: WSend c (FError 429 "Too many connections for this user") :: wire w.
Proof.
  intros Hu Hfull. cbn zeta. unfold on_connection.
  cbn [userConnections with_sockets]. rewrite Hu. cbn [default].
  rewrite decide_True by done.
  unfold ws_close, sendError, sendResponse, is_open.
  cbn [sockets with_sockets]. rewrite lookup_insert_eq. cbn [readyState].
  rewrite bool_decide_eq_true_2 by done.
  cbn [userConnections sockets wire with_wire with_sockets].
  split; [done|]. split; [|done].
  rewrite lookup_alter_eq, lookup_insert_eq. reflexivity.
Qed.

(** C6.  The connection registry never holds more than
    [MAX_CONNECTIONS_PER_USER] (3) connections of one user: the bound holds
    at start-up, every input of the server keeps it (the handshake, the
    messages, the close and error events, the timers, the spawned leaves
    and the periodic sweep), and so do [cleanupConnection] and [cleanupStaleData]
    called on their own; hence it holds after every run.  A handshake of
    a user who already holds 3 connections is answered with the error
    frame 429 and closed with code 1008 (policy violation), the socket
    is not attached and the registry is unchanged. *)
Theorem connection_cap_invariant parse :
  (∀ d trace, conn_bound (run parse (initial d) trace))
  ∧ (∀ env i w, conn_bound w → conn_bound (dispatch parse env i w))
  ∧ (∀ c w, conn_bound w → conn_bound (cleanupConnection c w))
  ∧ (∀ env w, conn_bound w → conn_bound (cleanupStaleData env w))
  ∧ (∀ env c uid conns w,
       userConnections w !! uid = Some conns →
       Z.of_nat (size conns) >= CONFIG.MAX_CONNECTIONS_PER_USER →
       let w' := on_connection env c (Session uid) w in
       userConnections w' = userConnections w
       ∧ sockets w' !! c = Some {| userId := None; currentRoom := None; readyState := CLOSING |}
       ∧ wire w' = WClose c (Some 1008) "Connection limit exceeded"
                   :: WSend c (FError 429 "Too many connections for this user") :: wire w).
Proof.
  split; [|split; [|split; [|split]]].
  - intros d trace. apply run_bound. intros u conns Hu. cbn in Hu. by rewrite lookup_empty in Hu.
  - intros env i w. apply dispatch_bound.
  - intros c w. apply conn_bound_shrinks, cleanupConnection_shrinks.
  - intros env w. apply conn_bound_shrinks, cleanupStaleData_shrinks.
  - intros env c uid conns w. apply on_connection_rejected.
Qed.

Lemma connection_cap_witness :
  let w := run example_parse (initial example_db) three_connections in
  conn_bound (dispatch example_parse (at_time 3) (InConnection "c4" (Session 1)) w)
  ∧ wire (on_connection (at_time 3) "c4" (Session 1) w)
    = WClose "c4" (Some 1008) "Connection limit exceeded"
      :: WSend "c4" (FError 429 "Too many connections for this user") :: wire w.
Proof.
  destruct (connection_cap_invariant example_parse) as (Hrun & Hstep & _ & _ & Hrej).
  split.
  - apply Hstep, Hrun.
  - eapply (Hrej (at_time 3) "c4" 1).
    + vm_compute. reflexivity.
    + vm_compute. discriminate.
Defined.

(** ** Inbound frames *)

Lemma with_rateLimitMap_id w : with_rateLimitMap (rateLimitMap w) w = w.
Proof. by destruct w. Qed.

Lemma checkRateLimit_refused now uid m :
  (checkRateLimit now uid m).1 = false → (checkRateLimit now uid m).2 = m.
Proof. unfold checkRateLimit. repeat case_match; naive_solver. Qed.

Lemma on_message_rate_limited parse env c uid data w :
  sockets w !! c ≫= userId = Some uid →
  is_open c w = true →
  (checkRateLimit (now env) uid (rateLimitMap w)).1 = false →
  on_message parse env c data w
  = with_wire (WSend c (FError 429 "Rate limit exceeded") :: wire w) w.
Proof.
  intros Hc Hopen Hno. unfold on_message. rewrite Hc.
  pose proof (checkRateLimit_refused _ _ _ Hno) as Hm.
  destruct (checkRateLimit _ _ _) as [admitted m]. cbn in Hno, Hm. subst.
  rewrite with_rateLimitMap_id. unfold sendError, sendResponse. by rewrite Hopen.
Qed.

(** C5 (as the server does it).  The counter is kept per user and shared
    by all the connections of that user, and the window is fixed: a
    frame that arrives after the reset time of the user's entry (or
    when there is none) opens a window of [RATE_LIMIT_WINDOW] ms, and of
    the frames that arrive until that window's reset time exactly the
    first [RATE_LIMIT_MAX] (10) are admitted.  A refused frame is
    answered with the error frame 429 on its socket and changes nothing
    else: it is not processed and the socket stays as it is (open). *)
Theorem rate_limit_fixed_window_per_user parse :
  (∀ uid m T rest,
      (∀ e, m !! uid = Some e → T > resetTime e) →
      Forall (λ t, t ≤ T + CONFIG.RATE_LIMIT_WINDOW) rest →
      rate_run uid (T :: rest) m
      = (λ k : nat, bool_decide (Z.of_nat k < CONFIG.RATE_LIMIT_MAX)) <$> seq 0 (S (length rest)))
  ∧ (∀ env c uid data w,
      sockets w !! c ≫= userId = Some uid →
      is_open c w = true →
      (checkRateLimit (now env) uid (rateLimitMap w)).1 = false →
      on_message parse env c data w
      = with_wire (WSend c (FError 429 "Rate limit exceeded") :: wire w) w).
Proof.
  split.
  - intros uid m T rest Hopen Hall. rewrite rate_run_window_opens by done.
    apply list_fmap_ext. intros _ k _. apply bool_decide_ext.
    unfold CONFIG.RATE_LIMIT_MAX. lia.
  - intros env c uid data w. apply on_message_rate_limited.
Qed.

Lemma rate_limit_fixed_window_per_user_witness :
  rate_run 1 (0 :: replicate 11 500) ∅ = replicate 10 true ++ [false; false]
  ∧ (let w := run example_parse (initial example_db) shared_counter in
     on_message example_parse (at_time 20) "c2" "leave" w
     = with_wire (WSend "c2" (FError 429 "Rate limit exceeded") :: wire w) w).
Proof.
  destruct (rate_limit_fixed_window_per_user example_parse) as [Hwin Hrej]. split.
  - apply (Hwin 1 ∅ 0 (replicate 11 500)).
    + intros e He. by rewrite lookup_empty in He.
    + apply Forall_replicate. vm_compute. discriminate.
  - apply (Hrej (at_time 20) "c2" 1 "leave"); vm_compute; reflexivity.
Defined.

(** C5 as stated fails twice.  On one connection 19 frames arrive
    within one millisecond (times 1000 and 1001) and none of the 20
    frames of the run is refused: the window is not sliding.  And the
    first frame of a second connection of the same user is refused
    because of the frames of the first connection: the counter is not
    the connection's own. *)
Lemma rate_limit_counterexample :
  (let w := run example_parse (initial example_db) burst in
   length (filter (λ ei, is_frame ei = true ∧ 1000 ≤ now ei.1 ≤ 1001) burst) = 19%nat
   ∧ filter (λ e, is_rate_error e = true) (wire w) = [])
  ∧ (let w := run example_parse (initial example_db) shared_counter in
     frames_to "c2" (wire w) = [FConnected "c2" 1]
     ∧ wire (on_message example_parse (at_time 20) "c2" "leave" w)
       = WSend "c2" (FError 429 "Rate limit exceeded") :: wire w).
Proof.
  split; [split|split]; vm_compute; reflexivity.
Qed.

(** C7 (as the server does it).  A frame that the rate limiter admits
    and whose decoded text is longer than 1024 characters is answered
    with the error frame 413 on its socket; apart from the rate counter
    nothing else changes: the frame is neither decoded nor handled, and
    the socket stays as it is (open). *)
Theorem oversize_frame_rejected parse env c uid data w :
  sockets w !! c ≫= userId = Some uid →
  is_open c w = true →
  (checkRateLimit (now env) uid (rateLimitMap w)).1 = true →
  (1024 < String.length data)%nat →
  on_message parse env c data w
  = with_wire (WSend c (FError 413 "Message too large") :: wire w)
      (with_rateLimitMap (checkRateLimit (now env) uid (rateLimitMap w)).2 w).
Proof.
  intros Hc Hopen Hyes Hlen. unfold on_message. rewrite Hc.
  destruct (checkRateLimit _ _ _) as [admitted m]. cbn in Hyes. subst.
  rewrite decide_True by done. unfold sendError, sendResponse.
  replace (is_open c (with_rateLimitMap m w)) with (is_open c w) by done.
  by rewrite Hopen.
Qed.

Lemma oversize_frame_rejected_witness :
  let w := run example_parse (initial example_db) three_connections in
  wire (on_message example_parse (at_time 5) "c1" (text_of_length 1025) w)
  = WSend "c1" (FError 413 "Message too large") :: wire w.
Proof.
  cbn zeta.
  rewrite (oversize_frame_rejected example_parse (at_time 5) "c1" 1 (text_of_length 1025)
             (run example_parse (initial example_db) three_connections)).
  - reflexivity.
  - vm_compute. reflexivity.
  - vm_compute. reflexivity.
  - vm_compute. reflexivity.
  - vm_compute. lia.
Defined.

(** C7 as stated fails: the rate limiter comes first, so an oversize
    frame that arrives when the user's window is full is answered with
    429, not with 413. *)
Lemma oversize_frame_counterexample :
  let w := run example_parse (initial example_db) shared_counter in
  is_open "c1" w = true
  ∧ (1024 < String.length (text_of_length 1025))%nat
  ∧ wire (on_message example_parse (at_time 20) "c1" (text_of_length 1025) w)
    = WSend "c1" (FError 429 "Rate limit exceeded") :: wire w.
Proof.
  split; [|split].
  - vm_compute. reflexivity.
  - vm_compute. lia.
  - vm_compute. reflexivity.
Qed.

(** ** Sorting *)

Lemma insert_by_perm {A} (le : A → A → bool) x l : insert_by le x l ≡ₚ x :: l.
Proof.
  induction l as [|y l IH]; cbn; [done|].
  case_match; [done|]. rewrite IH. apply Permutation_swap.
Qed.

Lemma sort_by_perm {A} (le : A → A → bool) l : sort_by le l ≡ₚ l.
Proof.
  induction l as [|x l IH]; cbn; [done|].
  fold (sort_by le l). by rewrite insert_by_perm, IH.
Qed.

Lemma insert_by_sorted {A} (le : A → A → bool) x l :
  (∀ a b, le a b = false → le b a = true) →
  Sorted (λ a b, le a b = true) l → Sorted (λ a b, le a b = true) (insert_by le x l).
Proof.
  intros Htotal. induction l as [|y l IH]; intros Hs; cbn.
  - by repeat constructor.
  - destruct (le x y) eqn:Hxy.
    + constructor; [done|]. by constructor.
    + apply Sorted_inv in Hs as [Hs Hhd]. constructor; [by apply IH|].
      destruct l as [|z l]; cbn.
      * constructor. by apply Htotal.
      * apply HdRel_inv in Hhd. destruct (le x z); constructor; [by apply Htotal|done].
Qed.

Lemma sort_by_sorted {A} (le : A → A → bool) l :
  (∀ a b, le a b = false → le b a = true) →
  Sorted (λ a b, le a b = true) (sort_by le l).
Proof.
  intros Htotal. induction l as [|x l IH]; cbn; [constructor|].
  by apply insert_by_sorted.
Qed.

Lemma Sorted_fmap_standings d ps :
  Sorted (λ a b, by_score_desc a b = true) ps →
  Sorted (λ a b, st_score b ≤ st_score a) (standing_of d <$> ps).
Proof.
  induction 1 as [|p ps Hs IH Hhd]; cbn; [constructor|].
  constructor; [done|]. destruct Hhd as [|q ps' Hpq]; cbn; constructor.
  cbn. unfold by_score_desc in Hpq. by apply bool_decide_eq_true in Hpq.
Qed.

(** ** Ratings *)

Lemma ratings_after_cons d p ps m :
  ratings_after d (p :: ps) m
  = ratings_after d ps (<[rp_userId p := st_newRating (standing_of d p)]> m).
Proof. reflexivity. Qed.

Lemma ratings_after_notin d ps : ∀ m u,
  u ∉ rp_userId <$> ps → ratings_after d ps m !! u = m !! u.
Proof.
  induction ps as [|p ps IH]; intros m u Hu; [done|].
  rewrite fmap_cons in Hu. apply not_elem_of_cons in Hu as [Hne Hu].
  rewrite ratings_after_cons, IH by done. by rewrite lookup_insert_ne.
Qed.

Lemma ratings_after_in d ps : ∀ m p,
  NoDup (rp_userId <$> ps) → p ∈ ps →
  ratings_after d ps m !! rp_userId p = Some (st_newRating (standing_of d p)).
Proof.
  induction ps as [|q ps IH]; intros m p Hnd Hp; [by apply elem_of_nil in Hp|].
  rewrite fmap_cons in Hnd. apply NoDup_cons in Hnd as [Hq Hnd].
  rewrite ratings_after_cons.
  apply elem_of_cons in Hp as [->|Hp].
  - rewrite ratings_after_notin by done. apply lookup_insert_eq.
  - by apply IH.
Qed.

Lemma compute_standings_ok env d0 ps : ∀ w,
  (∀ u, db_fails env (RatingTx u) = false) →
  NoDup (rp_userId <$> ps) →
  (∀ p, p ∈ ps → is_Some (users d0 !! rp_userId p)) →
  (∀ p, p ∈ ps → playerRatings (db w) !! rp_userId p = playerRatings d0 !! rp_userId p) →
  compute_standings env ((λ p, (p, users d0 !! rp_userId p)) <$> ps) w
  = (Some (standing_of d0 <$> ps),
     with_db (with_playerRatings (ratings_after d0 ps (playerRatings (db w))) (db w)) w).
Proof.
  intros w Hok Hnd Husers Hrat. revert w Hrat.
  induction ps as [|p ps IH]; intros w Hrat.
  { cbn. destruct w as [? ? ? ? ? ? ? ? ? ? ? []]; reflexivity. }
  cbn in Hnd. apply NoDup_cons in Hnd as [Hp Hnd].
  cbn [fmap list_fmap compute_standings]. unfold standing_for.
  rewrite Hok. unfold rating_transaction.
  destruct (Husers p) as [u Hu]; [by left|]. rewrite Hu. cbn [fmap option_fmap option_map].
  rewrite IH; [| done | by intros; apply Husers; right | ].
  - rewrite ratings_after_cons. unfold standing_of at 2 4.
    rewrite Hu, (Hrat p) by by left. reflexivity.
  - intros q Hq. cbn. rewrite lookup_insert_ne; [by apply Hrat; right|].
    intros Heq. apply Hp. rewrite Heq. by apply list_elem_of_fmap_2.
Qed.

Lemma by_score_desc_total a b : by_score_desc a b = false → by_score_desc b a = true.
Proof.
  unfold by_score_desc. intros H. apply bool_decide_eq_false in H.
  apply bool_decide_eq_true. lia.
Qed.

(** C2 (as the server does it).  When the store answers, the users of
    the participants exist and the participant rows of the room are
    unique per user, [handleQuizFinished] broadcasts one [quizFinished]
    frame whose standings are, for every participant row of the room,
    [(userId, userName, score, newRating)] with
    [newRating = (stored rating, or 1200 when there is none or it is 0)
    + score * 10]; the list is ordered by score descending, rows of equal
    score in the order of the table; every new rating is written to
    [PlayerRating] and no other rating changes.  For a stored rating of
    at least 1200 the rule is [max 1200 prevRating + score * 10]. *)
Theorem final_standings env roomId w :
  db_fails env StandingsFind = false →
  (∀ u, db_fails env (RatingTx u) = false) →
  NoDup (rp_userId <$> room_participants roomId (db w)) →
  (∀ p, p ∈ room_participants roomId (db w) → is_Some (users (db w) !! rp_userId p)) →
  let w' := handleQuizFinished env roomId w in
  let standings :=
    standing_of (db w) <$> sort_by by_score_desc (room_participants roomId (db w)) in
  broadcasts w' = (roomId, FQuizFinished standings) :: broadcasts w
  ∧ standings ≡ₚ standing_of (db w) <$> room_participants roomId (db w)
  ∧ Sorted (λ a b, st_score b ≤ st_score a) standings
  ∧ (∀ p, p ∈ room_participants roomId (db w) →
          playerRatings (db w') !! rp_userId p
          = Some (rating_or_default (playerRatings (db w) !! rp_userId p) + score p * 10))
  ∧ (∀ u, u ∉ rp_userId <$> room_participants roomId (db w) →
          playerRatings (db w') !! u = playerRatings (db w) !! u)
  ∧ (∀ r, 1200 ≤ r → rating_or_default (Some r) = Z.max 1200 r)
  ∧ rating_or_default None = 1200.
Proof.
  intros Hfind Htx Hnd Husers. cbn zeta.
  set (ps := sort_by by_score_desc (room_participants roomId (db w))).
  assert (Hperm : ps ≡ₚ room_participants roomId (db w)) by apply sort_by_perm.
  assert (Hrun : handleQuizFinished env roomId w
                 = cleanupRoomData roomId
                     (broadcastToRoom roomId (FQuizFinished (standing_of (db w) <$> ps))
                        (with_db (with_playerRatings
                                    (ratings_after (db w) ps (playerRatings (db w))) (db w)) w))).
  { unfold handleQuizFinished. rewrite Hfind. unfold standings_query.
    fold by_score_desc. fold ps.
    rewrite (compute_standings_ok env (db w) ps w); [done|done| | |done].
    - by rewrite Hperm.
    - intros p Hp. apply Husers. by rewrite <- Hperm. }
  rewrite Hrun, cleanupRoomData_broadcasts, cleanupRoomData_db,
    broadcastToRoom_broadcasts, broadcastToRoom_db.
  cbn [broadcasts db with_db playerRatings with_playerRatings].
  split; [done|]. split; [by rewrite Hperm|]. split.
  { apply Sorted_fmap_standings, sort_by_sorted, by_score_desc_total. }
  split; [|split; [|split]].
  - intros p Hp. rewrite (ratings_after_in (db w) ps); [done| |].
    + by rewrite Hperm.
    + by rewrite Hperm.
  - intros u Hu. apply ratings_after_notin. by rewrite Hperm.
  - intros r Hr. unfold rating_or_default. destruct r; lia.
  - reflexivity.
Qed.

Lemma final_standings_witness :
  let w := initial tie_db in
  broadcasts (handleQuizFinished (at_time 0) "R" w)
  = [("R", FQuizFinished
             [ {| st_userId := 2; st_userName := "U2"; st_score := 1; st_newRating := 1310 |};
               {| st_userId := 1; st_userName := "U1"; st_score := 1; st_newRating := 1010 |} ])].
Proof.
  cbn zeta.
  destruct (final_standings (at_time 0) "R" (initial tie_db)) as [Hb _].
  - reflexivity.
  - reflexivity.
  - vm_compute. apply NoDup_cons. split; [|apply NoDup_singleton].
    intros Hin. apply list_elem_of_singleton in Hin. discriminate.
  - intros p Hp. vm_compute in Hp.
    apply elem_of_cons in Hp as [->|Hp]; [by eexists|].
    apply elem_of_cons in Hp as [->|Hp]; [by eexists|].
    by apply elem_of_nil in Hp.
  - rewrite Hb. vm_compute. reflexivity.
Defined.

(** C2 as stated fails on both counts.  Users 2 and 1 finish with equal
    scores and user 2 comes first in the standings: ties are not broken
    by ascending user id.  And user 1, whose stored rating is 1000, gets
    1010, not [max 1200 1000 + 1 * 10 = 1210]. *)
Lemma final_standings_counterexample :
  let w' := handleQuizFinished (at_time 0) "R" (initial tie_db) in
  broadcasts w'
  = [("R", FQuizFinished
             [ {| st_userId := 2; st_userName := "U2"; st_score := 1; st_newRating := 1310 |};
               {| st_userId := 1; st_userName := "U1"; st_score := 1; st_newRating := 1010 |} ])]
  ∧ playerRatings (db w') !! 1 = Some 1010
  ∧ Z.max 1200 1000 + 1 * 10 = 1210.
Proof. split; [|split]; vm_compute; reflexivity. Qed.

(** The scenario of the specification: a stored rating of 1200 and a
    score of 7 give 1270. *)
Example rating_1200_score_7 :
  (rating_transaction {| rp_roomId := "R"; rp_userId := 1; score := 7 |}
     (with_playerRatings {[ 1 := 1200 ]} example_db)).1 = 1270.
Proof. reflexivity. Qed.

(** ** Joining a room again *)

#[global] Instance same_db_preorder : PreOrder same_db.
Proof. split; unfold same_db; [done|congruence]. Qed.









(** ** The answer handler, step by step *)

Lemma submit_run_returned n env c p at_ w :
  submit_run n env c p (Returned at_, w) = (Returned at_, w).
Proof. induction n; [done|]. exact IHn. Qed.

Lemma submit_run_thrown n env c p code msg w :
  submit_run n env c p (Thrown code msg, w) = (Thrown code msg, w).
Proof. induction n; [done|]. exact IHn. Qed.

Lemma submit_run_step n env c p t w :
  submit_run (S n) env c p (t, w) = submit_run n env c p (submit_resume env c p t w).
Proof. reflexivity. Qed.

Lemma submit_begin_active env c p w :
  active env c p w → submit_begin env c p w = (AwaitSismember true, w).
Proof.
  intros (Hr & Hi & Hc & Hroom & Hpart & _). unfold submit_begin.
  rewrite decide_False by done.
  rewrite decide_False by lia.
  rewrite decide_False by lia.
  rewrite decide_False by (by rewrite Hroom; intros []).
  by rewrite Hpart.
Qed.

(** The first two awaits of an active submission only read. *)
Lemma submit_reads env c p w n :
  active env c p w →
  submit_run (S (S n)) env c p (submit_begin env c p w)
  = submit_run n env c p
      (match truthy_str (redis_get (now env)
                           (KAnswered (sp_roomId p) (sp_questionIndex p) (ws_userId c w))
                           (redis w)) with
       | Some _ => (Returned RetDuplicate, w)
       | None =>
           let '(setResult, r) :=
             redis_set_nx (now env)
               (KAnswered (sp_roomId p) (sp_questionIndex p) (ws_userId c w)) "1"
               CONFIG.REDIS_TTL (redis w) in
           (AwaitSetAnswered setResult, with_redis r w)
       end).
Proof.
  intros Hact. rewrite submit_begin_active by done.
  destruct Hact as (_ & _ & _ & _ & _ & Hcq & Hexp).
  rewrite submit_run_step. cbn [submit_resume].
  rewrite submit_run_step. f_equal.
  cbn [submit_resume]. rewrite Hcq, Hexp.
  by rewrite decide_False by (intros H; by apply H).
Qed.

(** A submission of a user who is in the answered set changes nothing. *)
Lemma submit_answered_ignored env c p w :
  active env c p w →
  answered (now env) (sp_roomId p) (sp_questionIndex p) (ws_userId c w) w = true →
  handleSubmitAnswer env c p w = (Ok tt, w).
Proof.
  intros Hact Hans. unfold handleSubmitAnswer. rewrite submit_reads by done.
  unfold answered in Hans.
  destruct (truthy_str _) as [s|].
  - by rewrite submit_run_returned.
  - rewrite redis_set_nx_taken by done. rewrite submit_run_step. cbn [submit_resume].
    rewrite submit_run_returned. by destruct w.
Qed.

(** Once the expired flag of the question is set, a submission writes
    nothing and is answered with an error; the error is 410 when the
    other checks pass. *)
Lemma submit_expired_rejected env c p w :
  redis_exists (now env) (KExpired (sp_roomId p) (sp_questionIndex p)) (redis w) = true →
  ∃ code msg, handleSubmitAnswer env c p w = (Throw code msg, w).
Proof.
  intros Hexp. unfold handleSubmitAnswer, submit_begin.
  destruct (decide (sp_roomId p = "")); [rewrite submit_run_thrown; by eauto|].
  destruct (decide (_ ∨ _)); [rewrite submit_run_thrown; by eauto|].
  destruct (decide (_ ∨ _)); [rewrite submit_run_thrown; by eauto|].
  destruct (decide (_ ≠ _)); [rewrite submit_run_thrown; by eauto|].
  rewrite submit_run_step. cbn [submit_resume].
  destruct (redis_sismember _ _ _ _); [|rewrite submit_run_thrown; by eauto].
  rewrite submit_run_step. cbn [submit_resume]. rewrite Hexp.
  destruct (decide (_ ≠ _)); rewrite submit_run_thrown; by eauto.
Qed.

Lemma submit_expired_410 env c p w :
  sp_roomId p ≠ "" →
  0 ≤ sp_questionIndex p < CONFIG.QUESTIONS_PER_QUIZ →
  0 ≤ sp_choiceIdx p ≤ 3 →
  sockets w !! c ≫= currentRoom = Some (sp_roomId p) →
  redis_sismember (now env) (KParticipants (sp_roomId p)) (pretty (ws_userId c w)) (redis w)
  = true →
  redis_get (now env) (KCurrentQuestion (sp_roomId p)) (redis w)
  = Some (pretty (sp_questionIndex p)) →
  redis_exists (now env) (KExpired (sp_roomId p) (sp_questionIndex p)) (redis w) = true →
  handleSubmitAnswer env c p w = (Throw 410 "Question has expired", w).
Proof.
  intros Hr Hi Hc Hroom Hpart Hcq Hexp. unfold handleSubmitAnswer, submit_begin.
  rewrite decide_False by done.
  rewrite decide_False by lia.
  rewrite decide_False by lia.
  rewrite decide_False by (by rewrite Hroom; intros []).
  rewrite Hpart, submit_run_step. cbn [submit_resume].
  rewrite submit_run_step. cbn [submit_resume]. rewrite Hcq, Hexp.
  rewrite decide_False by (intros H; by apply H).
  by rewrite submit_run_thrown.
Qed.

Lemma submit_resume_exists_mono env c p st w t k :
  redis_exists t k (redis w) = true →
  redis_exists t k (redis (submit_resume env c p st w).2) = true.
Proof.
  intros Hex. destruct st; cbn [submit_resume]; try done.
  - by case_match.
  - repeat case_match; try done; simplify_eq; cbn [snd redis with_redis].
    match goal with H : redis_set_nx ?n ?k' ?v ?s ?r = (_, ?r') |- _ =>
      change r' with ((b, r').2); rewrite <- H end.
    by apply redis_set_nx_exists_mono.
  - repeat case_match; try done; simplify_eq; cbn [snd redis with_redis].
    match goal with H : redis_set_nx ?n ?k' ?v ?s ?r = (_, ?r') |- _ =>
      change r' with ((b, r').2); rewrite <- H end.
    by apply redis_set_nx_exists_mono.
  - by repeat case_match.
  - unfold setTimeout. cbn [snd redis set_timer with_timers with_nextTimeout with_timeouts].
    rewrite broadcastToRoom_redis. by repeat case_match.
Qed.

Lemma submit_run_exists_mono env c p t k n : ∀ tw,
  redis_exists t k (redis tw.2) = true →
  redis_exists t k (redis (submit_run n env c p tw).2) = true.
Proof.
  induction n as [|n IH]; intros tw Hex; [done|].
  cbn [submit_run]. by apply IH, submit_resume_exists_mono.
Qed.

(** The first submission of a user puts the user into the answered set,
    whatever the choice and whatever follows. *)
Lemma submit_marks_answered env c p w t :
  active env c p w →
  answered (now env) (sp_roomId p) (sp_questionIndex p) (ws_userId c w) w = false →
  now env ≤ t < now env + CONFIG.REDIS_TTL * 1000 →
  answered t (sp_roomId p) (sp_questionIndex p) (ws_userId c w)
    (handleSubmitAnswer env c p w).2 = true.
Proof.
  intros Hact Hfirst Ht. unfold answered in Hfirst.
  assert (Hrun : answered t (sp_roomId p) (sp_questionIndex p) (ws_userId c w)
                   (submit_run 5 env c p (submit_begin env c p w)).2 = true).
  { rewrite submit_reads by done. unfold answered. apply submit_run_exists_mono.
    destruct (redis_get _ _ _) as [s'|] eqn:Hs.
    { apply redis_get_exists in Hs. congruence. }
    cbn [truthy_str]. rewrite redis_set_nx_free by done. cbn [snd redis with_redis].
    apply redis_exists_set_ex_eq. lia. }
  unfold handleSubmitAnswer. by destruct (submit_run _ _ _ _ _) as [[] ?].
Qed.

(** A first submission with a wrong choice only enters the answered set. *)
Lemma submit_wrong env c p w q :
  active env c p w →
  answered (now env) (sp_roomId p) (sp_questionIndex p) (ws_userId c w) w = false →
  cached_question (sp_roomId p) (sp_questionIndex p) w = Some q →
  correctIdx q ≠ sp_choiceIdx p →
  handleSubmitAnswer env c p w
  = (Ok tt, with_redis (redis_set_ex (now env)
                          (KAnswered (sp_roomId p) (sp_questionIndex p) (ws_userId c w)) "1"
                          CONFIG.REDIS_TTL (redis w)) w).
Proof.
  intros Hact Hfirst Hq Hwrong. unfold answered in Hfirst.
  unfold handleSubmitAnswer. rewrite submit_reads by done.
  destruct (redis_get _ _ _) as [s'|] eqn:Hs.
  { apply redis_get_exists in Hs. congruence. }
  cbn [truthy_str]. rewrite redis_set_nx_free by done.
  rewrite submit_run_step. cbn [submit_resume].
  replace (cached_question _ _ (with_redis _ w)) with (Some q) by done.
  rewrite decide_True by done. by rewrite submit_run_returned.
Qed.


(** The last stretch of a winning submission, after the transaction. *)
Lemma submit_finish env c p q committed w :
  let r := sp_roomId p in
  let i := sp_questionIndex p in
  let tw := submit_resume env c p (AwaitTransaction q committed) w in
  tw.1 = Returned RetCompleted
  ∧ redis tw.2 = redis w
  ∧ db tw.2 = db w
  ∧ questionsCache tw.2 = questionsCache w
  ∧ logs tw.2 = (if committed then [] else ["Database error recording answer"]) ++ logs w
  ∧ broadcasts tw.2 = (r, FEndQuestion i (correctIdx q) (Some (ws_userId c w))) :: broadcasts w
  ∧ timers tw.2
    = <[timerKey_next r i := {| timer := nextTimeout w; rt_questionIndex := i + 1;
                                rt_roomId := r |}]> (delete (timerKey_question r i) (timers w))
  ∧ timeouts tw.2 !! nextTimeout w
    = Some {| due := now env + CONFIG.NEXT_QUESTION_DELAY; callback := CbAdvance r i |}.
Proof.
  cbn zeta. cbn [submit_resume]. unfold setTimeout, set_timer.
  set (w1 := if committed then w else console_error _ w).
  set (w2 := match timers w1 !! _ with Some _ => _ | None => w1 end).
  assert (H1 : redis w1 = redis w ∧ db w1 = db w ∧ questionsCache w1 = questionsCache w
               ∧ timers w1 = timers w ∧ nextTimeout w1 = nextTimeout w
               ∧ broadcasts w1 = broadcasts w
               ∧ logs w1 = (if committed then [] else ["Database error recording answer"])
                           ++ logs w)
    by (subst w1; by destruct committed).
  destruct H1 as (Hr1 & Hd1 & Hq1 & Ht1 & Hn1 & Hb1 & Hl1).
  assert (H2 : redis w2 = redis w1 ∧ db w2 = db w1 ∧ questionsCache w2 = questionsCache w1
               ∧ timers w2 = delete (timerKey_question (sp_roomId p) (sp_questionIndex p))
                               (timers w1)
               ∧ nextTimeout w2 = nextTimeout w1 ∧ broadcasts w2 = broadcasts w1
               ∧ logs w2 = logs w1).
  { subst w2. destruct (timers w1 !! _) eqn:Hk; cbn; repeat split; try done.
    symmetry. by apply delete_id. }
  destruct H2 as (Hr2 & Hd2 & Hq2 & Ht2 & Hn2 & Hb2 & Hl2).
  cbn [fst snd redis db questionsCache logs broadcasts timers timeouts nextTimeout
       with_timers with_nextTimeout with_timeouts].
  rewrite broadcastToRoom_redis, broadcastToRoom_db, broadcastToRoom_questionsCache,
    broadcastToRoom_logs, broadcastToRoom_broadcasts, broadcastToRoom_timers,
    broadcastToRoom_nextTimeout.
  rewrite Hr2, Hr1, Hd2, Hd1, Hq2, Hq1, Hl2, Hl1, Hb2, Hb1, Ht2, Ht1, Hn2, Hn1.
  repeat split; try done. apply lookup_insert_eq.
Qed.

Lemma submit_finish_pair env c p q committed w :
  submit_resume env c p (AwaitTransaction q committed) w
  = (Returned RetCompleted, (submit_resume env c p (AwaitTransaction q committed) w).2).
Proof. reflexivity. Qed.

(** A first submission with the right choice when the question has no
    winner yet: the run reaches the transaction and the last stretch. *)
Lemma submit_right_first env c p w q :
  active env c p w →
  answered (now env) (sp_roomId p) (sp_questionIndex p) (ws_userId c w) w = false →
  cached_question (sp_roomId p) (sp_questionIndex p) w = Some q →
  correctIdx q = sp_choiceIdx p →
  has_winner (now env) (sp_roomId p) (sp_questionIndex p) w = false →
  let r := sp_roomId p in
  let i := sp_questionIndex p in
  let uid := ws_userId c w in
  let w2 := with_redis (redis_set_ex (now env) (KFirstUser r i) (pretty uid) CONFIG.REDIS_TTL
                          (redis_set_ex (now env) (KAnswered r i uid) "1" CONFIG.REDIS_TTL
                             (redis w))) w in
  handleSubmitAnswer env c p w
  = (Ok tt,
     match claim_transaction env r i uid (db w) with
     | Some d => (submit_resume env c p (AwaitTransaction q true) (with_db d w2)).2
     | None => (submit_resume env c p (AwaitTransaction q false) w2).2
     end).
Proof.
  intros Hact Hfirst Hq Hright Hwin. unfold answered in Hfirst. unfold has_winner in Hwin.
  cbn zeta. unfold handleSubmitAnswer. rewrite submit_reads by done.
  destruct (redis_get _ _ _) as [s'|] eqn:Hs.
  { apply redis_get_exists in Hs. congruence. }
  cbn [truthy_str]. rewrite redis_set_nx_free by done.
  rewrite submit_run_step. cbn [submit_resume].
  replace (cached_question _ _ (with_redis _ w)) with (Some q) by done.
  rewrite decide_False by (intros H; by apply H).
  cbn [redis with_redis].
  rewrite redis_set_nx_free by (by rewrite redis_exists_set_ex_ne).
  rewrite submit_run_step.
  match goal with |- context [submit_resume env c p (AwaitClaim q true) ?w0] =>
    replace (submit_resume env c p (AwaitClaim q true) w0)
      with (match claim_transaction env (sp_roomId p) (sp_questionIndex p) (ws_userId c w) (db w)
            with
            | Some d => (AwaitTransaction q true, with_db d w0)
            | None => (AwaitTransaction q false, w0)
            end) by done end.
  destruct (claim_transaction _ _ _ _ _) as [d|];
    rewrite submit_run_step, submit_finish_pair; reflexivity.
Qed.

Lemma active_after_answered env2 c p now1 k v w :
  (∀ r, k ≠ KParticipants r) → (∀ r, k ≠ KCurrentQuestion r) → (∀ r i, k ≠ KExpired r i) →
  active env2 c p w →
  active env2 c p (with_redis (redis_set_ex now1 k v CONFIG.REDIS_TTL (redis w)) w).
Proof.
  intros Hp Hc He (H1 & H2 & H3 & H4 & H5 & H6 & H7).
  unfold active, ws_userId in *. cbn [sockets redis with_redis].
  repeat split; try done; try lia.
  - by rewrite redis_sismember_set_ex_ne.
  - by rewrite redis_get_set_ex_ne.
  - by rewrite redis_exists_set_ex_ne.
Qed.

(** C3.  Take a submission that passes the checks of an active question
    (well-formed payload, socket in the room, user in the participant
    set, question current, expired flag not set).  If the user is not
    yet in the answered set of the question, the submission puts the
    user there, whatever the choice and whatever the outcome, and the
    user stays there for [REDIS_TTL].  If the user is in the answered
    set, the submission is ignored: the handler returns without error
    and the world is unchanged (no frame, no claim).  In particular,
    after a first submission with a wrong choice, a second one (with any
    choice, also the right one) within [REDIS_TTL] is ignored, and the
    two together change neither the store nor the broadcasts nor the
    frames on the wire nor the winner of the question. *)
Theorem first_answer_counts_later_ones_ignored env c p w :
  active env c p w →
  let r := sp_roomId p in
  let i := sp_questionIndex p in
  let uid := ws_userId c w in
  (answered (now env) r i uid w = false →
   ∀ t, now env ≤ t < now env + CONFIG.REDIS_TTL * 1000 →
        answered t r i uid (handleSubmitAnswer env c p w).2 = true)
  ∧ (answered (now env) r i uid w = true → handleSubmitAnswer env c p w = (Ok tt, w))
  ∧ (∀ q env2 choice2,
       answered (now env) r i uid w = false →
       cached_question r i w = Some q →
       correctIdx q ≠ sp_choiceIdx p →
       now env ≤ now env2 < now env + CONFIG.REDIS_TTL * 1000 →
       active env2 c (mk_submit r i choice2) w →
       let w1 := (handleSubmitAnswer env c p w).2 in
       handleSubmitAnswer env2 c (mk_submit r i choice2) w1 = (Ok tt, w1)
       ∧ db w1 = db w ∧ broadcasts w1 = broadcasts w ∧ wire w1 = wire w
       ∧ has_winner (now env2) r i w1 = has_winner (now env2) r i w).
Proof.
  intros Hact. cbn zeta. split; [|split].
  - intros Hfirst t Ht. by apply submit_marks_answered.
  - by apply submit_answered_ignored.
  - intros q env2 choice2 Hfirst Hq Hwrong Ht Hact2.
    rewrite (submit_wrong env c p w q) by done. cbn [snd].
    split; [|split; [done|split; [done|split; [done|]]]].
    + apply submit_answered_ignored.
      * by apply active_after_answered.
      * unfold answered, mk_submit. cbn [sp_roomId sp_questionIndex redis with_redis].
        apply redis_exists_set_ex_eq. lia.
    + unfold has_winner. cbn [redis with_redis]. by rewrite redis_exists_set_ex_ne.
Qed.

Ltac by_computation :=
  vm_compute; first [ reflexivity | discriminate | (intros ?; discriminate) ].

Ltac conj_by_computation :=
  repeat match goal with |- _ ∧ _ => split end; by_computation.

Lemma first_answer_witness :
  let w1 := (handleSubmitAnswer (at_time 6000) "c3" (mk_submit "R" 0 0) asking_0).2 in
  handleSubmitAnswer (at_time 6001) "c3" (mk_submit "R" 0 2) w1 = (Ok tt, w1)
  ∧ answered 6001 "R" 0 3 w1 = true
  ∧ has_winner 6001 "R" 0 w1 = false.
Proof.
  destruct (first_answer_counts_later_ones_ignored (at_time 6000) "c3" (mk_submit "R" 0 0)
              asking_0) as (Hmark & _ & Hwr).
  { unfold active; conj_by_computation. }
  destruct (Hwr (example_question 1) (at_time 6001) 2) as (Hign & _ & _ & _ & Hwin).
  - by_computation.
  - by_computation.
  - by_computation.
  - split; by_computation.
  - unfold active; conj_by_computation.
  - cbn zeta. split; [exact Hign|]. split.
    + apply Hmark; [by_computation|split; by_computation].
    + cbn zeta in Hwin. etrans; [exact Hwin|]. by_computation.
Defined.

(** ** Deadlines *)

Lemma handleNextQuestion_asks env roomId i w q :
  cached_question roomId i w = Some q →
  let w' := handleNextQuestion env roomId i w in
  broadcasts w'
  = (roomId, FNextQuestion i q (now env) (now env + CONFIG.QUESTION_TIME_LIMIT)) :: broadcasts w
  ∧ timeouts w' !! nextTimeout w
    = Some {| due := now env + CONFIG.QUESTION_TIME_LIMIT;
              callback := CbQuestionExpiry roomId i |}
  ∧ timers w' !! timerKey_question roomId i
    = Some {| timer := nextTimeout w; rt_questionIndex := i; rt_roomId := roomId |}.
Proof.
  intros Hq. cbn zeta. unfold handleNextQuestion, setTimeout, set_timer. rewrite Hq.
  cbn [broadcasts timeouts timers with_timers with_nextTimeout with_timeouts].
  rewrite broadcastToRoom_broadcasts, broadcastToRoom_nextTimeout.
  cbn [broadcasts nextTimeout with_redis].
  repeat split; apply lookup_insert_eq.
Qed.

Lemma handleQuestionExpiry_flags env roomId i w q :
  cached_question roomId i w = Some q →
  has_winner (now env) roomId i w = false →
  let w' := handleQuestionExpiry env roomId i w in
  (∀ t, now env ≤ t < now env + CONFIG.REDIS_TTL * 1000 →
        redis_exists t (KExpired roomId i) (redis w') = true)
  ∧ broadcasts w' = (roomId, FEndQuestion i (correctIdx q) None) :: broadcasts w.
Proof.
  intros Hq Hwin. unfold has_winner in Hwin. cbn zeta.
  unfold handleQuestionExpiry, setTimeout, set_timer. rewrite Hq, Hwin.
  cbn [broadcasts redis with_timers with_nextTimeout with_timeouts].
  rewrite broadcastToRoom_broadcasts, broadcastToRoom_redis.
  cbn [broadcasts redis with_redis]. split; [|done].
  intros t Ht. apply redis_exists_set_ex_eq. lia.
Qed.

(** A run that found the expired flag set writes nothing when it
    resumes, and throws. *)
Lemma submit_resume_refused env c p st w :
  refused_as_expired st = true →
  (submit_resume env c p st w).2 = w
  ∧ refused_as_expired (submit_resume env c p st w).1 = true.
Proof.
  destruct st as [b|cq ha hw [|]|b|q b|q b|at_|code msg]; try done.
  intros _. cbn [submit_resume]. by case_decide.
Qed.

Lemma submit_resume_saw_expired env c p cq ha hw w :
  submit_resume env c p (AwaitPipeline cq ha hw true) w
  = (if decide (cq = Some (pretty (sp_questionIndex p)))
     then Thrown 410 "Question has expired"
     else Thrown 409 "Question no longer active", w).
Proof. cbn [submit_resume]. by repeat case_decide. Qed.

(** The turns of such a run can be taken out of any schedule: the world
    at the end is the same. *)
Lemma play_all_without_run k : ∀ turns s1 s2,
  s1.1 = s2.1 →
  length s1.2 = length s2.2 →
  (∀ j, j ≠ k → s1.2 !! j = s2.2 !! j) →
  (∃ rn, s1.2 !! k = Some rn ∧ refused_as_expired (rn_state rn) = true) →
  (play_all s1 turns).1 = (play_all s2 (without_run k turns)).1
  ∧ ∃ rn', (play_all s1 turns).2 !! k = Some rn'
           ∧ refused_as_expired (rn_state rn') = true.
Proof.
  induction turns as [|t turns IH];
    intros [w1 pool1] [w2 pool2] Hw Hlen Hpool (rn & Hk & Hrn);
    cbn [fst snd] in Hw, Hlen, Hpool, Hk.
  { split; [done|]. by exists rn. }
  subst w2. unfold without_run.
  pose proof (lookup_lt_Some _ _ _ Hk) as Hklt.
  destruct t as [env c p|env j|env r i].
  - rewrite filter_cons_True by done. fold (without_run k turns).
    cbn [play_all foldl play]. destruct (submit_begin env c p w1) as [st w'].
    apply IH; cbn [fst snd].
    + done.
    + rewrite !length_app. cbn. lia.
    + intros j Hj. destruct (decide (j < length pool1)%nat).
      * rewrite !lookup_app_l by lia. by apply Hpool.
      * rewrite !lookup_app_r by lia. by rewrite Hlen.
    + exists rn. split; [by apply lookup_app_l_Some|done].
  - destruct (decide (j = k)) as [->|Hne].
    + rewrite filter_cons_False
        by (cbn [is_resume_of]; rewrite bool_decide_eq_true_2; done).
      fold (without_run k turns). cbn [play_all foldl play]. rewrite Hk.
      destruct (submit_resume_refused env (rn_conn rn) (rn_payload rn) (rn_state rn) w1 Hrn)
        as [Hw' Hst'].
      destruct (submit_resume env (rn_conn rn) (rn_payload rn) (rn_state rn) w1) as [st w'].
      cbn [fst snd] in Hw', Hst'. subst w'.
      apply IH; cbn [fst snd].
      * done.
      * by rewrite length_insert.
      * intros j Hj. rewrite list_lookup_insert_ne by done. by apply Hpool.
      * eexists. split; [by apply list_lookup_insert_eq|done].
    + rewrite filter_cons_True
        by (cbn [is_resume_of]; rewrite bool_decide_eq_false_2; done).
      fold (without_run k turns). cbn [play_all foldl play].
      rewrite <- (Hpool j Hne). destruct (pool1 !! j) as [rnj|] eqn:Hj.
      * destruct (submit_resume env (rn_conn rnj) (rn_payload rnj) (rn_state rnj) w1)
          as [st w'].
        pose proof (lookup_lt_Some _ _ _ Hj) as Hjlt.
        apply IH; cbn [fst snd].
        -- done.
        -- by rewrite !length_insert.
        -- intros j' Hj'. destruct (decide (j = j')) as [<-|Hjj].
           ++ rewrite !list_lookup_insert_eq by lia. done.
           ++ rewrite !list_lookup_insert_ne by done. by apply Hpool.
        -- exists rn. split; [by rewrite list_lookup_insert_ne|done].
      * apply IH; cbn [fst snd]; try done. by exists rn.
  - rewrite filter_cons_True by done. fold (without_run k turns).
    cbn [play_all foldl play]. apply IH; cbn [fst snd]; try done. by exists rn.
Qed.

(** C4 (as the server does it).  When question [i] is asked, the
    broadcast carries [expiresAt = startedAt + QUESTION_TIME_LIMIT] and
    the expiry timer is due at that instant; a timer does not fire
    before it is due.  When the expiry handler runs and the question
    has no winner, it sets the expired flag of the question (for
    [REDIS_TTL]) and broadcasts [endQuestion] without a winner.

    The answer handler never compares the clock with [expiresAt]: it
    reads the expired flag once, in the pipeline that reads the state
    of the question.  A run whose read finds the flag set is not
    counted: the read writes nothing, the run throws when it resumes
    (410 when its question is the current one, 409 otherwise) in
    whatever world it resumes, and in every schedule of submissions and
    expiries the world at the end is the one of the schedule without
    the turns of that run; so it does not add its sender to the
    answered set, claims nothing and moves no score.  In particular a
    handler that runs without interruption from a world in which the
    flag is set throws and leaves the world unchanged, with 410 when
    the other checks pass.

    A run whose read came before the flag was set is not stopped by it
    (see [answer_across_expiry_is_counted]). *)
Theorem deadline_enforced_by_expired_flag env roomId i w :
  (∀ q, cached_question roomId i w = Some q →
        let w' := handleNextQuestion env roomId i w in
        broadcasts w'
        = (roomId, FNextQuestion i q (now env) (now env + CONFIG.QUESTION_TIME_LIMIT))
          :: broadcasts w
        ∧ timeouts w' !! nextTimeout w
          = Some {| due := now env + CONFIG.QUESTION_TIME_LIMIT;
                    callback := CbQuestionExpiry roomId i |})
  ∧ (∀ h t, timeouts w !! h = Some t → now env < due t → fire_timeout env h w = w)
  ∧ (∀ q, cached_question roomId i w = Some q →
          has_winner (now env) roomId i w = false →
          let w' := handleQuestionExpiry env roomId i w in
          (∀ t, now env ≤ t < now env + CONFIG.REDIS_TTL * 1000 →
                redis_exists t (KExpired roomId i) (redis w') = true)
          ∧ broadcasts w' = (roomId, FEndQuestion i (correctIdx q) None) :: broadcasts w)
  ∧ (∀ c choice,
       redis_exists (now env) (KExpired roomId i) (redis w) = true →
       submit_resume env c (mk_submit roomId i choice) (AwaitSismember true) w
       = (AwaitPipeline
            (redis_get (now env) (KCurrentQuestion roomId) (redis w))
            (redis_get (now env) (KAnswered roomId i (ws_userId c w)) (redis w))
            (redis_exists (now env) (KFirstUser roomId i) (redis w))
            true, w))
  ∧ (∀ c choice currentQuestion hasAnswered hasWinner,
       submit_resume env c (mk_submit roomId i choice)
         (AwaitPipeline currentQuestion hasAnswered hasWinner true) w
       = (if decide (currentQuestion = Some (pretty i))
          then Thrown 410 "Question has expired"
          else Thrown 409 "Question no longer active", w))
  ∧ (∀ pool k rn turns,
       pool !! k = Some rn →
       saw_expired (rn_state rn) = true →
       let s' := play_all (w, pool) turns in
       s'.1 = (play_all (w, pool) (without_run k turns)).1
       ∧ ∃ rn', s'.2 !! k = Some rn' ∧ refused_as_expired (rn_state rn') = true)
  ∧ (∀ c choice,
       redis_exists (now env) (KExpired roomId i) (redis w) = true →
       ∃ code msg,
         handleSubmitAnswer env c (mk_submit roomId i choice) w = (Throw code msg, w))
  ∧ (∀ c choice,
       roomId ≠ "" →
       0 ≤ i < CONFIG.QUESTIONS_PER_QUIZ →
       0 ≤ choice ≤ 3 →
       sockets w !! c ≫= currentRoom = Some roomId →
       redis_sismember (now env) (KParticipants roomId) (pretty (ws_userId c w)) (redis w)
       = true →
       redis_get (now env) (KCurrentQuestion roomId) (redis w) = Some (pretty i) →
       redis_exists (now env) (KExpired roomId i) (redis w) = true →
       handleSubmitAnswer env c (mk_submit roomId i choice) w
       = (Throw 410 "Question has expired", w)).
Proof.
  split; [|split; [|split; [|split; [|split; [|split; [|split]]]]]].
  - intros q Hq. destruct (handleNextQuestion_asks env roomId i w q Hq) as (Hb & Ht & _).
    by split.
  - intros h t Hh Hdue. unfold fire_timeout. rewrite Hh. by rewrite decide_False by lia.
  - intros q Hq Hwin. by apply handleQuestionExpiry_flags.
  - intros c choice Hexp. cbn [submit_resume mk_submit sp_roomId sp_questionIndex].
    by rewrite Hexp.
  - intros c choice cq ha hw.
    apply (submit_resume_saw_expired env c (mk_submit roomId i choice)).
  - intros pool k rn turns Hk Hsaw. cbn zeta.
    apply play_all_without_run; cbn [fst snd]; try done.
    exists rn. split; [done|].
    destruct (rn_state rn) as [b|cq ha hw [|]|b|q b|q b|at_|code msg]; done.
  - intros c choice Hexp. by apply submit_expired_rejected.
  - intros c choice Hr Hi Hch Hroom Hmem Hcur Hexp.
    by apply (submit_expired_410 env c (mk_submit roomId i choice) w).
Qed.

Lemma deadline_witness :
  let w := fire_timeout (at_time 15020) 4%nat asking_0 in
  let reading := AwaitPipeline (Some "0") None false true in
  let pool := [ {| rn_conn := "c3"; rn_payload := mk_submit "R" 0 2; rn_state := reading |} ] in
  let turns := [ Arrive (at_time 15022) "c2" (mk_submit "R" 0 2);
                 Resume (at_time 15023) 0; Resume (at_time 15024) 1 ] in
  fire_timeout (at_time 15019) 4%nat asking_0 = asking_0
  ∧ redis_exists 15021 (KExpired "R" 0) (redis w) = true
  ∧ submit_resume (at_time 15021) "c3" (mk_submit "R" 0 2) (AwaitSismember true) w
    = (reading, w)
  ∧ submit_resume (at_time 15021) "c3" (mk_submit "R" 0 2) reading w
    = (Thrown 410 "Question has expired", w)
  ∧ (play_all (w, pool) turns).1 = (play_all (w, pool) (without_run 0 turns)).1
  ∧ handleSubmitAnswer (at_time 15021) "c3" (mk_submit "R" 0 2) w
    = (Throw 410 "Question has expired", w).
Proof.
  cbn zeta.
  destruct (deadline_enforced_by_expired_flag (at_time 15019) "R" 0 asking_0)
    as (_ & Hearly & _).
  destruct (deadline_enforced_by_expired_flag (at_time 15020) "R" 0
              (with_timeouts (delete 4%nat (timeouts asking_0)) asking_0))
    as (_ & _ & Hflag & _).
  destruct (deadline_enforced_by_expired_flag (at_time 15021) "R" 0
              (fire_timeout (at_time 15020) 4%nat asking_0))
    as (_ & _ & _ & Hread & Hthrow & Hplay & _ & H410).
  split; [|split; [|split; [|split; [|split]]]].
  - eapply Hearly; by_computation.
  - destruct (Hflag (example_question 1)) as [Hset _]; [by_computation..|].
    replace (fire_timeout (at_time 15020) 4%nat asking_0)
      with (handleQuestionExpiry (at_time 15020) "R" 0
              (with_timeouts (delete 4%nat (timeouts asking_0)) asking_0)).
    + apply Hset. split; by_computation.
    + by_computation.
  - etrans; [apply (Hread "c3" 2); by_computation|]. by_computation.
  - etrans; [apply (Hthrow "c3" 2)|]. by_computation.
  - eapply (Hplay _ 0%nat); reflexivity.
  - apply (H410 "c3" 2);
      [discriminate|unfold CONFIG.QUESTIONS_PER_QUIZ; lia|lia|by_computation..].
Defined.

(** C4 as stated fails.  Question 0 is announced with
    [expiresAt = 15020].  (1) User 2 wins at 14000, which cancels the
    expiry timer; at 15500, after [expiresAt], user 3 submits and is
    added to the answered set.  (2) Without a winner, a correct
    submission of user 3 handled at 15020, before the expiry handler
    has run, claims first-correct and raises the score of user 3. *)
Lemma deadline_counterexample :
  announced_expiry "R" 0 asking_0 = [15020]
  ∧ (let w := run example_parse asking_0 [(at_time 14000, InMessage "c2" "right0")] in
     let w' := run example_parse w [(at_time 15500, InMessage "c3" "right0")] in
     answered 15500 "R" 0 3 w = false ∧ answered 15500 "R" 0 3 w' = true)
  ∧ (let w' := run example_parse asking_0 [(at_time 15020, InMessage "c3" "right0")] in
     has_winner 15020 "R" 0 asking_0 = false ∧ has_winner 15020 "R" 0 w' = true
     ∧ score_of "R" 3 asking_0 = Some 0 ∧ score_of "R" 3 w' = Some 1
     ∧ answered 15020 "R" 0 3 w' = true).
Proof. unfold active; conj_by_computation. Qed.

(** The flag is read once.  A run that read the state of question 0
    before the expiry handler ran is not stopped by the flag that the
    expiry handler sets: resumed after it, the run adds user 3 to the
    answered set, claims first-correct, raises the score of user 3 and
    broadcasts [endQuestion] naming user 3, after the [endQuestion]
    without a winner. *)
Example answer_across_expiry_is_counted :
  let s := play_all (asking_0, []) answer_across_expiry in
  let before := play_all (asking_0, []) (take 3 answer_across_expiry) in
  redis_exists 15021 (KExpired "R" 0) (redis before.1) = true
  ∧ (rn_state <$> before.2) = [AwaitPipeline (Some "0") None false false]
  ∧ answered 15021 "R" 0 3 before.1 = false
  ∧ (rn_state <$> s.2) = [Returned RetCompleted]
  ∧ answered 15024 "R" 0 3 s.1 = true
  ∧ has_winner 15024 "R" 0 s.1 = true
  ∧ score_of "R" 3 s.1 = Some 1
  ∧ take 2 (broadcasts s.1)
    = [ ("R", FEndQuestion 0 2 (Some 3)); ("R", FEndQuestion 0 2 None) ].
Proof. cbv zeta. conj_by_computation. Qed.

(** ** A failing store during a winning claim *)

(** C9 (as the server does it).  When the transaction that records a
    winning claim fails, the failure is logged and nothing is written to
    the store; the handler then goes on as after a recorded claim: it
    broadcasts [endQuestion] naming the winner and arms the
    next-question timer.  The room is left as it is (its questions stay
    cached and its current question stays set), no [quizFinished] is
    broadcast, and the transaction is not tried again. *)
Theorem claim_failure_logged_quiz_continues env c p w q :
  active env c p w →
  let r := sp_roomId p in
  let i := sp_questionIndex p in
  let uid := ws_userId c w in
  answered (now env) r i uid w = false →
  cached_question r i w = Some q →
  correctIdx q = sp_choiceIdx p →
  has_winner (now env) r i w = false →
  claim_transaction env r i uid (db w) = None →
  let w' := (handleSubmitAnswer env c p w).2 in
  (handleSubmitAnswer env c p w).1 = Ok tt
  ∧ logs w' = "Database error recording answer" :: logs w
  ∧ db w' = db w
  ∧ broadcasts w' = (r, FEndQuestion i (correctIdx q) (Some uid)) :: broadcasts w
  ∧ questionsCache w' = questionsCache w
  ∧ (∀ t, redis_get t (KCurrentQuestion r) (redis w')
          = redis_get t (KCurrentQuestion r) (redis w))
  ∧ timers w' !! timerKey_next r i
    = Some {| timer := nextTimeout w; rt_questionIndex := i + 1; rt_roomId := r |}
  ∧ timeouts w' !! nextTimeout w
    = Some {| due := now env + CONFIG.NEXT_QUESTION_DELAY; callback := CbAdvance r i |}.
Proof.
  intros Hact. cbn zeta. intros Hfirst Hq Hright Hwin Hfail.
  rewrite (submit_right_first env c p w q) by done. cbn zeta. rewrite Hfail. cbn [fst snd].
  match goal with |- context [submit_resume env c p (AwaitTransaction q false) ?w0] =>
    destruct (submit_finish env c p q false w0) as (_ & Hr & Hd & Hqc & Hl & Hb & Ht & Hto)
  end.
  rewrite Hr, Hd, Hqc, Hl, Hb, Ht.
  cbn [redis db questionsCache logs broadcasts timers nextTimeout with_redis] in *.
  split; [done|]. split; [done|]. split; [done|]. split; [done|]. split; [done|].
  split; [|split; [apply lookup_insert_eq|exact Hto]].
  intros t. by rewrite !redis_get_set_ex_ne.
Qed.

Lemma claim_failure_witness :
  let w' := (handleSubmitAnswer (claim_fails_at 6000) "c2" (mk_submit "R" 0 2) asking_0).2 in
  logs w' = ["Database error recording answer"]
  ∧ db w' = db asking_0
  ∧ head (broadcasts w') = Some ("R", FEndQuestion 0 2 (Some 2)).
Proof.
  destruct (claim_failure_logged_quiz_continues (claim_fails_at 6000) "c2"
              (mk_submit "R" 0 2) asking_0 (example_question 1))
    as (_ & Hl & Hd & Hb & _).
  - unfold active; conj_by_computation.
  - by_computation.
  - by_computation.
  - by_computation.
  - by_computation.
  - by_computation.
  - cbn zeta in *. split; [|split].
    + rewrite Hl. by_computation.
    + exact Hd.
    + rewrite Hb. by_computation.
Defined.

(** C9 as stated fails: the claim of user 2 on question 0 cannot be
    recorded; the server broadcasts [endQuestion] with user 2 as winner
    and arms the timer of the next question; the room keeps its
    questions and its current question, and no [quizFinished] is
    broadcast. *)
Lemma claim_failure_counterexample :
  let w' := run example_parse asking_0 [(claim_fails_at 6000, InMessage "c2" "right0")] in
  logs w' = ["Database error recording answer"]
  ∧ head (broadcasts w') = Some ("R", FEndQuestion 0 2 (Some 2))
  ∧ filter (λ b, is_quizFinished b = true) (broadcasts w') = []
  ∧ is_Some (questionsCache w' !! "R")
  ∧ redis_get 6000 (KCurrentQuestion "R") (redis w') = Some "0"
  ∧ callback <$> timeouts w' !! 5%nat = Some (CbAdvance "R" 0).
Proof.
  cbn zeta. split; [by_computation|]. split; [by_computation|]. split; [by_computation|].
  split; [|split; by_computation].
  vm_compute. eexists. reflexivity.
Qed.

(** ** Concurrent submissions: the first correct answer *)











(** *** What one turn of a handler does to the race *)









Section Race.
Context (roomId : string) (i : Z) (lo hi : Z) (W0 : nat).
Hypothesis window : hi ≤ lo + CONFIG.REDIS_TTL * 1000.


End Race.

Section Round.
Context (roomId : string) (i : Z) (lo hi : Z) (W0 : nat).
Hypothesis window : hi ≤ lo + CONFIG.REDIS_TTL * 1000.



End Round.



(** *** Who is named as the winner *)

#[global] Instance same_users_preorder : PreOrder same_users.
Proof.
  split; [by intros w c|].
  intros w1 w2 w3 H12 H23 c. by rewrite H23, H12.
Qed.

#[global] Instance broadcasts_grow_preorder : PreOrder broadcasts_grow.
Proof.
  split; [by intros w; exists []|].
  intros w1 w2 w3 [l1 H12] [l2 H23]. exists (l2 ++ l1). by rewrite H23, H12, app_assoc.
Qed.













(** Users 2 and 3 both send the right choice for question 0 and their
    handlers interleave: user 2 reaches the winner key first, is named in
    the one [endQuestion] broadcast, holds the one claim row and scores;
    user 3's handler returns without a reply and without a score. *)
Example two_right_answers_outcome :
  let s := play_all (asking_0, []) two_right_answers in
  head (broadcasts s.1) = Some ("R", FEndQuestion 0 2 (Some 2))
  ∧ ((λ rn, (rn_conn rn, rn_state rn)) <$> s.2)
      = [("c2", Returned RetCompleted); ("c3", Returned RetLostClaim)]
  ∧ (ac_userId <$> answerClaims (db s.1)) = [2]
  ∧ score_of "R" 2 s.1 = Some 1
  ∧ score_of "R" 3 s.1 = Some 0.
Proof. cbv zeta. conj_by_computation. Qed.

(** ** The end of a quiz *)

Lemma delete_all_lookup {V} (keys : list string) : ∀ (m : gmap string V) key,
  foldl (λ m k, delete k m) m keys !! key
  = if decide (key ∈ keys) then None else m !! key.
Proof.
  induction keys as [|k keys IH]; intros m key; cbn [foldl].
  - rewrite decide_False; [done|]. apply not_elem_of_nil.
  - rewrite IH. destruct (decide (key ∈ keys)) as [Hin|Hnin].
    + rewrite decide_True; [done|]. by right.
    + destruct (decide (key = k)) as [->|Hne].
      * rewrite decide_True by by left. apply lookup_delete_eq.
      * rewrite decide_False; [by apply lookup_delete_ne|].
        intros Hin. apply elem_of_cons in Hin as [?|?]; done.
Qed.

Lemma redis_del_lookup ks : ∀ (r : gmap RKey REntry) k,
  k ∈ ks → redis_del ks r !! k = None.
Proof.
  induction ks as [|k' ks IH]; intros r k Hk; [by apply elem_of_nil in Hk|].
  cbn [redis_del foldr]. fold (redis_del ks r).
  destruct (decide (k = k')) as [->|Hne]; [apply lookup_delete_eq|].
  rewrite lookup_delete_ne by done. apply IH.
  apply elem_of_cons in Hk as [?|?]; done.
Qed.

(** What [cleanupRoomData] removes: the question cache entry of the
    room, every entry of [timers] whose key starts with the room id and
    a colon, and the Redis keys it lists. *)
Lemma cleanupRoomData_clears roomId w :
  let w' := cleanupRoomData roomId w in
  questionsCache w' !! roomId = None
  ∧ (∀ key, String.prefix (roomId +:+ ":") key = true → timers w' !! key = None)
  ∧ (∀ t k, k ∈ keysToDelete roomId → redis_exists t k (redis w') = false).
Proof.
  cbn zeta. unfold cleanupRoomData.
  cbn [questionsCache timers redis with_redis with_questionsCache].
  match goal with |- context [foldl ?f ?w1 ?keys] =>
    assert (Hfold : ∀ ks w0, questionsCache (foldl f w0 ks) = questionsCache w0
                             ∧ timers (foldl f w0 ks) = foldl (λ m k, delete k m) (timers w0) ks
                             ∧ redis (foldl f w0 ks) = redis w0);
    [|destruct (Hfold keys w1) as (Hq & Ht & Hr)] end.
  { induction ks as [|k ks IH]; intros w0; cbn [foldl]; [done|].
    destruct (IH (match timers w0 !! k with
                  | Some roomTimer =>
                      with_timers (delete k (timers w0)) (clearTimeout (timer roomTimer) w0)
                  | None => w0
                  end)) as (-> & -> & ->).
    destruct (timers w0 !! k) eqn:Hk; cbn; [done|].
    by rewrite delete_id. }
  rewrite Hq, Ht, Hr. cbn [questionsCache timers redis with_questionsCache].
  split; [apply lookup_delete_eq|]. split.
  - intros key Hpre. rewrite delete_all_lookup. case_decide as Hin; [done|].
    destruct (timers w !! key) as [rt|] eqn:Hkey; [|done].
    exfalso. apply Hin. apply list_elem_of_filter. split; [done|].
    apply list_elem_of_fmap. exists (key, rt). split; [done|].
    by apply elem_of_map_to_list.
  - intros t k Hk. unfold redis_exists, redis_lookup. by rewrite redis_del_lookup.
Qed.

Lemma handleQuizFinished_clears env roomId w :
  let w' := handleQuizFinished env roomId w in
  questionsCache w' !! roomId = None
  ∧ (∀ key, String.prefix (roomId +:+ ":") key = true → timers w' !! key = None)
  ∧ (∀ t k, k ∈ keysToDelete roomId → redis_exists t k (redis w') = false).
Proof.
  cbn zeta. unfold handleQuizFinished.
  case_match; [apply cleanupRoomData_clears|].
  destruct (compute_standings _ _ _) as [[standings|] w1]; apply cleanupRoomData_clears.
Qed.

(** After the end of a quiz a new [startQuiz] is not refused as already
    running. *)
Lemma handleStartQuiz_after_finish env0 env c roomId w :
  (handleStartQuiz env c roomId (handleQuizFinished env0 roomId w)).1
  ≠ Throw 409 "Quiz already in progress".
Proof.
  destruct (handleQuizFinished_clears env0 roomId w) as (_ & _ & Hkeys).
  set (w' := handleQuizFinished env0 roomId w) in *.
  assert (Hcq : redis_get (now env) (KCurrentQuestion roomId) (redis w') = None).
  { specialize (Hkeys (now env) (KCurrentQuestion roomId) ltac:(by left)).
    destruct (redis_get _ _ _) eqn:Hget; [|done].
    apply redis_get_exists in Hget. congruence. }
  unfold handleStartQuiz, bind, read, modify, throw.
  repeat first [case_decide | case_match]; cbn; try done.
  all: simplify_eq; try done.
  all: try (intros Heq; congruence).
Qed.

(** C10 at a failing input.  A whole quiz runs in room R; user 3 answers
    question 0 (wrongly) at 6000 and the quiz finishes at 126500.  Its
    end removes the question cache, the current question and the winner
    key of question 0, but the answered key of user 3 for question 0
    stays in Redis.  User 3 joins again, the host starts a second quiz,
    question 0 is asked again and has no winner; user 3 passes every
    check of an active question and sends the right choice at 133000:
    the submission is dropped as a duplicate, nothing is broadcast,
    nothing is written and the question still has no winner. *)
Theorem answered_keys_survive_quiz_end :
  let w1 := run example_parse (initial example_db) first_quiz in
  let w2 := run example_parse (initial example_db) second_quiz in
  let w3 := run example_parse w2 [(at_time 133000, InMessage "c3" "right0")] in
  (is_quizFinished <$> head (broadcasts w1)) = Some true
  ∧ questionsCache w1 !! "R" = None
  ∧ redis_get 126500 (KCurrentQuestion "R") (redis w1) = None
  ∧ has_winner 126500 "R" 0 w1 = false
  ∧ answered 126500 "R" 0 3 w1 = true
  ∧ active (at_time 133000) "c3" (mk_submit "R" 0 2) w2
  ∧ cached_question "R" 0 w2 = Some (example_question 1)
  ∧ has_winner 133000 "R" 0 w2 = false
  ∧ answered 133000 "R" 0 3 w2 = true
  ∧ broadcasts w3 = broadcasts w2
  ∧ wire w3 = wire w2
  ∧ db w3 = db w2
  ∧ has_winner 133000 "R" 0 w3 = false.
Proof.
  cbn zeta. unfold active. conj_by_computation.
Qed.

(** ** What the inputs of the server do to the registry, the rate map and the store *)

#[global] Instance keeps_preorder (I : World → Prop) : PreOrder (keeps I).
Proof. split; unfold keeps; [intros w; tauto|intros w1 w2 w3; tauto]. Qed.

Lemma cleanupRoomData_rateLimitMap roomId w :
  rateLimitMap (cleanupRoomData roomId w) = rateLimitMap w.
Proof.
  unfold cleanupRoomData. cbn [rateLimitMap with_redis].
  match goal with |- rateLimitMap (foldl ?f ?w1 ?l) = _ =>
    assert (Hfold : ∀ xs w0, rateLimitMap (foldl f w0 xs) = rateLimitMap w0) end.
  { intros xs. induction xs as [|k xs IH]; intros w0; cbn [foldl]; [done|].
    rewrite IH. by case_match. }
  by rewrite Hfold.
Qed.

(** The outcomes of the join transaction. *)
Lemma join_transaction_cases c roomId w :
  (∃ code msg, join_transaction c roomId w = (Throw code msg, w))
  ∨ (∃ room,
       rooms (db w) !! roomId = Some room ∧ isActive room = true
       ∧ Z.of_nat (length (room_participants roomId (db w))) < maxPlayers room
       ∧ (∀ p, participant_findFirst (ws_userId c w) (db w) = Some p → rp_roomId p = roomId)
       ∧ join_transaction c roomId w
         = (Ok tt, with_db (participant_upsert roomId (ws_userId c w) (db w)) w)).
Proof.
  unfold join_transaction.
  destruct (rooms (db w) !! roomId) as [[name host [|] maxp]|] eqn:Hroom; [|left; eauto..].
  case_decide as Hfull; [left; eauto|].
  destruct (participant_findFirst _ _) as [existing|] eqn:Hfirst.
  - case_decide as Hother; [left; eauto|].
    right. eexists. split; [done|]. split; [done|]. split; [cbn; lia|]. split; [|done].
    intros p Hp. apply (inj Some) in Hp as <-.
    by destruct (decide (rp_roomId existing = roomId)).
  - right. eexists. split; [done|]. split; [done|]. split; [cbn; lia|]. split; [|done].
    intros p Hp. done.
Qed.

Section Footprint.
Context (R : World → World → Prop) `{!PreOrder R}.
Hypothesis R_frame : ∀ w w',
  userConnections w' = userConnections w → rateLimitMap w' = rateLimitMap w →
  db w' = db w → R w w'.
Hypothesis R_cleanup : ∀ c w, R w (cleanupConnection c w).
Hypothesis R_db : ∀ w d', db_op (db w) d' → R w (with_db d' w).
Hypothesis R_rate : ∀ t u w,
  R w (with_rateLimitMap (checkRateLimit t u (rateLimitMap w)).2 w).
Hypothesis R_connect : ∀ env c h w, R w (on_connection env c h w).
Hypothesis R_sweep : ∀ env w, R w (cleanupStaleData env w).

Ltac fp_peel :=
  etrans;
  [|apply R_frame;
    cbn [userConnections rateLimitMap db set_timer console_error
         with_sockets with_roomSockets with_questionsCache with_timers
         with_connectionCleanup with_timeouts with_nextTimeout with_spawned
         with_redis with_wire with_broadcasts with_logs];
    reflexivity].

Lemma fp_sendResponse c f w : R w (sendResponse c f w).
Proof. apply R_frame; unfold sendResponse; by case_match. Qed.

Lemma fp_broadcastToRoom roomId f w : R w (broadcastToRoom roomId f w).
Proof.
  unfold broadcastToRoom. cbn [roomSockets with_broadcasts].
  destruct (roomSockets w !! roomId) as [socks|]; [|by apply R_frame].
  case_decide; [by apply R_frame|].
  match goal with |- R _ (foldl ?f ?w1 ?l) =>
    assert (Hfold : ∀ xs w0, R w0 (foldl f w0 xs)) end.
  { intros xs. induction xs as [|c xs IH]; intros w0; cbn [foldl]; [reflexivity|].
    etrans; [|apply IH]. etrans; [|apply R_cleanup]. by apply R_frame. }
  etrans; [|apply Hfold]. by apply R_frame.
Qed.

Lemma fp_cleanupRoomData roomId w : R w (cleanupRoomData roomId w).
Proof.
  apply R_frame.
  - apply cleanupRoomData_userConnections.
  - apply cleanupRoomData_rateLimitMap.
  - apply cleanupRoomData_db.
Qed.

Lemma fp_leaveRoom_body env c roomId w : R w (leaveRoom_body env c roomId w).
Proof.
  unfold leaveRoom_body. case_match; [by apply R_frame|].
  etrans; [|apply fp_broadcastToRoom]. fp_peel.
  etrans; [apply (R_db w), (db_leave _ roomId (ws_userId c w))|].
  cbn [roomSockets with_redis with_db].
  destruct (roomSockets w !! roomId); [|by apply R_frame].
  case_decide; [|by apply R_frame].
  etrans; [|apply fp_cleanupRoomData]. by apply R_frame.
Qed.

Lemma fp_handleLeaveRoom env c payload w : R w (handleLeaveRoom env c payload w).
Proof. unfold handleLeaveRoom. case_match; [apply fp_leaveRoom_body|reflexivity]. Qed.

Lemma fp_join_transaction c roomId : M_rel R (join_transaction c roomId).
Proof.
  intros w. destruct (join_transaction_cases c roomId w)
    as [(code & msg & ->)|(room & Hroom & Hact & Hlen & Hone & ->)]; [reflexivity|].
  apply R_db. by eapply db_join.
Qed.

Ltac fp_step :=
  first
    [ apply M_rel_bind; [apply _| |intros ?]
    | apply M_rel_throw; apply _
    | apply M_rel_read; apply _
    | apply M_rel_ret; apply _
    | apply fp_join_transaction
    | apply M_rel_modify; intros ?;
      first [ apply fp_broadcastToRoom | apply fp_sendResponse | by apply R_frame ] ].

Lemma fp_handleJoinRoom env c roomId : M_rel R (handleJoinRoom env c roomId).
Proof. unfold handleJoinRoom. repeat first [ case_decide | case_match | fp_step ]. Qed.

Lemma fp_handleStartQuiz env c roomId : M_rel R (handleStartQuiz env c roomId).
Proof.
  unfold handleStartQuiz. repeat first [ case_decide | case_match | fp_step ].
Qed.

Lemma fp_submit_begin env c p w : R w (submit_begin env c p w).2.
Proof. unfold submit_begin. repeat case_decide; reflexivity. Qed.

Lemma fp_submit_resume env c p t w : R w (submit_resume env c p t w).2.
Proof.
  destruct t as [isParticipant|cq ha hw ie|setResult|q claimResult|q committed|at_|code msg];
    cbn [submit_resume].
  - destruct isParticipant; reflexivity.
  - repeat first [case_decide | case_match]; simplify_eq; try reflexivity. by apply R_frame.
  - repeat first [case_decide | case_match]; simplify_eq; try reflexivity. by apply R_frame.
  - destruct claimResult; [|reflexivity].
    destruct (claim_transaction _ _ _ _ _) as [d|] eqn:Hclaim; [|reflexivity].
    apply R_db. by eapply db_claim.
  - unfold setTimeout. cbn [snd].
    fp_peel.
    etrans; [|apply fp_broadcastToRoom].
    apply R_frame; destruct committed; by case_match.
  - reflexivity.
  - reflexivity.
Qed.

Lemma fp_submit_run env c p n : ∀ tw, R tw.2 (submit_run n env c p tw).2.
Proof.
  induction n as [|n IH]; intros tw; cbn [submit_run]; [reflexivity|].
  etrans; [|apply IH]. apply fp_submit_resume.
Qed.

Lemma fp_handleSubmitAnswer env c p : M_rel R (handleSubmitAnswer env c p).
Proof.
  intros w. unfold handleSubmitAnswer.
  pose proof (fp_submit_run env c p 5 (submit_begin env c p w)) as Hrun.
  pose proof (fp_submit_begin env c p w) as Hbegin.
  destruct (submit_run 5 env c p (submit_begin env c p w)) as [t w'].
  assert (R w w') by (etrans; [exact Hbegin|exact Hrun]).
  by destruct t.
Qed.

Lemma fp_handleMessage env c m : M_rel R (handleMessage env c m).
Proof.
  intros w. unfold handleMessage. case_match; [|reflexivity].
  destruct m.
  - apply fp_handleJoinRoom.
  - apply fp_handleStartQuiz.
  - apply fp_handleSubmitAnswer.
  - apply fp_handleLeaveRoom.
Qed.

Lemma fp_handleNextQuestion env roomId i w : R w (handleNextQuestion env roomId i w).
Proof.
  unfold handleNextQuestion, setTimeout. case_match; [|by apply R_frame].
  fp_peel.
  etrans; [|apply fp_broadcastToRoom]. by apply R_frame.
Qed.

Lemma fp_handleQuestionExpiry env roomId i w : R w (handleQuestionExpiry env roomId i w).
Proof.
  unfold handleQuestionExpiry, setTimeout. case_match; [|reflexivity].
  case_match; [reflexivity|].
  fp_peel.
  etrans; [|apply fp_broadcastToRoom]. by apply R_frame.
Qed.

Lemma fp_standing_for env p user w : R w (standing_for env p user w).2.
Proof.
  unfold standing_for. case_match; [by apply R_frame|].
  pose proof (R_db w _ (db_rating (db w) p)) as Hr.
  destruct (rating_transaction p (db w)) as [newRating d']. cbn [snd] in Hr.
  destruct user; cbn [snd]; [done|].
  etrans; [exact Hr|]. by apply R_frame.
Qed.

Lemma fp_compute_standings env ps : ∀ w, R w (compute_standings env ps w).2.
Proof.
  induction ps as [|[p user] ps IH]; intros w; cbn [compute_standings]; [reflexivity|].
  pose proof (fp_standing_for env p user w) as Hs.
  destruct (standing_for env p user w) as [s w1].
  specialize (IH w1). destruct (compute_standings env ps w1) as [rest w2].
  cbn [snd] in *. by etrans.
Qed.

Lemma fp_handleQuizFinished env roomId w : R w (handleQuizFinished env roomId w).
Proof.
  unfold handleQuizFinished. case_match.
  { etrans; [|apply fp_cleanupRoomData]. by apply R_frame. }
  pose proof (fp_compute_standings env (standings_query roomId (db w)) w) as Hc.
  destruct (compute_standings env _ w) as [standings w1]. cbn [snd] in Hc.
  destruct standings.
  - etrans; [exact Hc|]. etrans; [|apply fp_cleanupRoomData]. apply fp_broadcastToRoom.
  - etrans; [exact Hc|]. etrans; [|apply fp_cleanupRoomData]. by apply R_frame.
Qed.

Lemma fp_run_callback env cb w : R w (run_callback env cb w).
Proof.
  destruct cb; cbn [run_callback].
  - apply R_cleanup.
  - apply fp_handleNextQuestion.
  - apply fp_handleQuestionExpiry.
  - case_decide; [apply fp_handleNextQuestion|apply fp_handleQuizFinished].
Qed.

Lemma fp_fire_timeout env h w : R w (fire_timeout env h w).
Proof.
  unfold fire_timeout. case_match; [|reflexivity]. case_decide; [|reflexivity].
  etrans; [|apply fp_run_callback]. by apply R_frame.
Qed.

Lemma fp_on_close c w : R w (on_close c w).
Proof.
  unfold on_close. case_match; [|by apply R_frame].
  etrans; [|apply R_cleanup]. by apply R_frame.
Qed.

Lemma fp_on_error c w : R w (on_error c w).
Proof. unfold on_error. case_match; [apply R_cleanup|reflexivity]. Qed.

Lemma fp_on_message parse env c data w : R w (on_message parse env c data w).
Proof.
  unfold on_message. case_match; [|reflexivity].
  match goal with |- context [checkRateLimit ?t ?u ?m] => pose proof (R_rate t u w) as Hrate end.
  destruct (checkRateLimit _ _ _) as [admitted m]. cbn [snd] in Hrate.
  etrans; [exact Hrate|].
  destruct admitted; [|apply fp_sendResponse].
  case_decide; [apply fp_sendResponse|].
  destruct (parse data) as [| |message].
  - apply fp_sendResponse.
  - etrans; [|apply fp_sendResponse]. by apply R_frame.
  - pose proof (fp_handleMessage env c message (with_rateLimitMap m w)) as Hm.
    destruct (handleMessage env c message _) as [[[]|code msg] w2]; cbn [snd] in Hm.
    + exact Hm.
    + etrans; [exact Hm|]. apply fp_sendResponse.
Qed.

Lemma fp_dispatch parse env i w : R w (dispatch parse env i w).
Proof.
  destruct i; cbn [dispatch].
  - apply R_connect.
  - apply fp_on_message.
  - apply fp_on_close.
  - apply fp_on_error.
  - apply fp_fire_timeout.
  - destruct (spawned w) as [|[c roomId] rest]; [reflexivity|].
    etrans; [|apply fp_leaveRoom_body]. by apply R_frame.
  - apply R_sweep.
Qed.

Lemma fp_run parse trace : ∀ w, R w (run parse w trace).
Proof.
  induction trace as [|[env i] trace IH]; intros w; [reflexivity|].
  cbn [run foldl]. etrans; [apply fp_dispatch|]. apply IH.
Qed.

End Footprint.

(** ** Invariants of the relational store *)

Lemma on_connection_db env c h w : db (on_connection env c h w) = db w.
Proof.
  unfold on_connection, ws_close, sendError, sendResponse, setTimeout.
  repeat first [case_decide | case_match]; reflexivity.
Qed.

Lemma on_connection_rateLimitMap env c h w :
  rateLimitMap (on_connection env c h w) = rateLimitMap w.
Proof.
  unfold on_connection, ws_close, sendError, sendResponse, setTimeout.
  repeat first [case_decide | case_match]; reflexivity.
Qed.

#[global] Instance db_evolves_preorder : PreOrder db_evolves.
Proof. unfold db_evolves. apply _. Qed.

#[global] Instance db_evolves_world_preorder :
  PreOrder (λ w w' : World, db_evolves (db w) (db w')).
Proof.
  split.
  - intros w. reflexivity.
  - intros w1 w2 w3 H12 H23. by etrans.
Qed.

(** Every input of the server takes the store to a store that the four
    transactions reach. *)
Lemma run_db_evolves parse trace w : db_evolves (db w) (db (run parse w trace)).
Proof.
  apply (fp_run (λ w w' : World, db_evolves (db w) (db w'))).
  - intros w0 w' _ _ Hdb. rewrite Hdb. reflexivity.
  - intros c w0. replace (db (cleanupConnection c w0)) with (db w0); [reflexivity|].
    symmetry. apply cleanupConnection_core.
  - intros w0 d' Hop. cbn [db with_db]. by apply rtc_once.
  - intros t u w0. reflexivity.
  - intros env c h w0. rewrite on_connection_db. reflexivity.
  - intros env w0. reflexivity.
Qed.

Lemma increment_score_spec roomId uid rows : ∀ rows',
  increment_score roomId uid rows = Some rows' →
  ∃ l1 p l2,
    rows = l1 ++ p :: l2
    ∧ rows' = l1 ++ {| rp_roomId := rp_roomId p; rp_userId := rp_userId p;
                       score := score p + 1 |} :: l2
    ∧ rp_roomId p = roomId ∧ rp_userId p = uid.
Proof.
  induction rows as [|q rows IH]; intros rows' Hinc; [done|].
  cbn [increment_score] in Hinc.
  destruct (is_participant_row roomId uid q) eqn:Hq.
  - apply (inj Some) in Hinc as <-. exists [], q, rows.
    apply bool_decide_eq_true in Hq as [? ?]. done.
  - destruct (increment_score roomId uid rows) as [rows0|]; [|done].
    cbn in Hinc. apply (inj Some) in Hinc as <-.
    destruct (IH rows0 eq_refl) as (l1 & p & l2 & -> & -> & ? & ?).
    exists (q :: l1), p, l2. done.
Qed.

(** What a committed claim writes: one claim row at the end of the
    table, and one added to the score of the claimant's row. *)
Lemma claim_transaction_spec env roomId i uid d d' :
  claim_transaction env roomId i uid d = Some d' →
  ∃ claim l1 p l2,
    ac_roomId claim = roomId ∧ ac_questionIndex claim = i ∧ ac_userId claim = uid
    ∧ roomParticipants d = l1 ++ p :: l2
    ∧ rp_roomId p = roomId ∧ rp_userId p = uid
    ∧ d' = with_roomParticipants
             (l1 ++ {| rp_roomId := rp_roomId p; rp_userId := rp_userId p;
                       score := score p + 1 |} :: l2)
             (with_answerClaims (answerClaims d ++ [claim]) d).
Proof.
  unfold claim_transaction. case_match; [done|].
  unfold answerClaim_create. cbn [ac_roomId ac_questionIndex].
  case_match; [done|]. cbn [mbind option_bind roomParticipants with_answerClaims].
  destruct (increment_score roomId uid (roomParticipants d)) as [rows|] eqn:Hinc; [|done].
  intros Heq. apply (inj Some) in Heq as <-.
  destruct (increment_score_spec _ _ _ _ Hinc) as (l1 & p & l2 & Hrows & -> & ? & ?).
  eexists _, l1, p, l2. repeat split; try done.
Qed.

Lemma db_op_tables d d' :
  db_op d d' →
  users d' = users d ∧ rooms d' = rooms d ∧ questions d' = questions d.
Proof.
  intros [roomId uid room _ _ _ _|roomId uid|env roomId i uid d1 Hclaim|p].
  - unfold participant_upsert. by case_match.
  - done.
  - destruct (claim_transaction_spec _ _ _ _ _ _ Hclaim)
      as (claim & l1 & p & l2 & _ & _ & _ & _ & _ & _ & ->). done.
  - done.
Qed.

Lemma db_evolves_tables d d' :
  db_evolves d d' →
  users d' = users d ∧ rooms d' = rooms d ∧ questions d' = questions d.
Proof.
  induction 1 as [|d1 d2 d3 Hop _ (Hu & Hr & Hq)]; [done|].
  destruct (db_op_tables _ _ Hop) as (Hu' & Hr' & Hq'). repeat split; congruence.
Qed.

Lemma rows_of_user_app uid l1 l2 d :
  roomParticipants d = l1 ++ l2 →
  rows_of_user uid d = filter (λ p, rp_userId p = uid) l1 ++ filter (λ p, rp_userId p = uid) l2.
Proof. intros Hd. unfold rows_of_user. by rewrite Hd, filter_app. Qed.




Lemma room_participants_app roomId l1 l2 d :
  roomParticipants d = l1 ++ l2 →
  room_participants roomId d
  = filter (λ p, rp_roomId p = roomId) l1 ++ filter (λ p, rp_roomId p = roomId) l2.
Proof. intros Hd. unfold room_participants. by rewrite Hd, filter_app. Qed.


Lemma db_op_scores d d' :
  db_op d d' → scores_backed_by_claims d → scores_backed_by_claims d'.
Proof.
  intros [roomId uid room _ _ _ _|roomId uid|env roomId i uid d1 Hclaim|p] Hsc q Hq.
  - unfold participant_upsert in *.
    destruct (existsb _ _) eqn:Hex; [by apply Hsc|].
    cbn [roomParticipants with_roomParticipants] in Hq.
    apply elem_of_app in Hq as [Hq|Hq]; [by apply Hsc|].
    apply list_elem_of_singleton in Hq as ->. cbn [score]. lia.
  - cbn [roomParticipants participant_deleteMany with_roomParticipants] in Hq.
    apply list_elem_of_filter in Hq as [_ Hq]. by apply Hsc.
  - destruct (claim_transaction_spec _ _ _ _ _ _ Hclaim)
      as (claim & l1 & p & l2 & Hcr & _ & Hcu & Hrows & Hpr & Hpu & ->).
    cbn [roomParticipants with_roomParticipants with_answerClaims] in Hq.
    assert (Hlen : ∀ r u,
              length (claims_of r u (with_roomParticipants
                        (l1 ++ {| rp_roomId := rp_roomId p; rp_userId := rp_userId p;
                                  score := score p + 1 |} :: l2)
                        (with_answerClaims (answerClaims d ++ [claim]) d)))
              = (length (claims_of r u d)
                 + if decide (roomId = r ∧ uid = u) then 1 else 0)%nat).
    { intros r u. unfold claims_of. cbn [answerClaims with_roomParticipants with_answerClaims].
      rewrite filter_app, length_app. f_equal.
      case_decide as Hru.
      - rewrite filter_cons_True by (rewrite Hcr, Hcu; tauto). done.
      - rewrite filter_cons_False by (rewrite Hcr, Hcu; tauto). done. }
    rewrite Hlen.
    assert (Hold : ∀ x, x ∈ roomParticipants d →
              score x ≤ Z.of_nat (length (claims_of (rp_roomId x) (rp_userId x) d)))
      by exact Hsc.
    rewrite Hrows in Hold.
    apply elem_of_app in Hq as [Hq|Hq].
    + specialize (Hold q). rewrite elem_of_app in Hold.
      specialize (Hold (or_introl Hq)). lia.
    + apply elem_of_cons in Hq as [->|Hq].
      * cbn [rp_roomId rp_userId score].
        specialize (Hold p). rewrite elem_of_app, elem_of_cons in Hold.
        specialize (Hold (or_intror (or_introl eq_refl))).
        rewrite decide_True by done. lia.
      * specialize (Hold q). rewrite elem_of_app, elem_of_cons in Hold.
        specialize (Hold (or_intror (or_intror Hq))). lia.
  - by apply Hsc.
Qed.

Lemma db_evolves_keeps (I : Database → Prop) :
  (∀ d d', db_op d d' → I d → I d') →
  ∀ d d', db_evolves d d' → I d → I d'.
Proof. intros Hstep d d' Hev. induction Hev; eauto. Qed.

(** X1.  The server writes the relational store through its four
    transactions only (join, leave, winning claim, rating update), each
    after the checks it makes in the source; whatever it receives, the
    tables of users, rooms and questions stay as they are. *)
Theorem store_written_by_transactions_only parse trace w :
  let w' := run parse w trace in
  db_evolves (db w) (db w')
  ∧ users (db w') = users (db w)
  ∧ rooms (db w') = rooms (db w)
  ∧ questions (db w') = questions (db w).
Proof.
  cbn zeta. split; [apply run_db_evolves|].
  apply db_evolves_tables, run_db_evolves.
Qed.





(** X4.  Scores are backed by claims: if the score of every participant
    row is at most the number of [AnswerClaim] rows of its user in its
    room, it is so after any run of the server (a score grows only in
    the transaction that inserts the claim; a new row starts at 0). *)
Theorem scores_stay_backed_by_claims parse trace w :
  scores_backed_by_claims (db w) → scores_backed_by_claims (db (run parse w trace)).
Proof.
  apply (db_evolves_keeps scores_backed_by_claims db_op_scores), run_db_evolves.
Qed.

Lemma scores_stay_backed_by_claims_witness :
  scores_backed_by_claims (db (run example_parse (initial example_db) second_quiz)).
Proof.
  apply (scores_stay_backed_by_claims example_parse second_quiz (initial example_db)).
  intros p Hp. cbn in Hp. by apply elem_of_nil in Hp.
Defined.

(** ** The rate map and the registry over the runs of the server *)

Ltac world_simpl :=
  cbn [sockets roomSockets questionsCache timers userConnections connectionCleanup
       rateLimitMap timeouts nextTimeout spawned redis db wire broadcasts logs
       with_sockets with_roomSockets with_questionsCache with_timers with_userConnections
       with_connectionCleanup with_rateLimitMap with_timeouts with_nextTimeout
       with_spawned with_redis with_db with_wire with_broadcasts with_logs].

Lemma checkRateLimit_entries_ok t u m :
  (∀ v e, m !! v = Some e → 1 ≤ count e ≤ CONFIG.RATE_LIMIT_MAX) →
  ∀ v e, (checkRateLimit t u m).2 !! v = Some e → 1 ≤ count e ≤ CONFIG.RATE_LIMIT_MAX.
Proof.
  intros Hm v e. unfold checkRateLimit.
  destruct (m !! u) as [userLimit|] eqn:Hu.
  - case_decide.
    + cbn [snd]. destruct (decide (u = v)) as [->|Hne].
      * rewrite lookup_insert_eq. intros [= <-]. cbn. unfold CONFIG.RATE_LIMIT_MAX. lia.
      * rewrite lookup_insert_ne by done. apply Hm.
    + case_decide as Hfull; cbn [snd]; [apply Hm|].
      destruct (decide (u = v)) as [->|Hne].
      * rewrite lookup_insert_eq. intros [= <-]. cbn. specialize (Hm _ _ Hu). lia.
      * rewrite lookup_insert_ne by done. apply Hm.
  - cbn [snd]. destruct (decide (u = v)) as [->|Hne].
    + rewrite lookup_insert_eq. intros [= <-]. cbn. unfold CONFIG.RATE_LIMIT_MAX. lia.
    + rewrite lookup_insert_ne by done. apply Hm.
Qed.

Lemma run_rate_entries_ok parse trace w :
  rate_entries_ok w → rate_entries_ok (run parse w trace).
Proof.
  apply (fp_run (keeps rate_entries_ok)); unfold keeps, rate_entries_ok.
  - intros w0 w' _ Hrate _ Hok. by rewrite Hrate.
  - intros c w0 Hok.
    replace (rateLimitMap (cleanupConnection c w0)) with (rateLimitMap w0); [done|].
    symmetry. apply cleanupConnection_core.
  - intros w0 d' _ Hok. exact Hok.
  - intros t u w0 Hok. cbn [rateLimitMap with_rateLimitMap].
    by apply checkRateLimit_entries_ok.
  - intros env c h w0 Hok. by rewrite on_connection_rateLimitMap.
  - intros env w0 Hok u e Hu. cbn in Hu.
    apply map_lookup_filter_Some in Hu as [Hu _]. by eapply Hok.
Qed.

Lemma cleanupConnection_no_empty c w :
  no_empty_registry w → no_empty_registry (cleanupConnection c w).
Proof.
  intros Hne. unfold cleanupConnection.
  set (w1 := match connectionCleanup w !! c with Some _ => _ | None => _ end).
  assert (H1 : userConnections w1 = userConnections w) by (subst w1; by case_match).
  destruct (sockets w1 !! c) as [ws|];
    [|unfold no_empty_registry; by rewrite H1].
  set (w2 := match truthy_str (currentRoom ws) with Some _ => _ | None => _ end).
  assert (H2 : userConnections w2 = userConnections w1).
  { subst w2. repeat case_match; done. }
  set (w3 := match truthy_id (userId ws) with Some _ => _ | None => _ end).
  assert (H3 : no_empty_registry w3).
  { subst w3. unfold no_empty_registry in *. rewrite <- H1, <- H2 in Hne.
    destruct (truthy_id (userId ws)) as [u|]; [|done].
    destruct (userConnections w2 !! u) as [userConns|] eqn:Hu; [|done].
    case_decide as Hsz; cbn; intros u' conns' Hu'.
    - apply lookup_delete_Some in Hu' as [_ Hu']. by eapply Hne.
    - destruct (decide (u = u')) as [->|Hneq].
      + rewrite lookup_insert_eq in Hu'. apply (inj Some) in Hu'. subst conns'.
        intros Hempty. apply Hsz. rewrite Hempty. apply size_empty.
      + rewrite lookup_insert_ne in Hu' by done. by eapply Hne. }
  case_match; [|done]. exact H3.
Qed.

Lemma on_connection_no_empty env c h w :
  no_empty_registry w → no_empty_registry (on_connection env c h w).
Proof.
  intros Hne. unfold on_connection.
  assert (Hrej : ∀ code reason ecode emsg,
             no_empty_registry (ws_close c code reason (sendError c ecode emsg
               (with_sockets (<[c := {| userId := None; currentRoom := None;
                                        readyState := OPEN |}]> (sockets w)) w)))).
  { intros code reason ecode emsg u conns Hu. apply (Hne u conns).
    unfold ws_close, sendError in Hu. cbn [userConnections with_wire with_sockets] in Hu.
    by rewrite sendResponse_userConnections in Hu. }
  destruct h as [| |uid]; [apply Hrej..|].
  cbn [userConnections with_sockets].
  case_decide as Hfull; [apply Hrej|].
  unfold setTimeout. cbn beta iota zeta.
  intros u conns Hu. rewrite sendResponse_userConnections in Hu.
  cbn [userConnections with_connectionCleanup with_nextTimeout with_timeouts
       with_userConnections with_sockets] in Hu.
  destruct (decide (uid = u)) as [->|Hneq].
  - rewrite lookup_insert_eq in Hu. apply (inj Some) in Hu. subst conns.
    intros Hempty. assert (c ∈ (∅ : gset string)) as Hc; [|by apply not_elem_of_empty in Hc].
    rewrite <- Hempty. apply elem_of_union_l. by apply elem_of_singleton.
  - rewrite lookup_insert_ne in Hu by done. by apply (Hne u conns).
Qed.

Lemma run_no_empty_registry parse trace w :
  no_empty_registry w → no_empty_registry (run parse w trace).
Proof.
  apply (fp_run (keeps no_empty_registry)); unfold keeps.
  - intros w0 w' Hreg _ _ Hok. unfold no_empty_registry. by rewrite Hreg.
  - intros c w0. apply cleanupConnection_no_empty.
  - intros w0 d' _ Hok. exact Hok.
  - intros t u w0 Hok. exact Hok.
  - intros env c h w0. apply on_connection_no_empty.
  - intros env w0 Hok u e Hu. cbn in Hu.
    apply map_lookup_filter_Some in Hu as [Hu _]. by eapply Hok.
Qed.

(** X5.  The counters of the rate map stay in range: if every entry
    counts between 1 and [RATE_LIMIT_MAX] frames, every entry does so
    after any run of the server. *)
Theorem rate_counters_stay_in_range parse trace w :
  rate_entries_ok w → rate_entries_ok (run parse w trace).
Proof. apply run_rate_entries_ok. Qed.

Lemma rate_counters_stay_in_range_witness :
  rate_entries_ok (run example_parse (initial example_db) burst).
Proof.
  apply (rate_counters_stay_in_range example_parse burst (initial example_db)).
  intros u e Hu. cbn in Hu. by rewrite lookup_empty in Hu.
Defined.

(** X6.  The connection registry never holds an empty set: a user whose
    last connection is cleaned up is removed from the registry at once.
    Hence the third loop of the periodic sweep (which deletes the users
    with an empty set) never finds anything to delete. *)
Theorem registry_holds_no_empty_set parse trace w :
  no_empty_registry w →
  no_empty_registry (run parse w trace)
  ∧ ∀ env, userConnections (cleanupStaleData env (run parse w trace))
           = userConnections (run parse w trace).
Proof.
  intros Hne. pose proof (run_no_empty_registry parse trace w Hne) as Hrun.
  split; [exact Hrun|]. intros env. cbn.
  apply map_filter_id. intros u conns Hu. cbn. intros Hsz.
  apply size_empty_inv in Hsz. apply (Hrun u conns Hu). by apply leibniz_equiv.
Qed.

Lemma registry_holds_no_empty_set_witness :
  let w := run example_parse (initial example_db)
             (three_connections ++ [(at_time 5, InClose "c2")]) in
  no_empty_registry w
  ∧ userConnections (cleanupStaleData (at_time 9) w) = userConnections w.
Proof.
  destruct (registry_holds_no_empty_set example_parse
              (three_connections ++ [(at_time 5, InClose "c2")]) (initial example_db))
    as [Hne Hsweep].
  - intros u conns Hu. cbn in Hu. by rewrite lookup_empty in Hu.
  - split; [exact Hne|apply Hsweep].
Defined.

(** ** The periodic sweep and the rate limiter *)

(** X7.  The periodic sweep is invisible to the rate limiter: the sweep
    deletes the entries whose window ended more than a minute ago, and a
    frame that arrives afterwards gets the verdict, and the user the
    entry, that they would have got without the sweep. *)
Theorem sweep_invisible_to_rate_limiter env t uid w :
  now env ≤ t →
  let swept := rateLimitMap (cleanupStaleData env w) in
  (checkRateLimit t uid swept).1 = (checkRateLimit t uid (rateLimitMap w)).1
  ∧ (checkRateLimit t uid swept).2 !! uid = (checkRateLimit t uid (rateLimitMap w)).2 !! uid.
Proof.
  intros Ht. cbn zeta.
  cbn [cleanupStaleData rateLimitMap with_userConnections with_rateLimitMap with_questionsCache].
  set (m := rateLimitMap w).
  set (keep := λ kv : Z * RateLimit, ¬ now env > resetTime kv.2 + 60000).
  unfold checkRateLimit.
  destruct (m !! uid) as [e|] eqn:Hu.
  - destruct (decide (now env > resetTime e + 60000)) as [Hstale|Hfresh].
    + assert (Hgone : filter keep m !! uid = None).
      { apply map_lookup_filter_None. right. intros e' He'. simplify_eq.
        unfold keep. cbn. tauto. }
      rewrite Hgone. rewrite decide_True by lia. cbn [fst snd].
      by rewrite !lookup_insert_eq.
    + assert (Hkept : filter keep m !! uid = Some e).
      { apply map_lookup_filter_Some. split; [done|]. unfold keep. cbn. lia. }
      rewrite Hkept. repeat case_decide; cbn [fst snd]; try done.
      * by rewrite !lookup_insert_eq.
      * by rewrite Hkept, Hu.
      * by rewrite !lookup_insert_eq.
  - assert (Hgone : filter keep m !! uid = None).
    { apply map_lookup_filter_None. left. done. }
    rewrite Hgone. cbn [fst snd]. by rewrite !lookup_insert_eq.
Qed.

Lemma sweep_invisible_to_rate_limiter_witness :
  let w := run example_parse (initial example_db) burst in
  let swept := rateLimitMap (cleanupStaleData (at_time 70000) w) in
  swept !! 1 = None
  ∧ (checkRateLimit 70001 1 swept).1 = (checkRateLimit 70001 1 (rateLimitMap w)).1
  ∧ (checkRateLimit 70001 1 swept).2 !! 1
    = (checkRateLimit 70001 1 (rateLimitMap w)).2 !! 1.
Proof.
  split; [vm_compute; reflexivity|].
  apply (sweep_invisible_to_rate_limiter (at_time 70000) 70001 1
           (run example_parse (initial example_db) burst)).
  vm_compute. discriminate.
Defined.

(** ** The handshake *)

Lemma default_Some {A} (d x : A) : default d (Some x) = x.
Proof. reflexivity. Qed.

Lemma default_None {A} (d : A) : default d None = d.
Proof. reflexivity. Qed.

(** X8.  A handshake without a token, or with a token that
    [verifySessionToken] rejects, is answered with the error frame 401
    and closed with code 1008.  The socket is not attached: the
    registry, the cleanup timeouts and the rate map are as before, and
    the frames that arrive on the socket afterwards are ignored (no
    message handler is registered). *)
Theorem handshake_without_session_refused env c h w :
  h = NoToken ∨ h = BadToken →
  let w' := on_connection env c h w in
  wire w'
  = match h with
    | NoToken => [ WClose c (Some 1008) "Missing token";
                   WSend c (FError 401 "Missing authentication token") ]
    | _ => [ WClose c (Some 1008) "Invalid token";
             WSend c (FError 401 "Invalid or expired token") ]
    end ++ wire w
  ∧ sockets w' !! c = Some {| userId := None; currentRoom := None; readyState := CLOSING |}
  ∧ userConnections w' = userConnections w
  ∧ connectionCleanup w' = connectionCleanup w
  ∧ timeouts w' = timeouts w
  ∧ rateLimitMap w' = rateLimitMap w
  ∧ (∀ parse env' data, on_message parse env' c data w' = w').
Proof.
  intros Hh. cbn zeta.
  assert (Hsock : ∀ code reason ecode emsg,
    let w' := ws_close c code reason (sendError c ecode emsg
                (with_sockets (<[c := {| userId := None; currentRoom := None;
                                         readyState := OPEN |}]> (sockets w)) w)) in
    wire w' = [WClose c code reason; WSend c (FError ecode emsg)] ++ wire w
    ∧ sockets w' !! c = Some {| userId := None; currentRoom := None; readyState := CLOSING |}
    ∧ userConnections w' = userConnections w
    ∧ connectionCleanup w' = connectionCleanup w
    ∧ timeouts w' = timeouts w
    ∧ rateLimitMap w' = rateLimitMap w
    ∧ (∀ parse env' data, on_message parse env' c data w' = w')).
  { intros code reason ecode emsg. cbn zeta.
    unfold ws_close, sendError, sendResponse, is_open.
    cbn [sockets with_sockets]. rewrite lookup_insert_eq. cbn [readyState].
    rewrite bool_decide_eq_true_2 by done.
    cbn [userConnections connectionCleanup timeouts rateLimitMap sockets wire
         with_wire with_sockets].
    assert (Hc : alter (set_readyState CLOSING) c
                   (<[c := {| userId := None; currentRoom := None; readyState := OPEN |}]>
                      (sockets w)) !! c
                 = Some {| userId := None; currentRoom := None; readyState := CLOSING |})
      by (by rewrite lookup_alter_eq, lookup_insert_eq).
    repeat split; try done.
    intros parse env' data. unfold on_message. cbn [sockets with_wire with_sockets].
    by rewrite Hc. }
  destruct Hh as [-> | ->]; cbn [on_connection]; apply Hsock.
Qed.

Lemma handshake_without_session_refused_witness :
  let w' := on_connection (at_time 0) "c1" BadToken (initial example_db) in
  wire w' = [ WClose "c1" (Some 1008) "Invalid token";
              WSend "c1" (FError 401 "Invalid or expired token") ]
  ∧ userConnections w' = ∅
  ∧ on_message example_parse (at_time 1) "c1" "join" w' = w'.
Proof.
  destruct (handshake_without_session_refused (at_time 0) "c1" BadToken (initial example_db))
    as (Hwire & _ & Hreg & _ & _ & _ & Hmsg).
  - right. reflexivity.
  - split; [exact Hwire|]. split; [exact Hreg|]. apply Hmsg.
Defined.

(** [cleanupConnection] on an open socket that is attached and in no room. *)
Lemma cleanupConnection_attached c w ws h u conns :
  connectionCleanup w !! c = Some h →
  sockets w !! c = Some ws →
  truthy_str (currentRoom ws) = None →
  truthy_id (userId ws) = Some u →
  userConnections w !! u = Some conns →
  readyState ws = OPEN →
  cleanupConnection c w
  = ws_close c None ""
      (with_userConnections
         (if decide (size (conns ∖ {[c]}) = 0%nat) then delete u (userConnections w)
          else <[u := conns ∖ {[c]}]> (userConnections w))
         (with_connectionCleanup (delete c (connectionCleanup w)) (clearTimeout h w))).
Proof.
  intros Hcc Hs Hroom Hu Hreg Hopen. unfold cleanupConnection.
  rewrite Hcc. unfold clearTimeout. world_simpl. rewrite Hs, Hroom, Hu.
  world_simpl. rewrite Hreg, Hopen. rewrite bool_decide_eq_true_2 by done.
  by case_decide.
Qed.

(** X9.  An accepted connection lives for at most [REDIS_TTL] seconds:
    the handshake registers the socket, answers [connected] and sets a
    cleanup timeout due [REDIS_TTL * 1000] ms later.  Fired before it is
    due the timeout does nothing; fired when it is due it removes the
    connection from the registry and from the cleanup map and closes
    the socket. *)
Theorem accepted_connection_expires env env' c uid w :
  Z.of_nat (size (default ∅ (userConnections w !! uid))) < CONFIG.MAX_CONNECTIONS_PER_USER →
  uid ≠ 0 →
  let w1 := on_connection env c (Session uid) w in
  let h := nextTimeout w in
  (c ∈ default ∅ (userConnections w1 !! uid))
  ∧ wire w1 = WSend c (FConnected c uid) :: wire w
  ∧ connectionCleanup w1 !! c = Some h
  ∧ timeouts w1 !! h
    = Some {| due := now env + CONFIG.REDIS_TTL * 1000; callback := CbConnectionCleanup c |}
  ∧ (now env' < now env + CONFIG.REDIS_TTL * 1000 → fire_timeout env' h w1 = w1)
  ∧ (now env + CONFIG.REDIS_TTL * 1000 ≤ now env' →
     let w2 := fire_timeout env' h w1 in
     (c ∉ default ∅ (userConnections w2 !! uid))
     ∧ connectionCleanup w2 !! c = None
     ∧ timeouts w2 !! h = None
     ∧ sockets w2 !! c
       = Some {| userId := Some uid; currentRoom := None; readyState := CLOSING |}
     ∧ wire w2 = WClose c None "" :: wire w1).
Proof.
  intros Hroom Huid. cbn zeta.
  set (userConns := default ∅ (userConnections w !! uid)) in *.
  set (ws := {| userId := Some uid; currentRoom := None; readyState := OPEN |}).
  set (t := {| due := now env + CONFIG.REDIS_TTL * 1000; callback := CbConnectionCleanup c |}).
  set (h := nextTimeout w).
  set (w1 := with_wire (WSend c (FConnected c uid) :: wire w)
        (with_connectionCleanup (<[c := h]> (connectionCleanup w))
          (with_nextTimeout (S h)
            (with_timeouts (<[h := t]> (timeouts w))
              (with_userConnections (<[uid := {[c]} ∪ userConns]> (userConnections w))
                (with_sockets (<[c := ws]> (<[c := {| userId := None; currentRoom := None;
                                                      readyState := OPEN |}]> (sockets w)))
                   w)))))).
  assert (Hw1 : on_connection env c (Session uid) w = w1).
  { unfold on_connection. cbn [userConnections with_sockets]. fold userConns.
    rewrite decide_False by lia. unfold setTimeout. cbn beta iota zeta.
    unfold sendResponse, is_open. world_simpl.
    rewrite lookup_insert_eq. cbn [readyState]. rewrite bool_decide_eq_true_2 by done.
    reflexivity. }
  rewrite Hw1.
  assert (Hreg : userConnections w1 !! uid = Some ({[c]} ∪ userConns))
    by (subst w1; world_simpl; apply lookup_insert_eq).
  assert (Hcc : connectionCleanup w1 !! c = Some h)
    by (subst w1; world_simpl; apply lookup_insert_eq).
  assert (Hto : timeouts w1 !! h = Some t)
    by (subst w1; world_simpl; apply lookup_insert_eq).
  assert (Hsock : sockets w1 !! c = Some ws)
    by (subst w1; world_simpl; apply lookup_insert_eq).
  rewrite Hreg, default_Some.
  split; [apply elem_of_union; left; by apply elem_of_singleton|].
  split; [done|]. split; [done|]. split; [done|].
  unfold fire_timeout. rewrite Hto. cbn [due callback t].
  split.
  { intros Hearly. by rewrite decide_False by lia. }
  intros Hdue. rewrite decide_True by lia. cbn [run_callback].
  assert (Htruthy : truthy_id (userId ws) = Some uid) by (cbn; destruct uid; done).
  rewrite (cleanupConnection_attached c (with_timeouts (delete h (timeouts w1)) w1)
             ws h uid ({[c]} ∪ userConns)); try done.
  assert (Hnotin : c ∉ ({[c]} ∪ userConns) ∖ ({[c]} : gset string)).
  { intros Hin. apply elem_of_difference in Hin as [_ Hin]. apply Hin.
    by apply elem_of_singleton. }
  unfold ws_close, clearTimeout. world_simpl.
  rewrite !lookup_delete_eq, lookup_alter_eq, Hsock. cbn [fmap option_fmap option_map].
  split; [|done].
  case_decide.
  - by rewrite lookup_delete_eq, default_None.
  - by rewrite lookup_insert_eq, default_Some.
Qed.

Lemma accepted_connection_expires_witness :
  let w1 := on_connection (at_time 0) "c1" (Session 1) (initial example_db) in
  userConnections w1 !! 1 = Some {[ "c1" ]}
  ∧ fire_timeout (at_time 599999) 0%nat w1 = w1
  ∧ userConnections (fire_timeout (at_time 600000) 0%nat w1) !! 1 = None
  ∧ wire (fire_timeout (at_time 600000) 0%nat w1)
    = [ WClose "c1" None ""; WSend "c1" (FConnected "c1" 1) ].
Proof.
  destruct (accepted_connection_expires (at_time 0) (at_time 599999) "c1" 1
              (initial example_db)) as (_ & _ & _ & _ & Hearly & _);
    [vm_compute; reflexivity|discriminate|].
  destruct (accepted_connection_expires (at_time 0) (at_time 600000) "c1" 1
              (initial example_db)) as (_ & _ & _ & _ & _ & Hdue);
    [vm_compute; reflexivity|discriminate|].
  split; [vm_compute; reflexivity|].
  split; [apply Hearly; vm_compute; reflexivity|].
  destruct Hdue as (_ & _ & _ & _ & Hwire); [vm_compute; discriminate|].
  split; [vm_compute; reflexivity|].
  etrans; [exact Hwire|]. vm_compute. reflexivity.
Defined.

(** ** Fan-out *)

Lemma cleanupConnection_dead c w :
  is_open c w = false →
  sockets (cleanupConnection c w) = sockets w
  ∧ wire (cleanupConnection c w) = wire w
  ∧ roomSockets (cleanupConnection c w) = roomSockets w.
Proof.
  unfold is_open, cleanupConnection. intros Hdead.
  set (w1 := match connectionCleanup w !! c with Some _ => _ | None => _ end).
  assert (H1 : sockets w1 = sockets w ∧ wire w1 = wire w ∧ roomSockets w1 = roomSockets w)
    by (subst w1; destruct (connectionCleanup w !! c); repeat split; reflexivity).
  destruct H1 as (Hs1 & Hw1 & Hr1). rewrite Hs1.
  destruct (sockets w !! c) as [ws|]; [|repeat split; assumption].
  rewrite Hdead.
  repeat case_match; world_simpl; repeat split; assumption.
Qed.

Lemma broadcast_cleanup_fold roomId dead : ∀ w0,
  Forall (λ c, is_open c w0 = false) dead →
  let w' := foldl (λ w c,
                     cleanupConnection c
                       (with_roomSockets (alter (λ s, s ∖ {[c]}) roomId (roomSockets w)) w))
                  w0 dead in
  sockets w' = sockets w0
  ∧ wire w' = wire w0
  ∧ roomSockets w' = alter (λ s, s ∖ list_to_set dead) roomId (roomSockets w0).
Proof.
  induction dead as [|c dead IH]; intros w0 Hdead; cbn zeta.
  - cbn [foldl list_to_set]. split; [done|]. split; [done|].
    apply map_eq. intros r. destruct (decide (roomId = r)) as [->|Hne].
    + rewrite lookup_alter_eq. destruct (roomSockets w0 !! r) as [s|]; [|done].
      cbn. f_equal. apply set_eq. intros x. rewrite elem_of_difference.
      split; [|tauto]. intros Hx. split; [done|]. apply not_elem_of_empty.
    + by rewrite lookup_alter_ne.
  - apply Forall_cons in Hdead as [Hc Hdead]. cbn [foldl].
    set (w1 := with_roomSockets _ w0).
    destruct (cleanupConnection_dead c w1 Hc) as (Hs & Hw & Hr).
    destruct (IH (cleanupConnection c w1)) as (Hs' & Hw' & Hr').
    { eapply Forall_impl; [exact Hdead|]. intros x Hx. unfold is_open in *.
      by rewrite Hs. }
    rewrite Hs', Hw', Hr', Hs, Hw, Hr. subst w1. world_simpl.
    split; [done|]. split; [done|].
    apply map_eq. intros r. destruct (decide (roomId = r)) as [->|Hne].
    + rewrite !lookup_alter_eq. destruct (roomSockets w0 !! r) as [s|]; [|done].
      cbn. f_equal. apply set_eq. intros x.
      rewrite !elem_of_difference, elem_of_union. tauto.
    + by rewrite !lookup_alter_ne.
Qed.

Lemma broadcastToRoom_spec roomId f w socks :
  roomSockets w !! roomId = Some socks →
  let w' := broadcastToRoom roomId f w in
  wire w'
  = rev ((λ c, WSend c f) <$> filter (λ c, is_open c w = true) (elements socks)) ++ wire w
  ∧ roomSockets w' !! roomId = Some (filter (λ c, is_open c w = true) socks)
  ∧ sockets w' = sockets w
  ∧ broadcasts w' = (roomId, f) :: broadcasts w.
Proof.
  intros Hroom. cbn zeta. split; [|split; [|split]]; [| | |apply broadcastToRoom_broadcasts].
  all: unfold broadcastToRoom; cbn [roomSockets with_broadcasts]; rewrite Hroom.
  all: case_decide as Hsz.
  1,3,5: apply size_empty_inv, leibniz_equiv in Hsz; subst socks.
  - by rewrite elements_empty.
  - world_simpl. rewrite Hroom. f_equal.
  - done.
  - match goal with |- wire (foldl _ ?w0 ?dead) = _ =>
      destruct (broadcast_cleanup_fold roomId dead w0) as (_ & -> & _) end; [|done].
    apply Forall_forall. intros x Hx. apply list_elem_of_filter in Hx as [Hx _].
    apply not_true_is_false. exact Hx.
  - match goal with |- roomSockets (foldl _ ?w0 ?dead) !! _ = _ =>
      destruct (broadcast_cleanup_fold roomId dead w0) as (_ & _ & ->) end.
    { apply Forall_forall. intros x Hx. apply list_elem_of_filter in Hx as [Hx _].
      apply not_true_is_false. exact Hx. }
    world_simpl. rewrite lookup_alter_eq, Hroom. cbn. f_equal.
    apply set_eq. intros x.
    rewrite elem_of_difference, elem_of_filter, elem_of_list_to_set, list_elem_of_filter,
      elem_of_elements.
    unfold is_open. world_simpl. split.
    + intros [Hin Hnot]. split; [|done].
      destruct (decide ((match sockets w !! x with
                         | Some ws => bool_decide (readyState ws = OPEN)
                         | None => false
                         end) = true)); [done|]. exfalso. apply Hnot. done.
    + intros [Hopen Hin]. split; [done|]. intros [Hnot _]. done.
  - match goal with |- sockets (foldl _ ?w0 ?dead) = _ =>
      destruct (broadcast_cleanup_fold roomId dead w0) as (-> & _ & _) end; [|done].
    apply Forall_forall. intros x Hx. apply list_elem_of_filter in Hx as [Hx _].
    apply not_true_is_false. exact Hx.
Qed.

Lemma broadcastToRoom_other_rooms roomId f w r :
  r ≠ roomId → roomSockets (broadcastToRoom roomId f w) !! r = roomSockets w !! r.
Proof.
  intros Hr. unfold broadcastToRoom. world_simpl.
  destruct (roomSockets w !! roomId) as [socks|]; [|done].
  case_decide; [done|].
  match goal with |- roomSockets (foldl _ ?w0 ?dead) !! _ = _ =>
    destruct (broadcast_cleanup_fold roomId dead w0) as (_ & _ & ->) end.
  - apply Forall_forall. intros x Hx. apply list_elem_of_filter in Hx as [Hx _].
    apply not_true_is_false. exact Hx.
  - by rewrite lookup_alter_ne.
Qed.

Lemma frames_to_app c l1 l2 : frames_to c (l1 ++ l2) = frames_to c l1 ++ frames_to c l2.
Proof. apply omap_app. Qed.

(** The frames of a fan-out that does not include [c] are not for [c]. *)
Lemma frames_to_fan_out c f xs :
  c ∉ xs → frames_to c (rev ((λ x, WSend x f) <$> xs)) = [].
Proof.
  induction xs as [|x xs IH]; intros Hc; [done|].
  cbn [fmap list_fmap rev]. rewrite frames_to_app, IH.
  - unfold frames_to. cbn. rewrite decide_False; [done|].
    intros ->. apply Hc. left.
  - intros Hin. apply Hc. by right.
Qed.

Lemma broadcastToRoom_sockets roomId f w : sockets (broadcastToRoom roomId f w) = sockets w.
Proof.
  destruct (roomSockets w !! roomId) as [socks|] eqn:Hroom.
  - by destruct (broadcastToRoom_spec roomId f w socks Hroom) as (_ & _ & -> & _).
  - unfold broadcastToRoom. world_simpl. by rewrite Hroom.
Qed.

Lemma broadcastToRoom_members roomId f w x :
  x ∈ default ∅ (roomSockets (broadcastToRoom roomId f w) !! roomId) →
  x ∈ default ∅ (roomSockets w !! roomId).
Proof.
  destruct (roomSockets w !! roomId) as [socks|] eqn:Hroom.
  - destruct (broadcastToRoom_spec roomId f w socks Hroom) as (_ & -> & _ & _).
    rewrite !default_Some. intros Hin. by apply elem_of_filter in Hin as [_ Hin].
  - unfold broadcastToRoom. world_simpl. rewrite Hroom. world_simpl. by rewrite Hroom.
Qed.

(** A socket that is not in the room gets nothing of a broadcast. *)
Lemma broadcastToRoom_frames_to roomId f w c :
  c ∉ default ∅ (roomSockets w !! roomId) →
  frames_to c (wire (broadcastToRoom roomId f w)) = frames_to c (wire w).
Proof.
  destruct (roomSockets w !! roomId) as [socks|] eqn:Hroom.
  - destruct (broadcastToRoom_spec roomId f w socks Hroom) as (-> & _ & _ & _).
    rewrite default_Some. intros Hnotin.
    rewrite frames_to_app, frames_to_fan_out; [done|].
    intros Hin. apply list_elem_of_filter in Hin as [_ Hin].
    by apply elem_of_elements in Hin.
  - intros _. unfold broadcastToRoom. world_simpl. by rewrite Hroom.
Qed.

(** The frames of a fan-out that includes [c] once. *)
Lemma frames_to_fan_out_member c f xs :
  NoDup xs → c ∈ xs → frames_to c (rev ((λ x, WSend x f) <$> xs)) = [f].
Proof.
  induction xs as [|x xs IH]; intros Hnd Hc; [by apply elem_of_nil in Hc|].
  apply NoDup_cons in Hnd as [Hx Hnd].
  cbn [fmap list_fmap rev]. rewrite frames_to_app.
  destruct (decide (c = x)) as [->|Hne].
  - rewrite frames_to_fan_out by done. unfold frames_to. cbn. by rewrite decide_True.
  - apply elem_of_cons in Hc as [?|Hc]; [done|]. rewrite IH by done.
    unfold frames_to. cbn. rewrite decide_False; [done|]. by intros ->.
Qed.

(** X10.  A broadcast reaches the open sockets of the room and no other:
    the frame is written once to every member of the room whose socket
    is open and to no other socket; the members whose socket is not
    open are removed from the room; no socket changes its state. *)
Theorem broadcast_reaches_open_members roomId f w socks :
  roomSockets w !! roomId = Some socks →
  let w' := broadcastToRoom roomId f w in
  (∀ c, frames_to c (wire w')
        = (if decide (c ∈ socks ∧ is_open c w = true) then [f] else [])
          ++ frames_to c (wire w))
  ∧ roomSockets w' !! roomId = Some (filter (λ c, is_open c w = true) socks)
  ∧ sockets w' = sockets w
  ∧ broadcasts w' = (roomId, f) :: broadcasts w.
Proof.
  intros Hroom. cbn zeta.
  destruct (broadcastToRoom_spec roomId f w socks Hroom) as (Hwire & Hrs & Hs & Hb).
  split; [|done]. intros c. rewrite Hwire, frames_to_app. f_equal.
  case_decide as Hc.
  - apply frames_to_fan_out_member.
    + apply NoDup_filter, NoDup_elements.
    + apply list_elem_of_filter. split; [tauto|]. apply elem_of_elements. tauto.
  - apply frames_to_fan_out. intros Hin.
    apply list_elem_of_filter in Hin as [Hopen Hin]. apply elem_of_elements in Hin. tauto.
Qed.

Lemma broadcast_reaches_open_members_witness :
  let w := run example_parse asking_0 [(at_time 6000, InClose "c3")] in
  let w' := broadcastToRoom "R" (FParticipantLeft 9) w in
  is_open "c3" w = false
  ∧ frames_to "c3" (wire w') = frames_to "c3" (wire w)
  ∧ frames_to "c1" (wire w') = FParticipantLeft 9 :: frames_to "c1" (wire w)
  ∧ roomSockets w' !! "R" = Some {[ "c1"; "c2" ]}.
Proof.
  cbn zeta.
  destruct (broadcast_reaches_open_members "R" (FParticipantLeft 9)
              (run example_parse asking_0 [(at_time 6000, InClose "c3")])
              {[ "c1"; "c2"; "c3" ]}) as (Hframes & Hroom & _ & _); [by_computation|].
  split; [by_computation|].
  rewrite (Hframes "c3"), (Hframes "c1"), Hroom. conj_by_computation.
Defined.

(** ** Cleaning up a connection more than once *)

Lemma with_spawned_id w : with_spawned (spawned w) w = w.
Proof. by destruct w. Qed.

Lemma with_userConnections_id w : with_userConnections (userConnections w) w = w.
Proof. by destruct w. Qed.

Lemma leave_target_sockets c payload w w' :
  sockets w' !! c = sockets w !! c → leave_target c payload w' = leave_target c payload w.
Proof. intros Hs. unfold leave_target. by rewrite Hs. Qed.

Lemma cleanupConnection_settles c ws w :
  sockets w !! c = Some ws → settled c ws (cleanupConnection c w).
Proof.
  intros Hs. unfold cleanupConnection.
  set (w1 := match connectionCleanup w !! c with Some _ => _ | None => _ end).
  assert (H1 : connectionCleanup w1 !! c = None ∧ sockets w1 = sockets w
               ∧ userConnections w1 = userConnections w).
  { subst w1. destruct (connectionCleanup w !! c) eqn:Hcc; world_simpl; [|done].
    split; [apply lookup_delete_eq|done]. }
  destruct H1 as (Hcc1 & Hs1 & Hu1). rewrite Hs1, Hs.
  set (w2 := match truthy_str (currentRoom ws) with Some _ => _ | None => _ end).
  assert (H2 : connectionCleanup w2 = connectionCleanup w1 ∧ sockets w2 = sockets w1
               ∧ userConnections w2 = userConnections w1)
    by (subst w2; repeat case_match; done).
  destruct H2 as (Hcc2 & Hs2 & Hu2).
  set (w3 := match truthy_id (userId ws) with Some _ => _ | None => _ end).
  assert (H3 : connectionCleanup w3 = connectionCleanup w2 ∧ sockets w3 = sockets w2
               ∧ ∀ u s, truthy_id (userId ws) = Some u → userConnections w3 !! u = Some s →
                        (c ∉ s) ∧ s ≠ ∅).
  { subst w3. destruct (truthy_id (userId ws)) as [u|]; [|done].
    destruct (userConnections w2 !! u) as [userConns|] eqn:Hu.
    - case_decide as Hsz; world_simpl.
      + split; [done|]. split; [done|]. intros u' s [= <-]. by rewrite lookup_delete_eq.
      + split; [done|]. split; [done|]. intros u' s [= <-].
        rewrite lookup_insert_eq. intros [= <-]. split.
        * intros Hin. apply elem_of_difference in Hin as [_ Hin]. apply Hin.
          by apply elem_of_singleton.
        * intros Hempty. apply Hsz. rewrite Hempty. apply size_empty.
    - split; [done|]. split; [done|]. intros u' s [= <-]. by rewrite Hu. }
  destruct H3 as (Hcc3 & Hs3 & Hu3).
  unfold settled. destruct (bool_decide (readyState ws = OPEN)) eqn:Hopen.
  - unfold ws_close. world_simpl. rewrite Hcc3, Hcc2, Hs3, Hs2, Hs1.
    split; [done|]. split; [|done].
    rewrite lookup_alter_eq, Hs. cbn. eexists. split; [done|]. done.
  - rewrite Hcc3, Hcc2, Hs3, Hs2, Hs1. split; [done|]. split; [|done].
    exists ws. split; [done|]. split; [done|]. split; [done|].
    by apply bool_decide_eq_false in Hopen.
Qed.

Lemma cleanupConnection_settled c ws w :
  settled c ws w →
  cleanupConnection c w
  = with_spawned (spawned w ++ match leave_target c None w with
                               | Some r => [(c, r)]
                               | None => []
                               end) w.
Proof.
  intros (Hcc & (ws' & Hs & Hroom & Huid & Hclosed) & Hreg).
  unfold cleanupConnection. rewrite Hcc, Hs.
  rewrite (bool_decide_eq_false_2 _ Hclosed).
  assert (Hkeep : ∀ w0, userConnections w0 = userConnections w →
            match truthy_id (userId ws') with
            | Some u =>
                match userConnections w0 !! u with
                | Some userConns =>
                    if decide (size (userConns ∖ {[c]}) = 0%nat)
                    then with_userConnections (delete u (userConnections w0)) w0
                    else with_userConnections
                           (<[u := userConns ∖ {[c]}]> (userConnections w0)) w0
                | None => w0
                end
            | None => w0
            end = w0).
  { intros w0 Hw0. rewrite Huid.
    destruct (truthy_id (userId ws)) as [u|] eqn:Hu; [|done].
    rewrite Hw0. destruct (userConnections w !! u) as [s|] eqn:Hus; [|done].
    destruct (Hreg u s eq_refl Hus) as [Hnotin Hne].
    assert (Hsame : s ∖ {[c]} = s).
    { apply set_eq. intros x. rewrite elem_of_difference, elem_of_singleton.
      split; [tauto|]. intros Hx. split; [done|]. by intros ->. }
    rewrite Hsame. rewrite decide_False.
    - rewrite insert_id by done. rewrite <- Hw0. apply with_userConnections_id.
    - intros Hsz. apply Hne. by apply size_empty_inv, leibniz_equiv in Hsz. }
  assert (Hlt : leave_target c None w
                = match truthy_str (currentRoom ws') with
                  | Some _ => leave_target c None w
                  | None => None
                  end).
  { unfold leave_target. rewrite Hs. cbn [truthy_str].
    by destruct (truthy_str (currentRoom ws')). }
  destruct (truthy_str (currentRoom ws')) eqn:Hcr.
  - destruct (leave_target c None w) as [r|] eqn:Hl.
    + by rewrite Hkeep.
    + rewrite Hkeep by done. by rewrite app_nil_r, with_spawned_id.
  - rewrite Hkeep by done. rewrite Hlt. by rewrite app_nil_r, with_spawned_id.
Qed.

(** X11.  Cleaning up a connection a second time (the ['close'] event
    that follows the cleanup timeout or an ['error'] event) changes
    nothing but this: when the socket still has its room,
    [handleLeaveRoom] is started for it once more. *)
Theorem cleanup_again_changes_only_spawned c w :
  let w1 := cleanupConnection c w in
  cleanupConnection c w1
  = with_spawned (spawned w1 ++ match leave_target c None w with
                                | Some r => [(c, r)]
                                | None => []
                                end) w1.
Proof.
  cbn zeta. destruct (sockets w !! c) as [ws|] eqn:Hs.
  - pose proof (cleanupConnection_settles c ws w Hs) as Hset.
    rewrite (cleanupConnection_settled c ws _ Hset). f_equal. f_equal.
    destruct Hset as (_ & (ws' & Hs' & Hroom & Huid & _) & _).
    unfold leave_target. rewrite Hs', Hs, Hroom, Huid. done.
  - assert (Hw1 : sockets (cleanupConnection c w) !! c = None
                  ∧ connectionCleanup (cleanupConnection c w) !! c = None).
    { unfold cleanupConnection.
      unfold clearTimeout.
      destruct (connectionCleanup w !! c) eqn:Hcc; world_simpl; rewrite Hs; world_simpl.
      - split; [done|apply lookup_delete_eq].
      - done. }
    destruct Hw1 as [Hs1 Hcc1].
    unfold leave_target. rewrite Hs.
    rewrite app_nil_r, with_spawned_id.
    unfold cleanupConnection at 1. by rewrite Hcc1, Hs1.
Qed.

(** ** Joining a room *)

Lemma filter_none {A} (P : A → Prop) `{!∀ x, Decision (P x)} (l : list A) :
  (∀ x, x ∈ l → ¬ P x) → filter P l = [].
Proof.
  induction l as [|x l IH]; intros Hno; [done|].
  rewrite filter_cons_False by (apply Hno; left). apply IH.
  intros y Hy. apply Hno. by right.
Qed.

(** [handleJoinRoom], statement by statement. *)
Lemma handleJoinRoom_run env c roomId w :
  handleJoinRoom env c roomId w
  = if decide (roomId = "" ∨ (50 < String.length roomId)%nat) then
      (Throw 400 "Invalid room ID", w)
    else if db_fails env JoinTx then
      (Throw 500 "Failed to join room", console_error "Error joining room" w)
    else
      match join_transaction c roomId w with
      | (Throw code msg, w1) => (Throw code msg, w1)
      | (Ok _, w1) =>
          let uid := ws_userId c w1 in
          let key := KParticipants roomId in
          let w2 :=
            with_sockets (alter (set_currentRoom (Some roomId)) c (sockets w1))
              (with_roomSockets
                 (<[roomId := {[c]} ∪ default ∅ (roomSockets w1 !! roomId)]> (roomSockets w1))
                 (with_redis
                    (redis_expire (now env) key CONFIG.REDIS_TTL
                       (redis_sadd (now env) key (pretty uid) (redis w1))) w1)) in
          if db_fails env JoinUserLookup then
            (Throw 500 "Failed to join room", console_error "Error joining room" w2)
          else
            (Ok tt,
             sendResponse c (FJoinedRoom roomId)
               (broadcastToRoom roomId
                  (FParticipantJoined uid (display_name (users (db w2) !! uid))) w2))
      end.
Proof.
  unfold handleJoinRoom. case_decide; [done|].
  destruct (db_fails env JoinTx); [done|].
  unfold bind at 1. destruct (join_transaction c roomId w) as [[[]|code msg] w1]; [|done].
  unfold bind, modify, read, throw. cbn beta iota zeta.
  destruct (db_fails env JoinUserLookup); reflexivity.
Qed.

(** X12.  A join that is refused with any code but 500 changes nothing:
    an invalid room id (empty or longer than 50 characters), a room that
    does not exist or is inactive, a full room and a user who is in
    another room leave the store, Redis, the room's sockets and the
    broadcasts as they were. *)
Theorem refused_join_changes_nothing env c roomId w code msg w' :
  handleJoinRoom env c roomId w = (Throw code msg, w') →
  code ≠ 500 →
  w' = w.
Proof.
  rewrite handleJoinRoom_run. case_decide; [by intros [= <- <- <-]|].
  destruct (db_fails env JoinTx); [by intros [= <- <- <-]|].
  destruct (join_transaction_cases c roomId w)
    as [(code' & msg' & ->)|(room & _ & _ & _ & _ & ->)].
  - by intros [= <- <- <-].
  - cbn zeta. destruct (db_fails env JoinUserLookup); [|done]. by intros [= <- <- <-].
Qed.

Lemma refused_join_changes_nothing_witness :
  let w := run example_parse (initial example_db) joined_once in
  (handleJoinRoom (at_time 20) "c1" "S" w).2 = w.
Proof.
  cbn zeta.
  apply (refused_join_changes_nothing (at_time 20) "c1" "S"
           (run example_parse (initial example_db) joined_once)
           404 "Room not found or inactive").
  - vm_compute. reflexivity.
  - discriminate.
Defined.

(** X13.  A full room refuses everybody, its participants included: the
    capacity check comes before the lookup of the user's own row, so a
    participant who joins again (from a new socket, say) when the room
    holds [maxPlayers] rows is answered 400 "Room is full". *)
Theorem full_room_refuses_its_members env c roomId room w :
  roomId ≠ "" → (String.length roomId ≤ 50)%nat →
  db_fails env JoinTx = false →
  rooms (db w) !! roomId = Some room →
  isActive room = true →
  Z.of_nat (length (room_participants roomId (db w))) >= maxPlayers room →
  handleJoinRoom env c roomId w = (Throw 400 "Room is full", w).
Proof.
  intros Hne Hlen Hdb Hroom Hact Hfull. rewrite handleJoinRoom_run.
  rewrite decide_False by (intros [?|?]; [done|lia]). rewrite Hdb.
  unfold join_transaction. rewrite Hroom. destruct room as [name host active maxp].
  cbn in Hact, Hfull. subst active. by rewrite decide_True.
Qed.

Lemma full_room_refuses_its_members_witness :
  let w := on_connection (at_time 0) "c1" (Session 1) (initial full_db) in
  existsb (is_participant_row "R" (ws_userId "c1" w)) (roomParticipants (db w)) = true
  ∧ handleJoinRoom (at_time 5) "c1" "R" w = (Throw 400 "Room is full", w).
Proof.
  split; [by_computation|].
  apply (full_room_refuses_its_members (at_time 5) "c1" "R"
           {| room_name := "Room"; hostId := 1; isActive := true; maxPlayers := 2 |}).
  - discriminate.
  - cbn. lia.
  - reflexivity.
  - by_computation.
  - reflexivity.
  - by_computation.
Defined.

(** ** Leaving a room *)

Lemma redis_srem_not_member now t k x r :
  now ≤ t → redis_sismember t k x (redis_srem now k x r) = false.
Proof.
  intros Ht. unfold redis_srem, redis_sismember.
  destruct (redis_lookup now k r) as [[[s|members] ex]|] eqn:Hl.
  - unfold redis_lookup in *. destruct (r !! k) as [e|]; [|done].
    destruct (live t e); [|done]. destruct (live now e); [|done]. by simplify_eq.
  - case_decide.
    + unfold redis_lookup. by rewrite lookup_delete_eq.
    + rewrite redis_lookup_insert_eq. destruct (live t _); [|done]. cbn.
      apply bool_decide_eq_false. intros Hin.
      apply elem_of_difference in Hin as [_ Hin]. apply Hin. by apply elem_of_singleton.
  - unfold redis_lookup in *. destruct (r !! k) as [e|]; [|done].
    destruct (live now e) eqn:Hlive; [done|].
    assert (live t e = false) as ->; [|done].
    unfold live in *. destruct (rexpire e); [|done].
    apply bool_decide_eq_false in Hlive. apply bool_decide_eq_false. lia.
Qed.

Lemma redis_del_sismember t ks k x r :
  redis_sismember t k x r = false → redis_sismember t k x (redis_del ks r) = false.
Proof.
  intros Hno. induction ks as [|k' ks IH]; [done|].
  cbn [redis_del foldr]. fold (redis_del ks r).
  unfold redis_sismember, redis_lookup in *.
  destruct (decide (k' = k)) as [->|Hne].
  - by rewrite lookup_delete_eq.
  - by rewrite lookup_delete_ne.
Qed.

Lemma cleanupRoomData_frame roomId w :
  let w' := cleanupRoomData roomId w in
  sockets w' = sockets w ∧ roomSockets w' = roomSockets w ∧ wire w' = wire w
  ∧ redis w' = redis_del (keysToDelete roomId) (redis w).
Proof.
  cbn zeta. unfold cleanupRoomData. world_simpl.
  match goal with |- context [foldl ?f ?w1 ?keys] =>
    assert (Hfold : ∀ ks w0, sockets (foldl f w0 ks) = sockets w0
                             ∧ roomSockets (foldl f w0 ks) = roomSockets w0
                             ∧ wire (foldl f w0 ks) = wire w0
                             ∧ redis (foldl f w0 ks) = redis w0);
    [|destruct (Hfold keys w1) as (-> & -> & -> & ->); done] end.
  induction ks as [|k ks IH]; intros w0; cbn [foldl]; [done|].
  destruct (IH (match timers w0 !! k with
                | Some roomTimer =>
                    with_timers (delete k (timers w0)) (clearTimeout (timer roomTimer) w0)
                | None => w0
                end)) as (-> & -> & -> & ->).
  by destruct (timers w0 !! k).
Qed.

(** What [leaveRoom_body] does when the store answers. *)
Lemma leaveRoom_body_spec env c roomId w :
  db_fails env LeaveTx = false →
  let uid := ws_userId c w in
  let w' := leaveRoom_body env c roomId w in
  db w' = participant_deleteMany roomId uid (db w)
  ∧ (∀ t, now env ≤ t →
          redis_sismember t (KParticipants roomId) (pretty uid) (redis w') = false)
  ∧ (c ∉ default ∅ (roomSockets w' !! roomId))
  ∧ (∀ r, r ≠ roomId → roomSockets w' !! r = roomSockets w !! r)
  ∧ sockets w' = alter (set_currentRoom None) c (sockets w)
  ∧ broadcasts w' = (roomId, FParticipantLeft uid) :: broadcasts w
  ∧ frames_to c (wire w') = frames_to c (wire w).
Proof.
  intros Hdb. cbn zeta. unfold leaveRoom_body. rewrite Hdb.
  set (uid := ws_userId c w).
  set (w1 := with_db (participant_deleteMany roomId uid (db w)) w).
  set (w2 := with_redis (redis_srem (now env) (KParticipants roomId) (pretty uid) (redis w1)) w1).
  set (w3 := match roomSockets w2 !! roomId with Some _ => _ | None => _ end).
  set (w4 := with_sockets (alter (set_currentRoom None) c (sockets w3)) w3).
  assert (H3 : db w3 = db w1 ∧ sockets w3 = sockets w ∧ wire w3 = wire w
               ∧ broadcasts w3 = broadcasts w
               ∧ (c ∉ default ∅ (roomSockets w3 !! roomId))
               ∧ (∀ r, r ≠ roomId → roomSockets w3 !! r = roomSockets w !! r)
               ∧ (∀ t, now env ≤ t →
                    redis_sismember t (KParticipants roomId) (pretty uid) (redis w3) = false)).
  { subst w3 w2 w1. world_simpl.
    destruct (roomSockets w !! roomId) as [roomWs|] eqn:Hroom.
    - case_decide.
      + match goal with |- context [cleanupRoomData roomId ?w0] =>
          destruct (cleanupRoomData_frame roomId w0) as (Hs & Hr & Hw & Hre) end.
        rewrite cleanupRoomData_db, cleanupRoomData_broadcasts, Hs, Hr, Hw, Hre.
        world_simpl. rewrite lookup_delete_eq, default_None.
        split; [done|]. split; [done|]. split; [done|]. split; [done|].
        split; [apply not_elem_of_empty|].
        split; [intros r Hr'; by rewrite lookup_delete_ne|].
        intros t Ht. apply redis_del_sismember. by apply redis_srem_not_member.
      + world_simpl. rewrite lookup_insert_eq, default_Some.
        split; [done|]. split; [done|]. split; [done|]. split; [done|].
        split.
        { intros Hin. apply elem_of_difference in Hin as [_ Hin]. apply Hin.
          by apply elem_of_singleton. }
        split; [intros r Hr'; by rewrite lookup_insert_ne|].
        intros t Ht. by apply redis_srem_not_member.
    - world_simpl. rewrite Hroom, default_None.
      split; [done|]. split; [done|]. split; [done|]. split; [done|].
      split; [apply not_elem_of_empty|]. split; [done|].
      intros t Ht. by apply redis_srem_not_member. }
  destruct H3 as (Hdb3 & Hs3 & Hw3 & Hb3 & Hnotin & Hother & Hredis).
  clearbody w3. subst w4.
  rewrite broadcastToRoom_db, broadcastToRoom_redis, broadcastToRoom_broadcasts,
    broadcastToRoom_sockets.
  world_simpl. rewrite Hdb3, Hb3, Hs3. subst w2 w1. world_simpl.
  split; [done|].
  split; [exact Hredis|].
  split.
  { intros Hin. apply broadcastToRoom_members in Hin. exact (Hnotin Hin). }
  split.
  { intros r Hr. rewrite broadcastToRoom_other_rooms by done. by apply Hother. }
  split; [done|]. split; [done|].
  rewrite broadcastToRoom_frames_to by exact Hnotin. world_simpl. by rewrite Hw3.
Qed.

Lemma participant_deleteMany_gone roomId uid d :
  filter (λ p, is_participant_row roomId uid p = true)
         (roomParticipants (participant_deleteMany roomId uid d)) = [].
Proof.
  unfold participant_deleteMany. cbn [roomParticipants with_roomParticipants].
  rewrite list_filter_filter. apply filter_none.
  intros p _ [Hyes Hno]. congruence.
Qed.

Lemma participant_deleteMany_other roomId uid roomId' uid' d :
  (roomId', uid') ≠ (roomId, uid) →
  filter (λ p, is_participant_row roomId' uid' p = true)
         (roomParticipants (participant_deleteMany roomId uid d))
  = filter (λ p, is_participant_row roomId' uid' p = true) (roomParticipants d).
Proof.
  intros Hne. unfold participant_deleteMany. cbn [roomParticipants with_roomParticipants].
  rewrite list_filter_filter. apply list_filter_iff. intros p. split; [tauto|].
  intros Hp. split; [done|]. apply bool_decide_eq_true in Hp as [? ?].
  apply bool_decide_eq_false. intros [? ?]. apply Hne. congruence.
Qed.

(** X14.  Leaving a room.  When the store answers, the participant row of
    the user in the room is deleted, the user is removed from the
    room's Redis set, the socket is removed from the room and its
    [currentRoom] is cleared, and [participantLeft] is broadcast to the
    room, after the socket has been removed: the leaver gets no frame.
    When the transaction fails, the failure is logged and nothing else
    happens: no reply, and the socket stays in the room. *)
Theorem leave_room_effects env c payload roomId w :
  leave_target c payload w = Some roomId →
  let uid := ws_userId c w in
  let w' := handleLeaveRoom env c payload w in
  (db_fails env LeaveTx = true → w' = console_error "Error leaving room" w)
  ∧ (db_fails env LeaveTx = false →
     filter (λ p, is_participant_row roomId uid p = true) (roomParticipants (db w')) = []
     ∧ (∀ t, now env ≤ t →
             redis_sismember t (KParticipants roomId) (pretty uid) (redis w') = false)
     ∧ (c ∉ default ∅ (roomSockets w' !! roomId))
     ∧ sockets w' !! c ≫= currentRoom = None
     ∧ broadcasts w' = (roomId, FParticipantLeft uid) :: broadcasts w
     ∧ frames_to c (wire w') = frames_to c (wire w)).
Proof.
  intros Htarget. cbn zeta. unfold handleLeaveRoom. rewrite Htarget. split.
  - intros Hfail. unfold leaveRoom_body. by rewrite Hfail.
  - intros Hdb.
    destruct (leaveRoom_body_spec env c roomId w Hdb)
      as (Hd & Hredis & Hnotin & _ & Hsock & Hbc & Hframes).
    rewrite Hd, Hsock, Hbc, Hframes.
    split; [apply participant_deleteMany_gone|]. split; [exact Hredis|].
    split; [exact Hnotin|]. split; [|done].
    rewrite lookup_alter_eq. by destruct (sockets w !! c).
Qed.

Lemma leave_room_effects_witness :
  let w' := handleLeaveRoom (at_time 6000) "c3" (Some "R") asking_0 in
  filter (λ p, is_participant_row "R" (ws_userId "c3" asking_0) p = true)
         (roomParticipants (db w')) = []
  ∧ (∀ t, 6000 ≤ t →
          redis_sismember t (KParticipants "R") (pretty (ws_userId "c3" asking_0)) (redis w')
          = false)
  ∧ ("c3" ∉ default ∅ (roomSockets w' !! "R"))
  ∧ sockets w' !! "c3" ≫= currentRoom = None
  ∧ broadcasts w' = ("R", FParticipantLeft (ws_userId "c3" asking_0)) :: broadcasts asking_0
  ∧ frames_to "c3" (wire w') = frames_to "c3" (wire asking_0).
Proof.
  exact (proj2 (leave_room_effects (at_time 6000) "c3" (Some "R") "R" asking_0
                  ltac:(by_computation)) eq_refl).
Defined.

(** X15.  [handleLeaveRoom] acts on the room named in the payload, which
    need not be the room of the socket.  A socket in room [a] that sends
    [leaveRoom] for another room [b] keeps its participant row and its
    place among the sockets of [a], yet its [currentRoom] is cleared, so
    that its later answers for [a] are refused with 403; and
    [participantLeft] for that user is broadcast to room [b]. *)
Theorem leave_acts_on_the_named_room env c a b w :
  sockets w !! c ≫= currentRoom = Some a →
  is_Some (truthy_id (sockets w !! c ≫= userId)) →
  a ≠ "" → b ≠ "" → b ≠ a →
  db_fails env LeaveTx = false →
  let uid := ws_userId c w in
  let w' := handleLeaveRoom env c (Some b) w in
  filter (λ p, is_participant_row a uid p = true) (roomParticipants (db w'))
  = filter (λ p, is_participant_row a uid p = true) (roomParticipants (db w))
  ∧ roomSockets w' !! a = roomSockets w !! a
  ∧ sockets w' !! c ≫= currentRoom = None
  ∧ broadcasts w' = (b, FParticipantLeft uid) :: broadcasts w
  ∧ (∀ env' i choice,
       0 ≤ i < CONFIG.QUESTIONS_PER_QUIZ → 0 ≤ choice ≤ 3 →
       handleSubmitAnswer env' c (mk_submit a i choice) w'
       = (Throw 403 "Not in this room", w')).
Proof.
  intros Hroom [u Hu] Ha Hb Hba Hdb. cbn zeta.
  assert (Htarget : leave_target c (Some b) w = Some b).
  { unfold leave_target. destruct (sockets w !! c) as [ws|]; [|done].
    cbn in Hu. rewrite Hu. destruct b; [done|]. done. }
  unfold handleLeaveRoom. rewrite Htarget.
  destruct (leaveRoom_body_spec env c b w Hdb)
    as (Hd & _ & _ & Hother & Hsock & Hbc & _).
  rewrite Hd, Hbc, Hsock.
  split; [apply participant_deleteMany_other; congruence|].
  split; [apply Hother; congruence|].
  assert (Hcur : alter (set_currentRoom None) c (sockets w) !! c ≫= currentRoom = None).
  { rewrite lookup_alter_eq. by destruct (sockets w !! c). }
  split; [exact Hcur|]. split; [done|].
  intros env' i choice Hi Hch. unfold handleSubmitAnswer, submit_begin.
  cbn [mk_submit sp_roomId sp_questionIndex sp_choiceIdx].
  rewrite decide_False by done.
  rewrite decide_False by (unfold CONFIG.QUESTIONS_PER_QUIZ in *; lia).
  rewrite decide_False by lia.
  rewrite Hsock, Hcur. rewrite decide_True by done.
  by rewrite submit_run_thrown.
Qed.

Lemma leave_acts_on_the_named_room_witness :
  let uid := ws_userId "c3" asking_0 in
  let w' := handleLeaveRoom (at_time 6000) "c3" (Some "S") asking_0 in
  filter (λ p, is_participant_row "R" uid p = true) (roomParticipants (db w'))
  = filter (λ p, is_participant_row "R" uid p = true) (roomParticipants (db asking_0))
  ∧ roomSockets w' !! "R" = roomSockets asking_0 !! "R"
  ∧ sockets w' !! "c3" ≫= currentRoom = None
  ∧ broadcasts w' = ("S", FParticipantLeft uid) :: broadcasts asking_0
  ∧ (∀ env' i choice,
       0 ≤ i < CONFIG.QUESTIONS_PER_QUIZ → 0 ≤ choice ≤ 3 →
       handleSubmitAnswer env' "c3" (mk_submit "R" i choice) w'
       = (Throw 403 "Not in this room", w')).
Proof.
  apply (leave_acts_on_the_named_room (at_time 6000) "c3" "R" "S" asking_0).
  - by_computation.
  - vm_compute. eexists. reflexivity.
  - discriminate.
  - discriminate.
  - discriminate.
  - reflexivity.
Defined.

(** ** The last socket of a room leaves *)

(** [cleanupRoomData] cancels the timeouts of the room timers it deletes. *)
Lemma cleanupRoomData_timeouts roomId w key rt :
  String.prefix (roomId +:+ ":") key = true →
  timers w !! key = Some rt →
  timeouts (cleanupRoomData roomId w) !! timer rt = None.
Proof.
  intros Hpre Hkey. unfold cleanupRoomData. world_simpl.
  match goal with |- context [foldl ?f ?w1 ?keys] =>
    set (step := f); set (ks := keys); set (w0 := w1) end.
  assert (Hin : key ∈ ks).
  { subst ks. apply list_elem_of_filter. split; [done|].
    apply list_elem_of_fmap. exists (key, rt). split; [done|].
    by apply elem_of_map_to_list. }
  assert (Hshrink : ∀ xs v h, timeouts v !! h = None → timeouts (foldl step v xs) !! h = None).
  { induction xs as [|x xs IH]; intros v h Hh; cbn [foldl]; [done|].
    apply IH. subst step. cbn beta. destruct (timers v !! x); [|done].
    unfold clearTimeout. world_simpl.
    destruct (decide (timer r = h)) as [->|Hne]; [apply lookup_delete_eq|].
    by rewrite lookup_delete_ne. }
  assert (Hkey0 : timers w0 !! key = Some rt) by done.
  clearbody w0. clear Hkey. revert w0 Hkey0.
  induction ks as [|k ks IH]; intros w0 Hkey0; [by apply elem_of_nil in Hin|].
  cbn [foldl]. destruct (decide (k = key)) as [->|Hne].
  - apply Hshrink. subst step. cbn beta. rewrite Hkey0.
    unfold clearTimeout. world_simpl. apply lookup_delete_eq.
  - apply elem_of_cons in Hin as [?|Hin]; [done|]. apply IH; [done|].
    subst step. cbn beta. destruct (timers w0 !! k); [|done].
    unfold clearTimeout. world_simpl. by rewrite lookup_delete_ne.
Qed.

(** X16.  When the last socket of a room leaves, the room is cleaned up,
    which ends a running quiz: the room loses its entry in the socket
    map and in the question cache, its timers are deleted and their
    timeouts cancelled (so the pending question, expiry or
    next-question callback never runs), and the Redis keys that
    [cleanupRoomData] lists are removed. *)
Theorem last_leaver_clears_room env c payload roomId w socks :
  leave_target c payload w = Some roomId →
  db_fails env LeaveTx = false →
  roomSockets w !! roomId = Some socks →
  size (socks ∖ {[c]}) = 0%nat →
  let w' := handleLeaveRoom env c payload w in
  roomSockets w' !! roomId = None
  ∧ questionsCache w' !! roomId = None
  ∧ (∀ key, String.prefix (roomId +:+ ":") key = true → timers w' !! key = None)
  ∧ (∀ key rt env',
       String.prefix (roomId +:+ ":") key = true → timers w !! key = Some rt →
       timeouts w' !! timer rt = None ∧ fire_timeout env' (timer rt) w' = w')
  ∧ (∀ t k, k ∈ keysToDelete roomId → redis_exists t k (redis w') = false).
Proof.
  intros Htarget Hdb Hroom Hsz. cbn zeta.
  unfold handleLeaveRoom. rewrite Htarget. unfold leaveRoom_body. rewrite Hdb.
  world_simpl. rewrite Hroom. rewrite decide_True by done.
  match goal with |- context [cleanupRoomData roomId ?w0] => set (w2 := w0) end.
  destruct (cleanupRoomData_frame roomId w2) as (_ & Hrs & _ & _).
  destruct (cleanupRoomData_clears roomId w2) as (Hqc & Htimers & Hredis).
  set (w3 := cleanupRoomData roomId w2) in *.
  assert (Hnone : roomSockets w3 !! roomId = None).
  { rewrite Hrs. subst w2. world_simpl. apply lookup_delete_eq. }
  unfold broadcastToRoom. world_simpl. rewrite Hnone. world_simpl.
  split; [done|]. split; [done|]. split; [done|]. split; [|done].
  intros key rt env' Hpre Hkey.
  assert (Hto : timeouts w3 !! timer rt = None)
    by (by apply (cleanupRoomData_timeouts roomId w2 key rt)).
  split; [done|]. unfold fire_timeout. world_simpl. by rewrite Hto.
Qed.

Lemma last_leaver_clears_room_witness :
  let w := run example_parse asking_0
             [ (at_time 6000, InMessage "c1" "leave");
               (at_time 6001, InMessage "c2" "leave") ] in
  let w' := handleLeaveRoom (at_time 6002) "c3" (Some "R") w in
  timers w !! "R:0" = Some {| timer := 4%nat; rt_questionIndex := 0; rt_roomId := "R" |}
  ∧ is_Some (timeouts w !! 4%nat)
  ∧ roomSockets w' !! "R" = None
  ∧ questionsCache w' !! "R" = None
  ∧ timeouts w' !! 4%nat = None
  ∧ fire_timeout (at_time 15020) 4%nat w' = w'.
Proof.
  cbn zeta.
  destruct (last_leaver_clears_room (at_time 6002) "c3" (Some "R") "R"
              (run example_parse asking_0
                 [ (at_time 6000, InMessage "c1" "leave");
                   (at_time 6001, InMessage "c2" "leave") ])
              {[ "c3" ]}) as (Hrs & Hqc & _ & Hto & _);
    [by_computation..|].
  destruct (Hto "R:0" {| timer := 4%nat; rt_questionIndex := 0; rt_roomId := "R" |}
              (at_time 15020)) as [Hgone Hfire]; [by_computation..|].
  split; [by_computation|]. split; [vm_compute; eexists; reflexivity|].
  split; [exact Hrs|]. split; [exact Hqc|]. split; [exact Hgone|exact Hfire].
Defined.

(** ** Refused submissions *)

Lemma submit_resume_past_first_write env c p st w :
  past_first_write st = true →
  past_first_write (submit_resume env c p st w).1 = true.
Proof.
  destruct st as [b|cq ha hw ie|b|q b|q b|at_|code msg]; try done; intros _.
  - cbn [submit_resume]. destruct b; [|done].
    destruct (cached_question _ _ _); [|done].
    case_decide; [done|]. by destruct (redis_set_nx _ _ _ _ _).
  - cbn [submit_resume]. destruct b; [|done].
    by destruct (claim_transaction _ _ _ _ _).
Qed.

Lemma submit_resume_before_first_write env c p st w :
  (submit_resume env c p st w).2 = w
  ∨ past_first_write (submit_resume env c p st w).1 = true.
Proof.
  destruct (past_first_write st) eqn:Hst.
  { right. by apply submit_resume_past_first_write. }
  destruct st as [b|cq ha hw ie|b|q b|q b|at_|code msg]; try done.
  - left. cbn [submit_resume]. by destruct b.
  - cbn [submit_resume]. case_decide; [by left|].
    destruct ie; [by left|].
    destruct (truthy_str ha); [by left|].
    right. by destruct (redis_set_nx _ _ _ _ _).
  - by left.
Qed.

Lemma submit_run_before_first_write env c p w0 n : ∀ tw,
  tw.2 = w0 ∨ past_first_write tw.1 = true →
  (submit_run n env c p tw).2 = w0 ∨ past_first_write (submit_run n env c p tw).1 = true.
Proof.
  induction n as [|n IH]; intros [st w] Htw; cbn [submit_run fst snd] in *; [done|].
  apply IH. destruct Htw as [->|Hst].
  - apply submit_resume_before_first_write.
  - right. by apply submit_resume_past_first_write.
Qed.

(** X17.  A submission that is refused with any code other than 500
    (invalid index or choice, not in the room, not a participant,
    question not current, question expired) has changed nothing: the
    checks that refuse it come before the first write of the handler. *)
Theorem refused_submission_changes_nothing env c p w code msg w' :
  handleSubmitAnswer env c p w = (Throw code msg, w') →
  code ≠ 500 →
  w' = w.
Proof.
  unfold handleSubmitAnswer. intros Hrun Hcode.
  pose proof (submit_run_before_first_write env c p w 5 (submit_begin env c p w)) as Hinv.
  destruct (submit_run 5 env c p (submit_begin env c p w)) as [st w1].
  cbn [fst snd] in Hinv.
  assert (Hst : st = Thrown code msg ∧ w1 = w') by (destruct st; by simplify_eq).
  destruct Hst as [-> ->].
  destruct Hinv as [Hw|Hlate].
  - left. unfold submit_begin. by repeat case_decide.
  - done.
  - cbn in Hlate. destruct code as [|code|code]; try done.
    exfalso. apply Hcode.
    repeat (destruct code as [code|code|]; try done).
Qed.

Lemma refused_submission_changes_nothing_witness :
  (handleSubmitAnswer (at_time 6000) "c3" (mk_submit "R" 1 2) asking_0).2 = asking_0.
Proof.
  apply (refused_submission_changes_nothing (at_time 6000) "c3" (mk_submit "R" 1 2)
           asking_0 409 "Question no longer active").
  - by_computation.
  - discriminate.
Defined.

(** ** Starting a quiz *)

(** X18.  A [startQuiz] that is refused with any code other than 500
    changes nothing.  A user who is not the host of the room (or a room
    that does not exist) is answered 403, and the host is answered 409
    as long as the room's current-question key is set. *)
Theorem refused_start_changes_nothing env c roomId w :
  (∀ code msg w', handleStartQuiz env c roomId w = (Throw code msg, w') →
                  code ≠ 500 → w' = w)
  ∧ (roomId ≠ "" → db_fails env StartRoomLookup = false →
     hostId <$> rooms (db w) !! roomId ≠ Some (ws_userId c w) →
     handleStartQuiz env c roomId w = (Throw 403 "Only room host can start quiz", w))
  ∧ (roomId ≠ "" → db_fails env StartRoomLookup = false →
     hostId <$> rooms (db w) !! roomId = Some (ws_userId c w) →
     is_Some (redis_get (now env) (KCurrentQuestion roomId) (redis w)) →
     handleStartQuiz env c roomId w = (Throw 409 "Quiz already in progress", w)).
Proof.
  split; [|split].
  - intros code msg w'. unfold handleStartQuiz, bind, read, modify, throw.
    repeat first [case_decide | case_match]; intros Heq Hcode; by simplify_eq.
  - intros Hr Hdb Hhost. unfold handleStartQuiz, bind, read, throw.
    rewrite decide_False by done. rewrite Hdb.
    by rewrite bool_decide_eq_false_2.
  - intros Hr Hdb Hhost [v Hv]. unfold handleStartQuiz, bind, read, throw.
    rewrite decide_False by done. rewrite Hdb.
    rewrite bool_decide_eq_true_2 by done. by rewrite Hv.
Qed.

Lemma refused_start_changes_nothing_witness :
  handleStartQuiz (at_time 6000) "c2" "R" asking_0
  = (Throw 403 "Only room host can start quiz", asking_0)
  ∧ handleStartQuiz (at_time 6000) "c1" "R" asking_0
    = (Throw 409 "Quiz already in progress", asking_0).
Proof.
  split.
  - apply (refused_start_changes_nothing (at_time 6000) "c2" "R" asking_0);
      [discriminate|reflexivity|by_computation].
  - apply (refused_start_changes_nothing (at_time 6000) "c1" "R" asking_0);
      [discriminate|reflexivity|by_computation|].
    vm_compute. eexists. reflexivity.
Defined.

Lemma redis_get_set_ne t k k' v r :
  k ≠ k' → redis_get t k' (redis_set k v r) = redis_get t k' r.
Proof. intros Hne. unfold redis_get, redis_set. by rewrite redis_lookup_insert_ne. Qed.

Lemma redis_get_expire_ne now t k k' s r :
  k ≠ k' → redis_get t k' (redis_expire now k s r) = redis_get t k' r.
Proof.
  intros Hne. unfold redis_get, redis_expire.
  destruct (redis_lookup now k r); [|done]. by rewrite redis_lookup_insert_ne.
Qed.

Lemma redis_get_expire_set_eq now t k v s r :
  t < now + s * 1000 → redis_get t k (redis_expire now k s (redis_set k v r)) = Some v.
Proof.
  intros Ht. unfold redis_get, redis_expire, redis_set.
  rewrite redis_lookup_insert_eq. cbn [live rexpire rval].
  rewrite redis_lookup_insert_eq. cbn [live rexpire rval].
  by rewrite bool_decide_eq_true_2.
Qed.

(** [handleStartQuiz] when every check passes. *)
Lemma handleStartQuiz_ok env c roomId w :
  roomId ≠ "" →
  db_fails env StartRoomLookup = false →
  db_fails env StartQuestionCount = false →
  db_fails env StartQuestionFind = false →
  hostId <$> rooms (db w) !! roomId = Some (ws_userId c w) →
  redis_get (now env) (KCurrentQuestion roomId) (redis w) = None →
  CONFIG.QUESTIONS_PER_QUIZ ≤ Z.of_nat (length (questions (db w))) →
  handleStartQuiz env c roomId w
  = (Ok tt,
     let skip := Z.max 0 (random_skip env (Z.of_nat (length (questions (db w)))
                                           - CONFIG.QUESTIONS_PER_QUIZ)) in
     let qs := question_findMany CONFIG.QUESTIONS_PER_QUIZ skip (random_desc env) (db w) in
     let wq := with_questionsCache (<[roomId := (qs, now env)]> (questionsCache w)) w in
     let wr := with_redis
                 (redis_expire (now env) (KStartTime roomId) CONFIG.REDIS_TTL
                    (redis_set (KStartTime roomId) (pretty (now env))
                       (redis_expire (now env) (KCurrentQuestion roomId) CONFIG.REDIS_TTL
                          (redis_set (KCurrentQuestion roomId) "-1" (redis wq))))) wq in
     let wb := broadcastToRoom roomId
                 (FQuizStarting roomId CONFIG.QUIZ_START_DELAY CONFIG.QUESTIONS_PER_QUIZ) wr in
     set_timer (timerKey_start roomId) (nextTimeout wb) (-1) roomId
       (setTimeout (now env) (CbFirstQuestion roomId) CONFIG.QUIZ_START_DELAY wb).2).
Proof.
  intros Hr Hdb1 Hdb2 Hdb3 Hhost Hcq Hcount.
  unfold handleStartQuiz, bind, read, modify, throw.
  rewrite decide_False by done. rewrite Hdb1.
  rewrite bool_decide_eq_true_2 by done. rewrite Hcq, Hdb2.
  rewrite decide_False by lia. rewrite Hdb3. reflexivity.
Qed.

Lemma sort_by_length {A} (le : A → A → bool) l : length (sort_by le l) = length l.
Proof. by rewrite (sort_by_perm le l). Qed.

Lemma question_findMany_lookup skip desc d (j : nat) :
  0 ≤ skip →
  (j < 10)%nat →
  skip + 10 ≤ Z.of_nat (length (questions d)) →
  ∃ q, question_findMany CONFIG.QUESTIONS_PER_QUIZ skip desc d !! j = Some q
       ∧ q ∈ questions d.
Proof.
  intros Hskip Hj Hlen. unfold question_findMany.
  set (le := λ a b : QuizQuestion, if desc then _ else _).
  rewrite lookup_take_lt by (unfold CONFIG.QUESTIONS_PER_QUIZ; lia).
  rewrite lookup_drop.
  destruct (lookup_lt_is_Some_2 (sort_by le (questions d)) (Z.to_nat skip + j)) as [q Hq].
  { rewrite sort_by_length. lia. }
  exists q. split; [done|].
  apply list_elem_of_lookup_2 in Hq. by rewrite (sort_by_perm le (questions d)) in Hq.
Qed.

(** X19.  A quiz that starts has its ten questions.  When the host starts
    a quiz in a room without a current question, the store holds at
    least [QUESTIONS_PER_QUIZ] questions and answers, and the random
    offset is at most [questionCount - QUESTIONS_PER_QUIZ] (as
    [Math.floor(Math.random() * n)] is), then: each of the indices 0 to
    9 has a cached question, taken from the table of questions; the
    current-question key reads "-1" for [REDIS_TTL] seconds;
    [quizStarting] is broadcast; the first question is scheduled
    [QUIZ_START_DELAY] ms later; and the store is not written. *)
Theorem started_quiz_has_ten_questions env c roomId w :
  roomId ≠ "" →
  db_fails env StartRoomLookup = false →
  db_fails env StartQuestionCount = false →
  db_fails env StartQuestionFind = false →
  hostId <$> rooms (db w) !! roomId = Some (ws_userId c w) →
  redis_get (now env) (KCurrentQuestion roomId) (redis w) = None →
  CONFIG.QUESTIONS_PER_QUIZ ≤ Z.of_nat (length (questions (db w))) →
  random_skip env (Z.of_nat (length (questions (db w))) - CONFIG.QUESTIONS_PER_QUIZ)
  ≤ Z.of_nat (length (questions (db w))) - CONFIG.QUESTIONS_PER_QUIZ →
  let w' := (handleStartQuiz env c roomId w).2 in
  (handleStartQuiz env c roomId w).1 = Ok tt
  ∧ (∀ i, 0 ≤ i < CONFIG.QUESTIONS_PER_QUIZ →
          ∃ q, cached_question roomId i w' = Some q ∧ q ∈ questions (db w))
  ∧ (∀ t, now env ≤ t < now env + CONFIG.REDIS_TTL * 1000 →
          redis_get t (KCurrentQuestion roomId) (redis w') = Some "-1")
  ∧ broadcasts w'
    = (roomId, FQuizStarting roomId CONFIG.QUIZ_START_DELAY CONFIG.QUESTIONS_PER_QUIZ)
      :: broadcasts w
  ∧ timeouts w' !! nextTimeout w
    = Some {| due := now env + CONFIG.QUIZ_START_DELAY; callback := CbFirstQuestion roomId |}
  ∧ db w' = db w.
Proof.
  intros Hr Hdb1 Hdb2 Hdb3 Hhost Hcq Hcount Hskip. cbn zeta.
  rewrite (handleStartQuiz_ok env c roomId w) by done. cbn [fst snd].
  unfold setTimeout, set_timer. cbn [snd].
  split; [done|].
  unfold cached_question. world_simpl.
  rewrite broadcastToRoom_questionsCache, broadcastToRoom_redis,
    broadcastToRoom_broadcasts, broadcastToRoom_nextTimeout, broadcastToRoom_db.
  world_simpl. rewrite !lookup_insert_eq.
  split.
  { intros i Hi. cbn [mbind option_bind fst]. unfold nth_question.
    rewrite decide_True by lia.
    apply question_findMany_lookup; unfold CONFIG.QUESTIONS_PER_QUIZ in *; lia. }
  split; [|done].
  intros t Ht.
  rewrite redis_get_expire_ne, redis_get_set_ne by done.
  apply redis_get_expire_set_eq. lia.
Qed.

Lemma started_quiz_has_ten_questions_witness :
  let w := run example_parse (initial example_db) (take 6 quiz_started) in
  let w' := (handleStartQuiz (at_time 20) "c1" "R" w).2 in
  (handleStartQuiz (at_time 20) "c1" "R" w).1 = Ok tt
  ∧ (∀ i, 0 ≤ i < CONFIG.QUESTIONS_PER_QUIZ →
          ∃ q, cached_question "R" i w' = Some q ∧ q ∈ questions (db w))
  ∧ (∀ t, 20 ≤ t < 20 + CONFIG.REDIS_TTL * 1000 →
          redis_get t (KCurrentQuestion "R") (redis w') = Some "-1")
  ∧ broadcasts w'
    = ("R", FQuizStarting "R" CONFIG.QUIZ_START_DELAY CONFIG.QUESTIONS_PER_QUIZ)
      :: broadcasts w
  ∧ timeouts w' !! nextTimeout w
    = Some {| due := 20 + CONFIG.QUIZ_START_DELAY; callback := CbFirstQuestion "R" |}
  ∧ db w' = db w.
Proof.
  apply (started_quiz_has_ten_questions (at_time 20) "c1" "R"
           (run example_parse (initial example_db) (take 6 quiz_started))).
  - discriminate.
  - reflexivity.
  - reflexivity.
  - reflexivity.
  - by_computation.
  - by_computation.
  - by_computation.
  - by_computation.
Defined.

(** ** Ratings when a transaction fails *)

Lemma compute_standings_under env d0 ps : ∀ w,
  NoDup (rp_userId <$> ps) →
  (∀ p, p ∈ ps → is_Some (users d0 !! rp_userId p)) →
  (∀ p, p ∈ ps → playerRatings (db w) !! rp_userId p = playerRatings d0 !! rp_userId p) →
  let res := compute_standings env ((λ p, (p, users d0 !! rp_userId p)) <$> ps) w in
  res.1 = Some (standing_under env d0 <$> ps)
  ∧ broadcasts res.2 = broadcasts w
  ∧ (∀ u, (∀ p, p ∈ ps → rp_userId p = u → db_fails env (RatingTx u) = true) →
          playerRatings (db res.2) !! u = playerRatings (db w) !! u).
Proof.
  intros w Hnd Husers Hrat. cbn zeta. revert w Hrat.
  induction ps as [|p ps IH]; intros w Hrat; [done|].
  cbn in Hnd. apply NoDup_cons in Hnd as [Hp Hnd].
  cbn [fmap list_fmap compute_standings].
  destruct (Husers p) as [usr Hu]; [by left|].
  assert (Hstep : ∃ w1,
    standing_for env p (users d0 !! rp_userId p) w = (Some (standing_under env d0 p), w1)
    ∧ broadcasts w1 = broadcasts w
    ∧ (∀ q, q ∈ ps → playerRatings (db w1) !! rp_userId q = playerRatings d0 !! rp_userId q)
    ∧ (∀ u, (rp_userId p = u → db_fails env (RatingTx u) = true) →
            playerRatings (db w1) !! u = playerRatings (db w) !! u)).
  { unfold standing_for, standing_under, standing_of.
    destruct (db_fails env (RatingTx (rp_userId p))) eqn:Hfail.
    - eexists. split; [by rewrite Hu|]. split; [done|]. split; [|done].
      intros q Hq. apply Hrat. by right.
    - unfold rating_transaction. rewrite Hu, (Hrat p) by by left.
      eexists. split; [done|]. split; [done|]. split.
      + intros q Hq. cbn. rewrite lookup_insert_ne; [by apply Hrat; right|].
        intros Heq. apply Hp. rewrite Heq. by apply list_elem_of_fmap_2.
      + intros u Hfu. cbn. rewrite lookup_insert_ne; [done|].
        intros Heq. specialize (Hfu Heq). congruence. }
  destruct Hstep as (w1 & -> & Hb1 & Hrat1 & Hkeep1).
  assert (Husers' : ∀ q, q ∈ ps → is_Some (users d0 !! rp_userId q))
    by (intros q Hq; apply Husers; by right).
  destruct (IH Hnd Husers' w1 Hrat1) as (Hres & Hb & Hkeep).
  destruct (compute_standings env _ w1) as [rest w2]. cbn [fst snd] in *.
  subst rest. split; [done|]. split; [congruence|].
  intros u Hfu. rewrite Hkeep, Hkeep1; [done| |].
  - intros Heq. apply (Hfu p); [by left|done].
  - intros q Hq Heq. apply (Hfu q); [by right|done].
Qed.

(** X20.  When the rating transaction of a participant fails, the quiz
    still finishes: the standings list that participant with the
    fallback rating [1200 + score * 10], whatever the stored rating is,
    and the stored rating stays as it was; the other participants are
    rated as usual. *)
Theorem failed_rating_falls_back env roomId w :
  db_fails env StandingsFind = false →
  NoDup (rp_userId <$> room_participants roomId (db w)) →
  (∀ p, p ∈ room_participants roomId (db w) → is_Some (users (db w) !! rp_userId p)) →
  let w' := handleQuizFinished env roomId w in
  broadcasts w'
  = (roomId, FQuizFinished (standing_under env (db w)
                              <$> sort_by by_score_desc (room_participants roomId (db w))))
    :: broadcasts w
  ∧ (∀ p, p ∈ room_participants roomId (db w) →
          db_fails env (RatingTx (rp_userId p)) = true →
          st_newRating (standing_under env (db w) p) = 1200 + score p * 10
          ∧ playerRatings (db w') !! rp_userId p = playerRatings (db w) !! rp_userId p).
Proof.
  intros Hfind Hnd Husers. cbn zeta. unfold handleQuizFinished. rewrite Hfind.
  unfold standings_query. fold by_score_desc.
  set (ps := sort_by by_score_desc (room_participants roomId (db w))).
  assert (Hperm : ps ≡ₚ room_participants roomId (db w)) by apply sort_by_perm.
  destruct (compute_standings_under env (db w) ps w) as (Hres & Hb & Hkeep).
  { by rewrite Hperm. }
  { intros p Hp. apply Husers. by rewrite <- Hperm. }
  { done. }
  destruct (compute_standings env _ w) as [standings w1]. cbn [fst snd] in *.
  subst standings.
  rewrite cleanupRoomData_broadcasts, cleanupRoomData_db,
    broadcastToRoom_broadcasts, broadcastToRoom_db, Hb.
  split; [done|]. intros p Hp Hfail. split.
  - unfold standing_under. by rewrite Hfail.
  - apply Hkeep. intros q Hq Heq. exact Hfail.
Qed.

Lemma failed_rating_falls_back_witness :
  let w' := handleQuizFinished rating_fails_for_1 "R" (initial tie_db) in
  broadcasts w'
  = [("R", FQuizFinished
             [ {| st_userId := 2; st_userName := "U2"; st_score := 1; st_newRating := 1310 |};
               {| st_userId := 1; st_userName := "U1"; st_score := 1; st_newRating := 1210 |} ])]
  ∧ playerRatings (db w') !! 1 = Some 1000.
Proof.
  cbn zeta.
  destruct (failed_rating_falls_back rating_fails_for_1 "R" (initial tie_db))
    as [Hb Hkeep].
  - reflexivity.
  - vm_compute. apply NoDup_cons. split; [|apply NoDup_singleton].
    intros Hin. apply list_elem_of_singleton in Hin. discriminate.
  - intros p Hp. vm_compute in Hp.
    apply elem_of_cons in Hp as [->|Hp]; [by eexists|].
    apply elem_of_cons in Hp as [->|Hp]; [by eexists|].
    by apply elem_of_nil in Hp.
  - split.
    + etrans; [exact Hb|]. by_computation.
    + destruct (Hkeep {| rp_roomId := "R"; rp_userId := 1; score := 1 |}) as [_ Hr].
      * vm_compute. right. left.
      * reflexivity.
      * etrans; [exact Hr|]. by_computation.
Defined.

(** ** The question cycle *)

Lemma handleNextQuestion_state env roomId i w q :
  cached_question roomId i w = Some q →
  let w' := handleNextQuestion env roomId i w in
  broadcasts w'
  = (roomId, FNextQuestion i q (now env) (now env + CONFIG.QUESTION_TIME_LIMIT)) :: broadcasts w
  ∧ timeouts w' !! nextTimeout w
    = Some {| due := now env + CONFIG.QUESTION_TIME_LIMIT;
              callback := CbQuestionExpiry roomId i |}
  ∧ nextTimeout w' = S (nextTimeout w)
  ∧ questionsCache w' = questionsCache w
  ∧ redis w' = redis_set_ex (now env) (KCurrentQuestion roomId) (pretty i) CONFIG.REDIS_TTL
                 (redis w).
Proof.
  intros Hq. cbn zeta. unfold handleNextQuestion, setTimeout, set_timer. rewrite Hq.
  world_simpl.
  rewrite broadcastToRoom_broadcasts, broadcastToRoom_nextTimeout,
    broadcastToRoom_questionsCache, broadcastToRoom_redis.
  world_simpl. by rewrite lookup_insert_eq.
Qed.

Lemma handleQuestionExpiry_state env roomId i w q :
  cached_question roomId i w = Some q →
  has_winner (now env) roomId i w = false →
  let w' := handleQuestionExpiry env roomId i w in
  broadcasts w' = (roomId, FEndQuestion i (correctIdx q) None) :: broadcasts w
  ∧ timeouts w' !! nextTimeout w
    = Some {| due := now env + CONFIG.NEXT_QUESTION_DELAY; callback := CbAdvance roomId i |}
  ∧ nextTimeout w' = S (nextTimeout w)
  ∧ questionsCache w' = questionsCache w.
Proof.
  intros Hq Hwin. unfold has_winner in Hwin. cbn zeta.
  unfold handleQuestionExpiry, setTimeout, set_timer. rewrite Hq, Hwin.
  world_simpl.
  rewrite broadcastToRoom_broadcasts, broadcastToRoom_nextTimeout,
    broadcastToRoom_questionsCache.
  world_simpl. by rewrite lookup_insert_eq.
Qed.

Lemma fire_timeout_due env h w t :
  timeouts w !! h = Some t → due t ≤ now env →
  fire_timeout env h w
  = run_callback env (callback t) (with_timeouts (delete h (timeouts w)) w).
Proof. intros Hh Hdue. unfold fire_timeout. rewrite Hh. by rewrite decide_True. Qed.

(** X21.  A question that nobody answers correctly is followed by the
    next one: asked at [t], question [i] (not the last) expires when
    its timer fires, [QUESTION_TIME_LIMIT] ms later at the earliest,
    with an [endQuestion] broadcast without a winner, and when the
    timer set by the expiry fires, [NEXT_QUESTION_DELAY] ms later at
    the earliest, question [i + 1] is asked: it becomes the current
    question and gets its own expiry timer. *)
Theorem unanswered_question_advances env env1 env2 roomId i w q q' :
  cached_question roomId i w = Some q →
  cached_question roomId (i + 1) w = Some q' →
  i < CONFIG.QUESTIONS_PER_QUIZ - 1 →
  has_winner (now env1) roomId i w = false →
  now env + CONFIG.QUESTION_TIME_LIMIT ≤ now env1 →
  now env1 + CONFIG.NEXT_QUESTION_DELAY ≤ now env2 →
  let h := nextTimeout w in
  let w1 := handleNextQuestion env roomId i w in
  let w2 := fire_timeout env1 h w1 in
  let w3 := fire_timeout env2 (S h) w2 in
  broadcasts w3
  = [ (roomId, FNextQuestion (i + 1) q' (now env2) (now env2 + CONFIG.QUESTION_TIME_LIMIT));
      (roomId, FEndQuestion i (correctIdx q) None);
      (roomId, FNextQuestion i q (now env) (now env + CONFIG.QUESTION_TIME_LIMIT)) ]
    ++ broadcasts w
  ∧ redis_get (now env2) (KCurrentQuestion roomId) (redis w3) = Some (pretty (i + 1))
  ∧ timeouts w3 !! S (S h)
    = Some {| due := now env2 + CONFIG.QUESTION_TIME_LIMIT;
              callback := CbQuestionExpiry roomId (i + 1) |}.
Proof.
  intros Hq Hq' Hi Hwin Hd1 Hd2. cbn zeta.
  destruct (handleNextQuestion_state env roomId i w q Hq) as (Hb1 & Ht1 & Hn1 & Hc1 & Hr1).
  set (w1 := handleNextQuestion env roomId i w) in *.
  rewrite (fire_timeout_due env1 _ w1 _ Ht1) by (cbn; lia). cbn [run_callback callback].
  set (w1' := with_timeouts (delete (nextTimeout w) (timeouts w1)) w1).
  assert (Hq1 : cached_question roomId i w1' = Some q).
  { unfold cached_question. subst w1'. world_simpl. by rewrite Hc1. }
  assert (Hwin1 : has_winner (now env1) roomId i w1' = false).
  { unfold has_winner in *. subst w1'. world_simpl. rewrite Hr1.
    by rewrite redis_exists_set_ex_ne. }
  destruct (handleQuestionExpiry_state env1 roomId i w1' q Hq1 Hwin1)
    as (Hb2 & Ht2 & Hn2 & Hc2).
  set (w2 := handleQuestionExpiry env1 roomId i w1') in *.
  assert (Hn1' : nextTimeout w1' = S (nextTimeout w)) by (subst w1'; world_simpl; done).
  rewrite Hn1' in Ht2, Hn2.
  rewrite (fire_timeout_due env2 _ w2 _ Ht2) by (cbn; lia). cbn [run_callback callback].
  rewrite decide_True by done.
  set (w2' := with_timeouts (delete (S (nextTimeout w)) (timeouts w2)) w2).
  assert (Hq2 : cached_question roomId (i + 1) w2' = Some q').
  { unfold cached_question. subst w2' w1'. world_simpl. rewrite Hc2. world_simpl.
    by rewrite Hc1. }
  destruct (handleNextQuestion_state env2 roomId (i + 1) w2' q' Hq2)
    as (Hb3 & Ht3 & _ & _ & Hr3).
  assert (Hn2' : nextTimeout w2' = S (S (nextTimeout w))) by (subst w2'; world_simpl; done).
  rewrite Hn2' in Ht3.
  rewrite Hb3, Hr3. split; [|split; [|exact Ht3]].
  - subst w2'. world_simpl. rewrite Hb2. subst w1'. world_simpl. by rewrite Hb1.
  - apply redis_get_set_ex_eq. unfold CONFIG.REDIS_TTL. lia.
Qed.

Lemma unanswered_question_advances_witness :
  let w := run example_parse (initial example_db) (take 7 quiz_started) in
  let w1 := handleNextQuestion (at_time 5020) "R" 0 w in
  let w2 := fire_timeout (at_time 15020) (nextTimeout w) w1 in
  let w3 := fire_timeout (at_time 18020) (S (nextTimeout w)) w2 in
  broadcasts w3
  = [ ("R", FNextQuestion (0 + 1) (example_question 2) 18020
              (18020 + CONFIG.QUESTION_TIME_LIMIT));
      ("R", FEndQuestion 0 (correctIdx (example_question 1)) None);
      ("R", FNextQuestion 0 (example_question 1) 5020 (5020 + CONFIG.QUESTION_TIME_LIMIT)) ]
    ++ broadcasts w
  ∧ redis_get 18020 (KCurrentQuestion "R") (redis w3) = Some (pretty (0 + 1))
  ∧ timeouts w3 !! S (S (nextTimeout w))
    = Some {| due := 18020 + CONFIG.QUESTION_TIME_LIMIT;
              callback := CbQuestionExpiry "R" (0 + 1) |}.
Proof.
  apply (unanswered_question_advances (at_time 5020) (at_time 15020) (at_time 18020) "R" 0
           (run example_parse (initial example_db) (take 7 quiz_started))
           (example_question 1) (example_question 2)).
  - by_computation.
  - by_computation.
  - unfold CONFIG.QUESTIONS_PER_QUIZ. lia.
  - by_computation.
  - by_computation.
  - by_computation.
Defined.

(** ** A winner ends the question early *)

Lemma cleanupConnection_timeouts_none c w h :
  timeouts w !! h = None → timeouts (cleanupConnection c w) !! h = None.
Proof.
  intros Hh. unfold cleanupConnection.
  set (w1 := match connectionCleanup w !! c with Some _ => _ | None => _ end).
  assert (H1 : timeouts w1 !! h = None).
  { subst w1. destruct (connectionCleanup w !! c) as [h'|]; [|done].
    unfold clearTimeout. world_simpl.
    destruct (decide (h' = h)) as [->|Hne]; [apply lookup_delete_eq|].
    by rewrite lookup_delete_ne. }
  clearbody w1. destruct (sockets w1 !! c) as [ws|]; [|done].
  unfold ws_close. repeat case_match; world_simpl; done.
Qed.

Lemma broadcastToRoom_timeouts_none roomId f w h :
  timeouts w !! h = None → timeouts (broadcastToRoom roomId f w) !! h = None.
Proof.
  intros Hh. unfold broadcastToRoom. world_simpl.
  destruct (roomSockets w !! roomId) as [socks|]; [|done].
  case_decide; [done|].
  match goal with |- timeouts (foldl ?f ?w1 ?l) !! _ = _ =>
    assert (Hfold : ∀ xs w0, timeouts w0 !! h = None → timeouts (foldl f w0 xs) !! h = None) end.
  { intros xs. induction xs as [|c xs IH]; intros w0 H0; cbn [foldl]; [done|].
    apply IH. by apply cleanupConnection_timeouts_none. }
  by apply Hfold.
Qed.

Lemma submit_finish_cancels env c p q committed w rt :
  timers w !! timerKey_question (sp_roomId p) (sp_questionIndex p) = Some rt →
  timer rt ≠ nextTimeout w →
  timeouts (submit_resume env c p (AwaitTransaction q committed) w).2 !! timer rt = None.
Proof.
  intros Hrt Hfresh. cbn [submit_resume]. unfold setTimeout, set_timer. cbn [snd].
  world_simpl. rewrite broadcastToRoom_nextTimeout.
  assert (Hn : ∀ x : World, nextTimeout (if committed then x
                                         else console_error "Database error recording answer" x)
                            = nextTimeout x) by (intros x; by destruct committed).
  assert (Ht : ∀ x : World, timers (if committed then x
                                    else console_error "Database error recording answer" x)
                            = timers x) by (intros x; by destruct committed).
  rewrite Ht, Hrt. unfold clearTimeout. world_simpl. rewrite Hn.
  rewrite lookup_insert_ne by done.
  apply broadcastToRoom_timeouts_none. world_simpl. apply lookup_delete_eq.
Qed.

(** X22.  The first correct answer ends the question early.  After the
    handler of a winning submission has run, the expiry timeout of the
    question is cancelled (firing it does nothing), the next-question
    timer is due [NEXT_QUESTION_DELAY] ms after the answer, and the
    expiry handler, should it still run while the winner key lives,
    does nothing: there is no second [endQuestion]. *)
Theorem winner_ends_question_early env c p w q rt :
  active env c p w →
  let r := sp_roomId p in
  let i := sp_questionIndex p in
  answered (now env) r i (ws_userId c w) w = false →
  cached_question r i w = Some q →
  correctIdx q = sp_choiceIdx p →
  has_winner (now env) r i w = false →
  timers w !! timerKey_question r i = Some rt →
  timer rt ≠ nextTimeout w →
  let w' := (handleSubmitAnswer env c p w).2 in
  timeouts w' !! timer rt = None
  ∧ (∀ env', fire_timeout env' (timer rt) w' = w')
  ∧ timeouts w' !! nextTimeout w
    = Some {| due := now env + CONFIG.NEXT_QUESTION_DELAY; callback := CbAdvance r i |}
  ∧ (∀ env', now env ≤ now env' < now env + CONFIG.REDIS_TTL * 1000 →
             handleQuestionExpiry env' r i w' = w').
Proof.
  intros Hact r i Hans Hq Hright Hwin Hrt Hfresh. cbn zeta.
  rewrite (submit_right_first env c p w q) by done. cbn [snd].
  set (w2 := with_redis _ w).
  assert (Hgen : ∀ committed w0,
            timers w0 = timers w → nextTimeout w0 = nextTimeout w →
            redis w0 = redis w2 → questionsCache w0 = questionsCache w →
            let w' := (submit_resume env c p (AwaitTransaction q committed) w0).2 in
            timeouts w' !! timer rt = None
            ∧ (∀ env', fire_timeout env' (timer rt) w' = w')
            ∧ timeouts w' !! nextTimeout w
              = Some {| due := now env + CONFIG.NEXT_QUESTION_DELAY;
                        callback := CbAdvance r i |}
            ∧ (∀ env', now env ≤ now env' < now env + CONFIG.REDIS_TTL * 1000 →
                       handleQuestionExpiry env' r i w' = w')).
  { intros committed w0 Ht0 Hn0 Hr0 Hc0. cbn zeta.
    destruct (submit_finish env c p q committed w0)
      as (_ & Hredis & _ & Hcache & _ & _ & _ & Hadv).
    assert (Hgone : timeouts (submit_resume env c p (AwaitTransaction q committed) w0).2
                      !! timer rt = None).
    { apply submit_finish_cancels; [by rewrite Ht0|by rewrite Hn0]. }
    split; [done|]. split; [by intros env'; unfold fire_timeout; rewrite Hgone|].
    split; [by rewrite <- Hn0|].
    intros env' Hnow. unfold handleQuestionExpiry, cached_question.
    rewrite Hcache, Hc0. fold (cached_question r i w). rewrite Hq.
    rewrite Hredis, Hr0. subst w2. world_simpl.
    by rewrite redis_exists_set_ex_eq by lia. }
  destruct (claim_transaction _ _ _ _ _) as [d|]; by apply Hgen.
Qed.

Lemma winner_ends_question_early_witness :
  let w' := (handleSubmitAnswer (at_time 6000) "c2" (mk_submit "R" 0 2) asking_0).2 in
  timers asking_0 !! "R:0"
  = Some {| timer := 4%nat; rt_questionIndex := 0; rt_roomId := "R" |}
  ∧ is_Some (timeouts asking_0 !! 4%nat)
  ∧ timeouts w' !! 4%nat = None
  ∧ fire_timeout (at_time 15020) 4%nat w' = w'
  ∧ timeouts w' !! 5%nat = Some {| due := 9000; callback := CbAdvance "R" 0 |}
  ∧ handleQuestionExpiry (at_time 15020) "R" 0 w' = w'.
Proof.
  cbn zeta.
  destruct (winner_ends_question_early (at_time 6000) "c2" (mk_submit "R" 0 2) asking_0
              (example_question 1)
              {| timer := 4%nat; rt_questionIndex := 0; rt_roomId := "R" |})
    as (Hgone & Hfire & Hadv & Hexp).
  - unfold active. conj_by_computation.
  - by_computation.
  - by_computation.
  - by_computation.
  - by_computation.
  - by_computation.
  - by_computation.
  - split; [by_computation|]. split; [vm_compute; eexists; reflexivity|].
    split; [exact Hgone|]. split; [apply Hfire|]. split; [exact Hadv|].
    apply Hexp. split; by_computation.
Defined.
